(** * SENSEI Libsim analysis adaptor

    A shallow embedding of [sensei/LibsimAnalysisAdaptor.cxx]: the mesh data
    cache ([MeshInfo], [meshData]), the domain indexing helpers, variable-name
    resolution, the unstructured connectivity conversion and the AMR
    domain-nesting callback, together with the properties the design
    document states about them.

    Conventions of the embedding:
    - a C++ [int] / [unsigned int] is a [Z]; conversions and arithmetic that
      the source performs on them go through [CInt.to_int] / [CInt.to_uint],
      which write out the 32-bit wrap-around;
    - a [std::vector] is a [list]; [v[i]] is the lookup [v !! i], and a
      function whose source indexes a vector returns [option]: [None] stands
      for an access outside the vector (undefined behaviour in the source);
    - a pointer that may be [nullptr] is an [option];
    - [std::map<std::string, MeshInfo *>] is a [gmap string MeshInfo];
      reference counting ([Register]/[Delete]) is not modelled;
    - MPI collectives are the nodes of a resumption type [Proc]; the SPMD
      execution of all ranks is [run_spmd]. *)

From Stdlib Require Import ZArith Lia Ascii.
From stdpp Require Import gmap strings list fin_maps.

(** ** C++ integer conversions *)

Module CInt.

Definition INT_MAX : Z := 2147483647.
Definition INT_MIN : Z := (-2147483648)%Z.
Definition UINT_MAX : Z := 4294967295.

(** [static_cast<int>(z)]: reduction to the signed 32-bit range. *)
Definition to_int (z : Z) : Z :=
  ((z + 2147483648) mod 4294967296 - 2147483648)%Z.

(** [static_cast<unsigned int>(z)]: reduction modulo 2^32. *)
Definition to_uint (z : Z) : Z := (z mod 4294967296)%Z.

Definition is_int (z : Z) : Prop := (INT_MIN ≤ z ≤ INT_MAX)%Z.
Definition is_uint (z : Z) : Prop := (0 ≤ z ≤ UINT_MAX)%Z.

Definition add (a b : Z) : Z := to_int (a + b).
Definition sub (a b : Z) : Z := to_int (a - b).
Definition mul (a b : Z) : Z := to_int (a * b).

End CInt.

(** ** The VTK objects the adaptor looks at

    VTK is an external library; only the observations the adaptor makes of
    its objects are modelled. *)

Inductive DataSetKind :=
  | ImageData | RectilinearGrid | StructuredGrid | PolyData
  | UnstructuredGrid | OtherDataSet.

(** A [vtkDataSet *]: the concrete class and the identity of the object. *)
Record vtkDataSet := mkDataSet { ds_kind : DataSetKind; ds_addr : N }.

(** What [cds->GetDataSet(it)] yields at a non-empty node: a [vtkDataSet]
    or some other data object (for which [vtkDataSet::SafeDownCast] fails). *)
Inductive Leaf :=
  | LeafDataSet (ds : vtkDataSet)
  | LeafOther.

(** [vtkAMRBox]: its corners, and what [Empty()] answers. *)
Record vtkAMRBox := mkAMRBox {
  Empty : bool;
  LoCorner : Z * Z * Z;
  HiCorner : Z * Z * Z
}.

(** [vtkAMRBox::GetDimensions(int[6])] stores low i, high i, low j, high j,
    low k, high k. *)
Definition GetDimensions (box : vtkAMRBox) : list Z :=
  let '(lo0, lo1, lo2) := LoCorner box in
  let '(hi0, hi1, hi2) := HiCorner box in
  [lo0; hi0; lo1; hi1; lo2; hi2].

(** [vtkOverlappingAMR]: the number of patches of each level, the
    refinement ratio of each level, the box of each (level, patch) and the
    nodes a composite iterator visits. *)
Record vtkOverlappingAMR := mkAMR {
  amr_blocksPerLevel : list nat;
  amr_refinementRatio : list Z;
  GetAMRBox : nat → nat → vtkAMRBox;
  amr_leaves : list (option Leaf)
}.

Definition GetNumberOfLevels (amr : vtkOverlappingAMR) : nat :=
  length (amr_blocksPerLevel amr).

Definition GetNumberOfDataSets (amr : vtkOverlappingAMR) (level : nat) : nat :=
  default 0 (amr_blocksPerLevel amr !! level).

Definition GetTotalNumberOfBlocks (amr : vtkOverlappingAMR) : nat :=
  sum_list (amr_blocksPerLevel amr).

(** Composite indices number the patches level by level. *)
Definition GetCompositeIndex (amr : vtkOverlappingAMR) (level idx : nat) : nat :=
  sum_list (take level (amr_blocksPerLevel amr)) + idx.

Fixpoint level_and_index (blocks : list nat) (compositeIdx level : nat) : nat * nat :=
  match blocks with
  | [] => (level, compositeIdx)
  | n :: rest =>
      if decide (compositeIdx < n) then (level, compositeIdx)
      else level_and_index rest (compositeIdx - n) (S level)
  end.

Definition GetLevelAndIndex (amr : vtkOverlappingAMR) (compositeIdx : nat) : nat * nat :=
  level_and_index (amr_blocksPerLevel amr) compositeIdx 0.

Definition GetRefinementRatio (amr : vtkOverlappingAMR) (level : nat) : option Z :=
  amr_refinementRatio amr !! level.

Inductive vtkDataObject :=
  | DataSetObject (ds : vtkDataSet)
  | MultiBlockDataSet (leaves : list (option Leaf))
  | OverlappingAMR (amr : vtkOverlappingAMR)
  | OtherDataObject.

(** [vtkCompositeDataSet::SafeDownCast(obj)], observed through the nodes a
    composite iterator visits (in order; [None] is an empty node). *)
Definition composite_nodes (obj : vtkDataObject) : option (list (option Leaf)) :=
  match obj with
  | MultiBlockDataSet ls => Some ls
  | OverlappingAMR a => Some (amr_leaves a)
  | _ => None
  end.

(** [vtkOverlappingAMR::SafeDownCast(obj)]. *)
Definition as_overlappingAMR (obj : option vtkDataObject) : option vtkOverlappingAMR :=
  match obj with
  | Some (OverlappingAMR a) => Some a
  | _ => None
  end.

(** ** The SENSEI data adaptor (external collaborator) *)

Definition FIELD_ASSOCIATION_POINTS : Z := 0.
Definition FIELD_ASSOCIATION_CELLS : Z := 1.

Record DataAdaptor := mkDataAdaptor {
  GetMeshNames : list string;
  (** [GetMesh(meshName, structureOnly, obj)]: the status (non-zero is a
      failure) and the object stored in [obj]. *)
  GetMesh : string → bool → Z * option vtkDataObject;
  GetArrayNames : string → Z → list string
}.

(** ** The mesh cache *)

Record MeshInfo := mkMeshInfo {
  dataObj : option vtkDataObject;
  datasets : list (option vtkDataSet);
  ndoms_per_rank : list Z;
  doms_this_rank : list Z;
  datasetsHaveGhostCells : bool
}.

(** [MeshInfo::MeshInfo()]. *)
Definition MeshInfo_new : MeshInfo :=
  {| dataObj := None; datasets := []; ndoms_per_rank := [];
     doms_this_rank := []; datasetsHaveGhostCells := false |}.

(** [MeshInfo::SetDataObject]. *)
Definition SetDataObject (mi : MeshInfo) (obj : option vtkDataObject) : MeshInfo :=
  {| dataObj := obj; datasets := datasets mi;
     ndoms_per_rank := ndoms_per_rank mi; doms_this_rank := doms_this_rank mi;
     datasetsHaveGhostCells := datasetsHaveGhostCells mi |}.

(** [MeshInfo::SetDataSet]: guarded by
    [idx >= 0 && idx < (int)datasets.size()]. *)
Definition SetDataSet (mi : MeshInfo) (idx : Z) (ds : option vtkDataSet) : MeshInfo :=
  if ((0 <=? idx) && (idx <? CInt.to_int (Z.of_nat (length (datasets mi)))))%Z
  then {| dataObj := dataObj mi;
          datasets := <[Z.to_nat idx := ds]> (datasets mi);
          ndoms_per_rank := ndoms_per_rank mi;
          doms_this_rank := doms_this_rank mi;
          datasetsHaveGhostCells := datasetsHaveGhostCells mi |}
  else mi.

Definition set_datasetsHaveGhostCells (mi : MeshInfo) (b : bool) : MeshInfo :=
  {| dataObj := dataObj mi; datasets := datasets mi;
     ndoms_per_rank := ndoms_per_rank mi; doms_this_rank := doms_this_rank mi;
     datasetsHaveGhostCells := b |}.

(** [LibsimAnalysisAdaptor::PrivateData], restricted to the members the
    modelled functions use. [comm_rank] and [comm_size] are what
    [MPI_Comm_rank] and [MPI_Comm_size] report for [comm]. *)
Record PrivateData := mkPrivateData {
  da : DataAdaptor;
  meshData : gmap string MeshInfo;
  comm_rank : nat;
  comm_size : nat
}.

Definition set_meshData (pd : PrivateData) (m : gmap string MeshInfo) : PrivateData :=
  {| da := da pd; meshData := m; comm_rank := comm_rank pd; comm_size := comm_size pd |}.

(** [ClearMeshDataCache]. *)
Definition ClearMeshDataCache (pd : PrivateData) : PrivateData :=
  set_meshData pd ∅.

(** ** MPI collectives as a resumption

    A rank's computation either returns or stops at a collective call with
    what it contributes and a continuation that takes what the call leaves
    in its receive buffer. *)

Inductive Collective :=
  (** [MPI_Allgather(&v, 1, MPI_INT, recv, 1, MPI_INT, comm)] *)
  | MPI_Allgather (sendbuf : Z)
  (** [MPI_Allreduce(MPI_IN_PLACE, buf, n, MPI_INT, MPI_MAX, comm)] *)
  | MPI_Allreduce_MAX (buf : list Z)
  (** [MPI_Allgatherv(send, sendcount, MPI_INT, recv, recvcounts, displs,
      MPI_INT, comm)], with the previous contents of [recv]. *)
  | MPI_Allgatherv (sendbuf : list Z) (sendcount : Z)
      (recvbuf : list Z) (recvcounts displs : list Z).

Inductive Proc (A : Type) :=
  | Ret (a : A)
  | Coll (c : Collective) (k : list Z → Proc A).
Arguments Ret {A} a.
Arguments Coll {A} c k.

(** The calls a rank is stopped at must match across ranks. *)
Definition gathered (ps : list Collective) : option (list Z) :=
  mapM (λ c, match c with MPI_Allgather v => Some v | _ => None end) ps.

Definition reduce_bufs (ps : list Collective) : option (list (list Z)) :=
  mapM (λ c, match c with MPI_Allreduce_MAX b => Some b | _ => None end) ps.

(** Element-wise maximum over the ranks' buffers. *)
Definition allreduce_max (bufs : list (list Z)) : list Z :=
  match bufs with
  | [] => []
  | b :: bs => fold_left (zip_with Z.max) bs b
  end.

Definition gatherv_sends (ps : list Collective) : option (list (list Z * Z)) :=
  mapM (λ c, match c with
             | MPI_Allgatherv s n _ _ _ => Some (s, n)
             | _ => None
             end) ps.

(** Overwrite [buf] from position [pos] on with [data] (positions outside
    [buf] are dropped by [<[_:=_]>]; a well-formed call has none). *)
Fixpoint write_at (buf : list Z) (pos : nat) (data : list Z) : list Z :=
  match data with
  | [] => buf
  | x :: data' => write_at (<[pos := x]> buf) (S pos) data'
  end.

(** What rank [r] finds in its receive buffer after [MPI_Allgatherv]: the
    block sent by rank [q] is stored at [displs[q]], [recvcounts[q]] long. *)
Definition allgatherv_recv (sends : list (list Z * Z))
    (recvbuf recvcounts displs : list Z) : list Z :=
  fold_left
    (λ buf q,
       match sends !! q, recvcounts !! q, displs !! q with
       | Some (s, _), Some n, Some d => write_at buf (Z.to_nat d) (take (Z.to_nat n) s)
       | _, _, _ => buf
       end)
    (seq 0 (length sends)) recvbuf.

(** One collective step of all ranks; [None] when the ranks are not all
    stopped at the same kind of call. *)
Definition collective_step (cs : list Collective) : option (list (list Z)) :=
  match cs with
  | [] => Some []
  | MPI_Allgather _ :: _ =>
      vs ← gathered cs; Some (map (λ _, vs) cs)
  | MPI_Allreduce_MAX _ :: _ =>
      bs ← reduce_bufs cs; Some (map (λ _, allreduce_max bs) cs)
  | MPI_Allgatherv _ _ _ _ _ :: _ =>
      sends ← gatherv_sends cs;
      Some (map (λ c, match c with
                      | MPI_Allgatherv _ _ rb rc ds => allgatherv_recv sends rb rc ds
                      | _ => []
                      end) cs)
  end.

Definition all_returned {A} (ps : list (Proc A)) : option (list A) :=
  mapM (λ p, match p with Ret a => Some a | Coll _ _ => None end) ps.

Definition all_stopped {A} (ps : list (Proc A))
    : option (list (Collective * (list Z → Proc A))) :=
  mapM (λ p, match p with Ret _ => None | Coll c k => Some (c, k) end) ps.

(** SPMD execution of one [Proc] per rank, at most [fuel] collective
    rounds. [None]: some ranks returned while others are stopped at a
    collective, or the calls do not match (a deadlock in the source), or
    the fuel ran out. *)
Fixpoint run_spmd {A} (fuel : nat) (ps : list (Proc A)) : option (list A) :=
  match all_returned ps with
  | Some rs => Some rs
  | None =>
      match fuel with
      | O => None
      | S fuel' =>
          cks ← all_stopped ps;
          recvs ← collective_step (map fst cks);
          run_spmd fuel' (zip_with (λ ck r, snd ck r) cks recvs)
      end
  end.

(** ** Cache population and domain indexing *)

(** [AddMeshDataCacheEntry(meshName, datasetIds)]: a fresh [MeshInfo]
    replaces any previous entry; [datasets] is resized to the number of ids
    with [nullptr], and [ndoms_per_rank] (resized to the communicator size,
    zero-filled) receives every rank's [ndoms]. [AddMeshDataCacheEntry_store]
    is the state once [MPI_Allgather] has delivered [recv]. *)
Definition AddMeshDataCacheEntry_store (pd : PrivateData) (meshName : string)
    (datasetIds : list Z) (recv : list Z) : PrivateData :=
  let mInfo :=
    {| dataObj := None;
       datasets := replicate (length datasetIds) None;
       ndoms_per_rank := write_at (replicate (comm_size pd) 0%Z) 0 recv;
       doms_this_rank := datasetIds;
       datasetsHaveGhostCells := false |} in
  set_meshData pd (<[meshName := mInfo]> (meshData pd)).

Definition AddMeshDataCacheEntry (pd : PrivateData) (meshName : string)
    (datasetIds : list Z) : Proc PrivateData :=
  let ndoms := CInt.to_int (Z.of_nat (length datasetIds)) in
  Coll (MPI_Allgather ndoms)
       (λ recv, Ret (AddMeshDataCacheEntry_store pd meshName datasetIds recv)).

(** The loop [for(i = 0; i < size; ++i) total += ndoms_per_rank[i]]. *)
Fixpoint sum_ndoms (v : list Z) (i n : nat) (total : Z) : option Z :=
  match n with
  | O => Some total
  | S n' => x ← v !! i; sum_ndoms v (S i) n' (CInt.add total x)
  end.

(** [GetTotalDomains(meshName)]. *)
Definition GetTotalDomains (pd : PrivateData) (meshName : string) : option Z :=
  match meshData pd !! meshName with
  | Some mi => sum_ndoms (ndoms_per_rank mi) 0 (comm_size pd) 0%Z
  | None => Some 0%Z
  end.

(** [GetDomains(meshName, size)]: the malloc'ed array ([nullptr] when
    [size <= 0]) and [size]. The copy loop runs over the first [size]
    elements, converting each to [int]. *)
Definition GetDomains (pd : PrivateData) (meshName : string) : option (list Z) * Z :=
  match meshData pd !! meshName with
  | Some mi =>
      let size := CInt.to_int (Z.of_nat (length (doms_this_rank mi))) in
      if (0 <? size)%Z
      then (Some (map CInt.to_int (take (Z.to_nat size) (doms_this_rank mi))), size)
      else (None, size)
  | None => (None, 0%Z)
  end.

(** The search loop of [GetLocalDomain]: the first index holding [gdom],
    [-1] when the loop ends without a match. *)
Fixpoint find_domain (gdom : Z) (doms : list Z) (i : Z) : Z :=
  match doms with
  | [] => (-1)%Z
  | d :: rest => if (gdom =? d)%Z then i else find_domain gdom rest (i + 1)%Z
  end.

(** [GetLocalDomain(meshName, globaldomain)]. *)
Definition GetLocalDomain (pd : PrivateData) (meshName : string) (globaldomain : Z) : Z :=
  match meshData pd !! meshName with
  | Some mi =>
      let s := CInt.to_int (Z.of_nat (length (doms_this_rank mi))) in
      let gdom := CInt.to_uint globaldomain in
      find_domain gdom (take (Z.to_nat s) (doms_this_rank mi)) 0%Z
  | None => (-1)%Z
  end.

(** [GetNumDataSets(meshName)]. *)
Definition GetNumDataSets (pd : PrivateData) (meshName : string) : Z :=
  match meshData pd !! meshName with
  | Some mi => CInt.to_int (Z.of_nat (length (doms_this_rank mi)))
  | None => 0%Z
  end.

(** [v[i]] on a [std::vector] for an [int] index; [None] is an access
    outside the vector. *)
Definition vector_at {A} (v : list A) (i : Z) : option A :=
  if (0 <=? i)%Z then v !! Z.to_nat i else None.

(** [GetDataSet(meshName, localdomain)] as it executes: the pointer it
    returns ([Some None] is [nullptr]), and no result ([None]) when
    [it->second->datasets[localdomain]] is evaluated outside the vector. *)
Definition GetDataSet_run (pd : PrivateData) (meshName : string) (localdomain : Z)
    : option (option vtkDataSet) :=
  match meshData pd !! meshName with
  | Some mi =>
      if ((0 <=? localdomain)
          && (localdomain <? CInt.to_int (Z.of_nat (length (datasets mi)))))%Z
      then vector_at (datasets mi) localdomain
      else Some None
  | None => Some None
  end.

(** The pointer [GetDataSet(meshName, localdomain)] returns; [None] is
    [nullptr]. *)
Definition GetDataSet (pd : PrivateData) (meshName : string) (localdomain : Z)
    : option vtkDataSet :=
  mjoin (GetDataSet_run pd meshName localdomain).

(** The unpacking loop of [FetchMesh] over the nodes of a composite
    dataset: every node that is a [vtkDataSet] is stored at [localId++]. *)
Fixpoint unpack_nodes (mi : MeshInfo) (localId : Z) (nodes : list (option Leaf)) : MeshInfo :=
  match nodes with
  | [] => mi
  | Some (LeafDataSet ds) :: rest =>
      unpack_nodes (SetDataSet mi localId (Some ds)) (CInt.add localId 1) rest
  | _ :: rest => unpack_nodes mi localId rest
  end.

(** [FetchMesh(meshName)]. *)
Definition FetchMesh (pd : PrivateData) (meshName : string) : PrivateData :=
  match meshData pd !! meshName with
  | Some mi =>
      let '(status, obj) := GetMesh (da pd) meshName false in
      if (status =? 0)%Z
      then
        let mi1 := SetDataObject mi obj in
        let mi2 :=
          match obj with
          | Some o =>
              match composite_nodes o with
              | Some nodes => unpack_nodes mi1 0%Z nodes
              | None =>
                  match o with
                  | DataSetObject ds => SetDataSet mi1 0%Z (Some ds)
                  | _ => mi1
                  end
              end
          | None => mi1
          end in
        set_meshData pd (<[meshName := mi2]> (meshData pd))
      else pd
  | None => pd
  end.

(** [TopologicalDimension(dims)]. *)
Definition TopologicalDimension (d0 d1 d2 : Z) : Z :=
  ((if 1 <? d0 then 1 else 0) + (if 1 <? d1 then 1 else 0)
   + (if 1 <? d2 then 1 else 0))%Z.

(** ** Variable-name resolution *)

(** The three reference parameters of [GetArrayInfoFromVariableName]. *)
Record ArrayInfo := mkArrayInfo {
  ai_meshName : string;
  ai_var : string;
  ai_association : Z
}.

(** [s.substr(pos, std::string::npos)]. *)
Definition substr_from (pos : nat) (s : string) : string :=
  String.substring pos (String.length s - pos) s.

(** [GetArrayInfoFromVariableName(varName, meshName, var, association)]:
    [out] holds the values of the reference parameters at the call, the
    result their values at the return. [None]: [meshNames[0]] on an empty
    vector. *)
Definition GetArrayInfoFromVariableName (d : DataAdaptor) (varName : string)
    (out : ArrayInfo) : option ArrayInfo :=
  let meshNames := GetMeshNames d in
  r ← (if decide (1 < length meshNames)
       then
         match String.index 0 "/" varName with
         | Some pos =>
             let meshName := String.substring 0 pos varName in
             let tmpVar := substr_from (pos + 1) varName in
             if String.eqb (String.substring 0 5 tmpVar) "cell_"
             then Some (mkArrayInfo meshName (substr_from 5 tmpVar)
                          FIELD_ASSOCIATION_CELLS, false)
             else Some (mkArrayInfo meshName tmpVar (ai_association out), true)
         | None => Some (out, false)
         end
       else
         meshName ← meshNames !! 0;
         if String.eqb (String.substring 0 5 varName) "cell_"
         then Some (mkArrayInfo meshName (substr_from 5 varName)
                      FIELD_ASSOCIATION_CELLS, false)
         else Some (mkArrayInfo meshName varName (ai_association out), true));
  let '(info, findAssociation) := r in
  if findAssociation : bool
  then
    let pointvars := GetArrayNames d (ai_meshName info) FIELD_ASSOCIATION_POINTS in
    if decide (ai_var info ∈ pointvars)
    then Some (mkArrayInfo (ai_meshName info) (ai_var info) FIELD_ASSOCIATION_POINTS)
    else
      let cellvars := GetArrayNames d (ai_meshName info) FIELD_ASSOCIATION_CELLS in
      if decide (ai_var info ∈ cellvars)
      then Some (mkArrayInfo (ai_meshName info) (ai_var info) FIELD_ASSOCIATION_CELLS)
      else Some info
  else Some info.

Definition visit_handle := Z.
Definition VISIT_INVALID_HANDLE : visit_handle := (-1)%Z.

(** [GetVariable(dom, name, cbdata)]. The local [association] is declared
    without an initialiser: [indeterminate] is the value it happens to hold.
    [wrap] stands for the branch taken when the domain is local (the lookup
    of the array in the VTK dataset and its wrapping as variable data). *)
Definition GetVariable
    (wrap : PrivateData → ArrayInfo → Z → visit_handle)
    (pd : PrivateData) (dom : Z) (name : string) (indeterminate : Z)
    : option visit_handle :=
  info ← GetArrayInfoFromVariableName (da pd) name
            (mkArrayInfo "" "" indeterminate);
  let localdomain := GetLocalDomain pd (ai_meshName info) dom in
  if (0 <=? localdomain)%Z
  then Some (wrap pd info localdomain)
  else Some VISIT_INVALID_HANDLE.

(** ** Unstructured connectivity conversion *)

(** Cell-type codes of [vtkCellType.h] and [VisItInterfaceTypes_V2.h]
    (headers of VTK and VisIt, outside the repository). *)
Module CellType.
Definition VTK_EMPTY_CELL : nat := 0.
Definition VTK_VERTEX : nat := 1.
Definition VTK_LINE : nat := 3.
Definition VTK_TRIANGLE : nat := 5.
Definition VTK_POLYGON : nat := 7.
Definition VTK_QUAD : nat := 9.
Definition VTK_TETRA : nat := 10.
Definition VTK_HEXAHEDRON : nat := 12.
Definition VTK_WEDGE : nat := 13.
Definition VTK_PYRAMID : nat := 14.
Definition VTK_QUADRATIC_EDGE : nat := 21.
Definition VTK_QUADRATIC_TRIANGLE : nat := 22.
Definition VTK_QUADRATIC_QUAD : nat := 23.
Definition VTK_QUADRATIC_TETRA : nat := 24.
Definition VTK_QUADRATIC_HEXAHEDRON : nat := 25.
Definition VTK_QUADRATIC_WEDGE : nat := 26.
Definition VTK_QUADRATIC_PYRAMID : nat := 27.
Definition VTK_BIQUADRATIC_QUAD : nat := 28.
Definition VTK_TRIQUADRATIC_HEXAHEDRON : nat := 29.
Definition VTK_QUADRATIC_LINEAR_QUAD : nat := 30.
Definition VTK_QUADRATIC_LINEAR_WEDGE : nat := 31.
Definition VTK_BIQUADRATIC_QUADRATIC_WEDGE : nat := 32.
Definition VTK_BIQUADRATIC_QUADRATIC_HEXAHEDRON : nat := 33.
Definition VTK_BIQUADRATIC_TRIANGLE : nat := 34.

Definition VISIT_CELL_BEAM : Z := 0.
Definition VISIT_CELL_TRI : Z := 1.
Definition VISIT_CELL_QUAD : Z := 2.
Definition VISIT_CELL_TET : Z := 3.
Definition VISIT_CELL_PYR : Z := 4.
Definition VISIT_CELL_WEDGE : Z := 5.
Definition VISIT_CELL_HEX : Z := 6.
Definition VISIT_CELL_POINT : Z := 7.
Definition VISIT_CELL_QUADRATIC_EDGE : Z := 20.
Definition VISIT_CELL_QUADRATIC_TRI : Z := 21.
Definition VISIT_CELL_QUADRATIC_QUAD : Z := 22.
Definition VISIT_CELL_QUADRATIC_TET : Z := 23.
Definition VISIT_CELL_QUADRATIC_PYR : Z := 24.
Definition VISIT_CELL_QUADRATIC_WEDGE : Z := 25.
Definition VISIT_CELL_QUADRATIC_HEX : Z := 26.
Definition VISIT_CELL_BIQUADRATIC_TRI : Z := 27.
Definition VISIT_CELL_BIQUADRATIC_QUAD : Z := 28.
Definition VISIT_CELL_TRIQUADRATIC_HEX : Z := 29.
Definition VISIT_CELL_QUADRATIC_LINEAR_QUAD : Z := 30.
Definition VISIT_CELL_QUADRATIC_LINEAR_WEDGE : Z := 31.
Definition VISIT_CELL_BIQUADRATIC_QUADRATIC_WEDGE : Z := 32.
Definition VISIT_CELL_BIQUADRATIC_QUADRATIC_HEX : Z := 33.
End CellType.

(** The assignments [vtk_to_libsim[VTK_x] = VISIT_CELL_y], in source order. *)
Definition vtk_to_libsim_entries : list (nat * Z) :=
  [ (CellType.VTK_LINE, CellType.VISIT_CELL_BEAM);
    (CellType.VTK_TRIANGLE, CellType.VISIT_CELL_TRI);
    (CellType.VTK_QUAD, CellType.VISIT_CELL_QUAD);
    (CellType.VTK_TETRA, CellType.VISIT_CELL_TET);
    (CellType.VTK_PYRAMID, CellType.VISIT_CELL_PYR);
    (CellType.VTK_WEDGE, CellType.VISIT_CELL_WEDGE);
    (CellType.VTK_HEXAHEDRON, CellType.VISIT_CELL_HEX);
    (CellType.VTK_VERTEX, CellType.VISIT_CELL_POINT);
    (CellType.VTK_QUADRATIC_EDGE, CellType.VISIT_CELL_QUADRATIC_EDGE);
    (CellType.VTK_QUADRATIC_TRIANGLE, CellType.VISIT_CELL_QUADRATIC_TRI);
    (CellType.VTK_QUADRATIC_QUAD, CellType.VISIT_CELL_QUADRATIC_QUAD);
    (CellType.VTK_QUADRATIC_TETRA, CellType.VISIT_CELL_QUADRATIC_TET);
    (CellType.VTK_QUADRATIC_PYRAMID, CellType.VISIT_CELL_QUADRATIC_PYR);
    (CellType.VTK_QUADRATIC_WEDGE, CellType.VISIT_CELL_QUADRATIC_WEDGE);
    (CellType.VTK_QUADRATIC_HEXAHEDRON, CellType.VISIT_CELL_QUADRATIC_HEX);
    (CellType.VTK_BIQUADRATIC_TRIANGLE, CellType.VISIT_CELL_BIQUADRATIC_TRI);
    (CellType.VTK_BIQUADRATIC_QUAD, CellType.VISIT_CELL_BIQUADRATIC_QUAD);
    (CellType.VTK_TRIQUADRATIC_HEXAHEDRON, CellType.VISIT_CELL_TRIQUADRATIC_HEX);
    (CellType.VTK_QUADRATIC_LINEAR_QUAD, CellType.VISIT_CELL_QUADRATIC_LINEAR_QUAD);
    (CellType.VTK_QUADRATIC_LINEAR_WEDGE, CellType.VISIT_CELL_QUADRATIC_LINEAR_WEDGE);
    (CellType.VTK_BIQUADRATIC_QUADRATIC_WEDGE,
       CellType.VISIT_CELL_BIQUADRATIC_QUADRATIC_WEDGE);
    (CellType.VTK_BIQUADRATIC_QUADRATIC_HEXAHEDRON,
       CellType.VISIT_CELL_BIQUADRATIC_QUADRATIC_HEX) ].

(** The static table [vtk_to_libsim] after its one-time initialisation:
    [ncelltypes] entries (the constant [VTK_NUMBER_OF_CELL_TYPES], which
    depends on the VTK release), all [-1] except the assigned ones. *)
Definition vtk_to_libsim (ncelltypes : nat) : list Z :=
  fold_left (λ tbl e, <[e.1 := e.2]> tbl) vtk_to_libsim_entries
            (replicate ncelltypes (-1)%Z).

(** [celltype_vtk_to_libsim(vtkcelltype)]; [None] when the code indexes
    past the table. *)
Definition celltype_vtk_to_libsim (ncelltypes : nat) (vtkcelltype : nat) : option Z :=
  vtk_to_libsim ncelltypes !! vtkcelltype.

(** The arrays [vtkDataSet_to_VisIt_Mesh] reads from a
    [vtkUnstructuredGrid]: the cell types, the connectivity in VTK's layout
    (for each cell its point count followed by its point ids) and the
    position of each cell in the connectivity. *)
Record UnstructuredCells := mkCells {
  cellTypes : list nat;
  vtkconn : list Z;
  offsets : list Z
}.

Definition GetNumberOfCells (g : UnstructuredCells) : nat := length (cellTypes g).
Definition GetNumberOfConnectivityEntries (g : UnstructuredCells) : nat :=
  length (vtkconn g).

(** [p[i]] for a [vtkIdType] index. *)
Definition at_Z (l : list Z) (i : Z) : option Z :=
  if (0 <=? i)%Z then l !! Z.to_nat i else None.

(** The output cursor: the buffer [newconn] and the position of [lsconn]
    in it. [put] is [*lsconn++ = v]; [None] is a store past the buffer. *)
Definition put (st : list Z * nat) (v : Z) : option (list Z * nat) :=
  if decide (st.2 < length st.1) then Some (<[st.2 := v]> st.1, S st.2) else None.

(** [for(idx = 0; idx < npts; ++idx) *lsconn++ = static_cast<int>(cellConn[idx])]
    with [cellConn = vtkconn + base]. *)
Fixpoint copy_points (conn : list Z) (base : Z) (idx n : nat)
    (st : list Z * nat) : option (list Z * nat) :=
  match n with
  | O => Some st
  | S n' =>
      p ← at_Z conn (base + Z.of_nat idx);
      st' ← put st (CInt.to_int p);
      copy_points conn base (S idx) n' st'
  end.

(** The body of the loop over cells. *)
Definition convert_cell (ncelltypes : nat) (g : UnstructuredCells) (cellid : nat)
    (st : list Z * nat) : option (list Z * nat) :=
  ct ← cellTypes g !! cellid;
  lsct ← celltype_vtk_to_libsim ncelltypes ct;
  off ← offsets g !! cellid;
  if decide (lsct ≠ (-1)%Z)
  then
    st1 ← put st lsct;
    npts ← at_Z (vtkconn g) off;
    copy_points (vtkconn g) (off + 1) 0 (Z.to_nat npts) st1
  else
    st1 ← put st CellType.VISIT_CELL_POINT;
    p ← at_Z (vtkconn g) (off + 1);
    put st1 (CInt.to_int p).

Fixpoint convert_cells (ncelltypes : nat) (g : UnstructuredCells) (cellid n : nat)
    (st : list Z * nat) : option (list Z * nat) :=
  match n with
  | O => Some st
  | S n' =>
      st' ← convert_cell ncelltypes g cellid st;
      convert_cells ncelltypes g (S cellid) n' st'
  end.

(** The connectivity handed to VisIt by the unstructured branch of
    [vtkDataSet_to_VisIt_Mesh]: [newconn = new int[connlen]] (contents
    [indeterminate]) after the loop over the cells, together with the final
    position of [lsconn]. Nothing is allocated for a grid without cells
    ([ncells > 0] guards the block); that is the empty array here. *)
Definition convert_connectivity (ncelltypes : nat) (g : UnstructuredCells)
    (indeterminate : nat → Z) : option (list Z * nat) :=
  if decide (0 < GetNumberOfCells g)
  then
    let connlen := GetNumberOfConnectivityEntries g in
    let newconn := map indeterminate (seq 0 connlen) in
    convert_cells ncelltypes g 0 (GetNumberOfCells g) (newconn, 0)
  else Some ([], 0).

(** VTK's connectivity layout for a list of cells, each a type code and
    its point ids. *)
Definition cell_entries (c : nat * list Z) : list Z :=
  Z.of_nat (length c.2) :: c.2.

Fixpoint cell_offsets (cells : list (nat * list Z)) (pos : Z) : list Z :=
  match cells with
  | [] => []
  | c :: rest => pos :: cell_offsets rest (pos + Z.of_nat (length (cell_entries c)))
  end.

Definition cells_of (cells : list (nat * list Z)) : UnstructuredCells :=
  {| cellTypes := map fst cells;
     vtkconn := concat (map cell_entries cells);
     offsets := cell_offsets cells 0 |}.

(** ** AMR domain nesting *)

(** [in_range(value, v0, v1)]. *)
Definition in_range (value v0 v1 : Z) : bool :=
  ((v0 <=? value) && (value <=? v1))%Z.

(** An [int *] into a buffer: [ptr buf base i] is [(buf + base)[i]]. *)
Definition ptr (buf : list Z) (base i : nat) : option Z := buf !! (base + i).

(** [box_intersect(ext, extChild, ratio)]. The six entries of [ext] are
    read first; of [extChild], the z entries are read only when the scaled
    parent is not the flat box [0,0] in z. *)
Definition box_intersect (ext extChild : nat → option Z) (ratio : Z) : option bool :=
  e0 ← ext 0; e1 ← ext 1; e2 ← ext 2; e3 ← ext 3; e4 ← ext 4; e5 ← ext 5;
  let parent0 := CInt.mul e0 ratio in
  let parent1 := CInt.mul e1 ratio in
  let parent2 := CInt.mul e2 ratio in
  let parent3 := CInt.mul e3 ratio in
  let parent4 := CInt.mul e4 ratio in
  let parent5 := CInt.mul e5 ratio in
  c0 ← extChild 0; c1 ← extChild 1; c2 ← extChild 2; c3 ← extChild 3;
  let inX := in_range c0 parent0 parent1 || in_range c1 parent0 parent1 in
  let inY := in_range c2 parent2 parent3 || in_range c3 parent2 parent3 in
  inZ ← (if negb (parent4 =? parent5)%Z || negb (parent4 =? 0)%Z
         then c4 ← extChild 4; c5 ← extChild 5;
              Some (in_range c4 parent4 parent5 || in_range c5 parent4 parent5)
         else Some true);
  Some (inX && inY && inZ).

(** The extent table of one rank before the reduction: [6] entries per
    patch, all [-1], then the dimensions of every patch whose box is not
    empty on this rank. *)
Definition fill_extents (amr : vtkOverlappingAMR) : list Z :=
  let n := GetTotalNumberOfBlocks amr in
  fold_left
    (λ allext i,
       let '(mylevel, mypatch) := GetLevelAndIndex amr i in
       let box := GetAMRBox amr mylevel mypatch in
       if Empty box then allext else write_at allext (6 * i) (GetDimensions box))
    (seq 0 n) (replicate (6 * n) (-1)%Z).

(** [topdim = ((allext[5] - allext[4]) > 1) ? 3 : 2]. *)
Definition topdim (allext : list Z) : option Z :=
  a5 ← allext !! 5; a4 ← allext !! 4;
  Some (if (1 <? CInt.sub a5 a4)%Z then 3 else 2)%Z.

(** The list [work]: the composite indices of all patches of all levels
    but the last. *)
Definition work_list (amr : vtkOverlappingAMR) : list nat :=
  flat_map
    (λ level, map (GetCompositeIndex amr level)
                  (seq 0 (GetNumberOfDataSets amr level)))
    (seq 0 (GetNumberOfLevels amr - 1)).

(** [rankn]: [size] zeroed counters, then [rankn[i % size]++] for every
    position [i] of the work list. *)
Definition rankn (ws size : nat) : list nat :=
  fold_left (λ counts i, alter S (i mod size) counts) (seq 0 ws) (replicate size 0).

(** [offset]: the sum of [rankn[i]] over [i < rank]. *)
Definition work_offset (ws size rank : nat) : nat :=
  sum_list (take rank (rankn ws size)).

(** [mywork]: [work[offset + i]] for [i < rankn[rank]]. *)
Definition mywork (work : list nat) (size rank : nat) : option (list nat) :=
  let ws := length work in
  n ← rankn ws size !! rank;
  mapM (λ i, work !! (work_offset ws size rank + i)) (seq 0 n).

(** The block pushed onto [childData] for one patch [dom] of [mywork]:
    [dom], the number of children, and the children: the patches of the
    next level whose box intersects the box of [dom]. *)
Definition child_block (amr : vtkOverlappingAMR) (allext : list Z) (dom : nat)
    : option (list Z) :=
  let '(level, patch) := GetLevelAndIndex amr dom in
  let nextLevel := S level in
  ratio ← GetRefinementRatio amr level;
  let nDataSetsNextLevel := GetNumberOfDataSets amr nextLevel in
  hits ← mapM (λ j,
                 let childDom := GetCompositeIndex amr nextLevel j in
                 b ← box_intersect (ptr allext (6 * dom)) (ptr allext (6 * childDom)) ratio;
                 Some (childDom, b))
              (seq 0 nDataSetsNextLevel);
  let children := map (λ h, CInt.to_int (Z.of_nat h.1)) (filter (λ h, h.2 = true) hits) in
  Some (CInt.to_int (Z.of_nat dom) :: Z.of_nat (length children) :: children).

Definition childData (amr : vtkOverlappingAMR) (allext : list Z) (mine : list nat)
    : option (list Z) :=
  blocks ← mapM (child_block amr allext) mine; Some (concat blocks).

(** One call of [VisIt_DomainNesting_set_nestingForPatch]. *)
Record PatchNesting := mkPatchNesting {
  pn_patch : nat;
  pn_level : nat;
  pn_children : list Z;
  pn_nChildren : Z;
  pn_logicalExt : list Z
}.

(** The domain nesting object, as the calls made on it. *)
Record DomainNesting := mkDomainNesting {
  dn_numPatches : nat;
  dn_numLevels : nat;
  dn_topdim : Z;
  dn_levelRefinement : list (list Z);
  dn_nesting : list PatchNesting
}.

(** [logicalExt]: low i, low j, low k, high i, high j, high k. *)
Definition logical_extent (ext : nat → option Z) : option (list Z) :=
  e0 ← ext 0; e2 ← ext 2; e4 ← ext 4; e1 ← ext 1; e3 ← ext 3; e5 ← ext 5;
  Some [e0; e2; e4; e1; e3; e5].

(** The loop [while(w < end)] over the gathered results; [w] is what lies
    between the cursor and [end]. [None]: a read past [end], a cursor that
    does not advance, or no fuel left. *)
Fixpoint consume_results (fuel : nat) (amr : vtkOverlappingAMR) (allext : list Z)
    (w : list Z) : option (list PatchNesting) :=
  match fuel with
  | O => None
  | S fuel' =>
      match w with
      | [] => Some []
      | [_] => None
      | w0 :: nChildren :: rest =>
          let dom := Z.to_nat (CInt.to_uint w0) in
          children ← (if (0 <? nChildren)%Z
                      then if decide (Z.to_nat nChildren ≤ length rest)
                           then Some (take (Z.to_nat nChildren) rest) else None
                      else Some []);
          logicalExt ← logical_extent (ptr allext (6 * dom));
          let '(level, patch) := GetLevelAndIndex amr dom in
          let call := mkPatchNesting dom level children nChildren logicalExt in
          if (0 <? CInt.add nChildren 2)%Z
          then tail ← consume_results fuel' amr allext
                         (drop (Z.to_nat (CInt.add nChildren 2)) w);
               Some (call :: tail)
          else None
      end
  end.

(** The patches of the last level, each with an empty child list. *)
Definition leaf_patches (amr : vtkOverlappingAMR) (allext : list Z)
    : option (list PatchNesting) :=
  let level := GetNumberOfLevels amr - 1 in
  mapM (λ i,
          let dom := GetCompositeIndex amr level i in
          logicalExt ← logical_extent (ptr allext (6 * dom));
          Some (mkPatchNesting dom level [] 0 logicalExt))
       (seq 0 (GetNumberOfDataSets amr level)).

(** [VisIt_DomainNesting_set_levelRefinement] for every level. *)
Definition level_refinements (amr : vtkOverlappingAMR) (td : Z) : option (list (list Z)) :=
  mapM (λ i, r ← GetRefinementRatio amr i;
             Some [r; r; if (2 <? td)%Z then r else 1%Z])
       (seq 0 (GetNumberOfLevels amr)).

(** [displs[0] = 0; displs[i] = displs[i-1] + worksize[i-1]]. *)
Fixpoint displacements (worksize : list Z) (acc : Z) : list Z :=
  match worksize with
  | [] => []
  | w :: rest => acc :: displacements rest (CInt.add acc w)
  end.

Inductive NestingResult :=
  | InvalidHandle
  | Nesting (dn : DomainNesting).

(** The part of [GetDomainNesting] before the first MPI call: the cache
    lookup, the ghost-cell flag, the fetch of a mesh that is not cached yet,
    the down-cast and the allocation of the nesting object ([alloc_ok]).
    [None]: the function returns [VISIT_INVALID_HANDLE] here. *)
Definition GetDomainNesting_checks (alloc_ok : bool) (pd : PrivateData) (name : string)
    : PrivateData * option vtkOverlappingAMR :=
  match meshData pd !! name with
  | None => (pd, None)
  | Some mi =>
      if datasetsHaveGhostCells mi then (pd, None)
      else
        let pd1 := match dataObj mi with
                   | None => FetchMesh pd name
                   | Some _ => pd
                   end in
        match meshData pd1 !! name with
        | None => (pd1, None)
        | Some mi1 =>
            match as_overlappingAMR (dataObj mi1) with
            | None => (pd1, None)
            | Some amr => if alloc_ok then (pd1, Some amr) else (pd1, None)
            end
        end
  end.

(** What is done with the gathered [workresults]. *)
Definition nesting_finish (amr : vtkOverlappingAMR) (allext : list Z) (td : Z)
    (workresults : list Z) : option NestingResult :=
  refinements ← level_refinements amr td;
  inner ← consume_results (S (length workresults)) amr allext workresults;
  leaves ← leaf_patches amr allext;
  Some (Nesting
          {| dn_numPatches := GetTotalNumberOfBlocks amr;
             dn_numLevels := GetNumberOfLevels amr;
             dn_topdim := td;
             dn_levelRefinement := refinements;
             dn_nesting := inner ++ leaves |}).

(** [GetDomainNesting(name, cbdata)]: the cache after the call and the
    handle returned; [None] for the handle is an access outside a buffer. *)
Definition GetDomainNesting (alloc_ok : bool) (pd : PrivateData) (name : string)
    : Proc (PrivateData * option NestingResult) :=
  match GetDomainNesting_checks alloc_ok pd name with
  | (pd1, None) => Ret (pd1, Some InvalidHandle)
  | (pd1, Some amr) =>
      let rank := comm_rank pd1 in
      let size := comm_size pd1 in
      Coll (MPI_Allreduce_MAX (fill_extents amr)) (λ allext,
        match
          td ← topdim allext;
          mine ← mywork (work_list amr) size rank;
          cd ← childData amr allext mine;
          Some (td, cd)
        with
        | None => Ret (pd1, None)
        | Some (td, cd) =>
            let worksize0 :=
              <[rank := CInt.to_int (Z.of_nat (length cd))]> (replicate size 0%Z) in
            Coll (MPI_Allreduce_MAX worksize0) (λ worksize,
              let n := fold_left CInt.add worksize 0%Z in
              let displs := displacements worksize 0%Z in
              match worksize !! rank with
              | None => Ret (pd1, None)
              | Some mycount =>
                  (* [workresults = new int[n]]: every entry is overwritten
                     by the gather; the initial contents are taken as 0 *)
                  Coll (MPI_Allgatherv (cd ++ [0%Z]) mycount
                          (replicate (Z.to_nat n) 0%Z) worksize displs)
                       (λ workresults,
                          Ret (pd1, nesting_finish amr allext td workresults))
              end)
        end)
  end.


(** ** States of the cache

    The cache operations of one rank: the cache is empty when the adaptor
    is created, and is changed by [ClearMeshDataCache],
    [AddMeshDataCacheEntry] (whose ids are [unsigned int]), [FetchMesh] and
    the assignment [mInfo->datasetsHaveGhostCells = ...] of [GetMetaData]. *)
Inductive cache_reachable : PrivateData → Prop :=
  | reach_init d rank size :
      cache_reachable (mkPrivateData d ∅ rank size)
  | reach_clear pd :
      cache_reachable pd → cache_reachable (ClearMeshDataCache pd)
  | reach_add pd meshName datasetIds recv :
      cache_reachable pd →
      Forall CInt.is_uint datasetIds →
      cache_reachable (AddMeshDataCacheEntry_store pd meshName datasetIds recv)
  | reach_fetch pd meshName :
      cache_reachable pd → cache_reachable (FetchMesh pd meshName)
  | reach_ghost pd meshName mi b :
      cache_reachable pd →
      meshData pd !! meshName = Some mi →
      cache_reachable
        (set_meshData pd (<[meshName := set_datasetsHaveGhostCells mi b]> (meshData pd))).

(** The ranks of a communicator, in rank order. *)
Definition world_ok (world : list PrivateData) : Prop :=
  ∀ r pd, world !! r = Some pd → comm_rank pd = r ∧ comm_size pd = length world.

Definition sum_Z (l : list Z) : Z := foldr Z.add 0%Z l.

(** [datasets] and [doms_this_rank] are index-aligned, and the ids are
    values of [unsigned int]. *)
Definition MeshInfo_ok (mi : MeshInfo) : Prop :=
  length (datasets mi) = length (doms_this_rank mi)
  ∧ Forall CInt.is_uint (doms_this_rank mi).

Definition cache_ok (pd : PrivateData) : Prop :=
  ∀ meshName mi, meshData pd !! meshName = Some mi → MeshInfo_ok mi.

(** Every rank of the communicator calls [AddMeshDataCacheEntry] for the
    same mesh, rank [r] with the ids [ids !! r] of its local domains. *)
Definition populate (world : list PrivateData) (meshName : string)
    (ids : list (list Z)) : option (list PrivateData) :=
  run_spmd 1 (map (λ x, AddMeshDataCacheEntry x.1 meshName x.2) (zip world ids)).

(** The number of domains of every rank. *)
Definition domain_counts (ids : list (list Z)) : list Z :=
  map (λ d, Z.of_nat (length d)) ids.

(** ** A two-rank AMR scenario

    Rank 0 owns patch 0 (level 0, extent [0,3,0,3,0,0]); rank 1 owns
    patches 1 (level 1, extent [0,1,0,1,0,0]) and 2 (level 1, extent
    [2,3,2,3,0,0]); the refinement ratio is 2. On a rank that does not own
    a patch, the box of the patch is a default-constructed (empty) one. *)
Module Scenario.

Definition empty_box : vtkAMRBox := mkAMRBox true (0, 0, 0)%Z (-2, -2, -2)%Z.

Definition box (lo0 hi0 lo1 hi1 lo2 hi2 : Z) : vtkAMRBox :=
  mkAMRBox false (lo0, lo1, lo2) (hi0, hi1, hi2).

Definition grid (addr : N) : option Leaf := Some (LeafDataSet (mkDataSet ImageData addr)).

Definition amr_rank0 : vtkOverlappingAMR :=
  {| amr_blocksPerLevel := [1; 2];
     amr_refinementRatio := [2; 2]%Z;
     GetAMRBox := λ level idx,
       match level, idx with
       | 0, 0 => box 0 3 0 3 0 0
       | _, _ => empty_box
       end;
     amr_leaves := [grid 1; None; None] |}.

Definition amr_rank1 : vtkOverlappingAMR :=
  {| amr_blocksPerLevel := [1; 2];
     amr_refinementRatio := [2; 2]%Z;
     GetAMRBox := λ level idx,
       match level, idx with
       | 1, 0 => box 0 1 0 1 0 0
       | 1, 1 => box 2 3 2 3 0 0
       | _, _ => empty_box
       end;
     amr_leaves := [None; grid 2; grid 3] |}.

Definition adaptor (amr : vtkOverlappingAMR) : DataAdaptor :=
  {| GetMeshNames := ["mesh"];
     GetMesh := λ _ _, (0%Z, Some (OverlappingAMR amr));
     GetArrayNames := λ _ _, [] |}.

Definition world : list PrivateData :=
  [ mkPrivateData (adaptor amr_rank0) ∅ 0 2;
    mkPrivateData (adaptor amr_rank1) ∅ 1 2 ].

(** The composite indices of the local patches of each rank. *)
Definition ids : list (list Z) := [[0]; [1; 2]]%Z.

(** Rank 1 once the cache is populated and the mesh fetched. *)
Definition rank1_fetched : PrivateData :=
  FetchMesh
    (AddMeshDataCacheEntry_store (mkPrivateData (adaptor amr_rank1) ∅ 1 2)
       "mesh" [1; 2]%Z [1; 2]%Z)
    "mesh".

End Scenario.

(** ** Example states for the early returns and the resolver *)
Module Examples.

(** An adaptor serving a single image-data mesh. *)
Definition image_adaptor : DataAdaptor :=
  {| GetMeshNames := ["mesh"];
     GetMesh := λ _ _, (0%Z, Some (DataSetObject (mkDataSet ImageData 7)));
     GetArrayNames := λ _ _, [] |}.

(** The cache entry right after the metadata pass: one local domain, no
    data object stored yet. *)
Definition unfetched : PrivateData :=
  AddMeshDataCacheEntry_store (mkPrivateData image_adaptor ∅ 0 1) "mesh" [0%Z] [1%Z].

(** The same entry once the mesh has been fetched. *)
Definition fetched : PrivateData := FetchMesh unfetched "mesh".

(** An adaptor with two meshes, each with a point array "temperature". *)
Definition two_meshes : DataAdaptor :=
  {| GetMeshNames := ["a"; "b"];
     GetMesh := λ _ _, (1%Z, None);
     GetArrayNames := λ _ assoc,
       if (assoc =? FIELD_ASSOCIATION_POINTS)%Z then ["temperature"] else [] |}.

Definition two_meshes_state : PrivateData :=
  AddMeshDataCacheEntry_store
    (AddMeshDataCacheEntry_store (mkPrivateData two_meshes ∅ 0 1) "a" [0%Z] [1%Z])
    "b" [0%Z] [1%Z].

End Examples.

(** The number of positions of a work list of length [ws] that a
    round-robin deal over [size] ranks gives to [rank]. *)
Definition round_robin_count (ws size rank : nat) : nat :=
  length (filter (λ i, i mod size = rank) (seq 0 ws)).

(** ** Notions used to state the properties of the nesting callback *)

(** The box of the patch with composite index [i], as the extent loop of
    [GetDomainNesting] obtains it. *)
Definition patch_box (amr : vtkOverlappingAMR) (i : nat) : vtkAMRBox :=
  GetAMRBox amr (GetLevelAndIndex amr i).1 (GetLevelAndIndex amr i).2.

(** The six table entries of patch [i] on one rank before the reduction. *)
Definition extent_row (amr : vtkOverlappingAMR) (i : nat) : list Z :=
  if Empty (patch_box amr i) then replicate 6 (-1)%Z else GetDimensions (patch_box amr i).

(** The six table entries of patch [i]. *)
Definition patch_extent (allext : list Z) (i : nat) : list Z :=
  take 6 (drop (6 * i) allext).

(** The topological dimension in the words of the design document: 3 if
    the z-extent of any patch spans more than one cell, 2 otherwise. A
    z-extent from [lo] to [hi] spans [hi - lo + 1] cells. *)
Definition z_cells (allext : list Z) (patch : nat) : Z :=
  (default 0%Z (allext !! (6 * patch + 5)%nat)
   - default 0%Z (allext !! (6 * patch + 4)%nat) + 1)%Z.

Definition topdim_any_patch (allext : list Z) : Z :=
  if decide (Exists (λ patch, (1 < z_cells allext patch)%Z) (seq 0 (length allext / 6)))
  then 3%Z else 2%Z.

(** The children recorded for [patch] in a nesting object. *)
Definition children_of (dn : DomainNesting) (patch : nat) : option (list Z) :=
  pn_children <$> list_find (λ pn, pn_patch pn = patch) (dn_nesting dn) ≫= (λ r, Some r.2).

(** The handles all ranks return from [GetDomainNesting] for [name]. *)
Definition GetDomainNesting_all (world : list PrivateData) (name : string)
    : option (list (option NestingResult)) :=
  map snd <$> run_spmd 3 (map (λ pd, GetDomainNesting true pd name) world).

(** ** Notions used to state the properties of the connectivity conversion *)

(** The value the table holds for [vtkcelltype] after the assignments
    [entries] have been applied to an entry that held [d]. *)
Definition lookup_entries (entries : list (nat * Z)) (vtkcelltype : nat) (d : Z) : Z :=
  fold_left (λ acc e, if decide (e.1 = vtkcelltype) then e.2 else acc) entries d.

(** The Libsim code of a VTK cell type, [-1] when the table has none. *)
Definition libsim_code (vtkcelltype : nat) : Z :=
  lookup_entries vtk_to_libsim_entries vtkcelltype (-1)%Z.

(** A sequence of stores through [lsconn]. *)
Fixpoint puts (st : list Z * nat) (vs : list Z) : option (list Z * nat) :=
  match vs with
  | [] => Some st
  | v :: vs' => st' ← put st v; puts st' vs'
  end.

(** What the conversion writes for one cell: the Libsim code and the point
    ids for a cell type of the table, a vertex cell on the first point
    otherwise. *)
Definition converted_cell (c : nat * list Z) : list Z :=
  if decide (libsim_code c.1 ≠ (-1)%Z)
  then libsim_code c.1 :: map CInt.to_int c.2
  else [CellType.VISIT_CELL_POINT; CInt.to_int (default 0%Z (head c.2))].

(** The cells the conversion handles: the type code lies inside the table
    and a cell whose type is not in the table has a first point. *)
Definition convertible (ncelltypes : nat) (c : nat * list Z) : Prop :=
  c.1 < ncelltypes ∧ (libsim_code c.1 = (-1)%Z → c.2 ≠ []).

(** ** Plot records and file names *)

(** The stream [ss] of [SplitAtCommas] is the text not yet read;
    [getline(ss, substr, ',')] yields the field read, what is left of the
    stream, and whether the stream is still [good()]: the delimiter was
    found (and dropped). Reaching the end of the text sets [eofbit]. *)
Fixpoint getline (ss : string) : string * string * bool :=
  match ss with
  | EmptyString => (EmptyString, EmptyString, false)
  | String c rest =>
      if Ascii.eqb c ","%char then (EmptyString, rest, true)
      else let '(substr, remaining, good) := getline rest in
           (String c substr, remaining, good)
  end.

(** The loop [while(ss.good()) { getline(ss, substr, ','); result.push_back(substr); }]. *)
Fixpoint SplitAtCommas_loop (fuel : nat) (ss : string) (good : bool)
    (result : list string) {struct fuel} : option (list string) :=
  if good then
    match fuel with
    | O => None
    | S fuel' =>
        let '(substr, remaining, good') := getline ss in
        SplitAtCommas_loop fuel' remaining good' (result ++ [substr])
    end
  else Some result.

(** [PlotRecord::SplitAtCommas(s)]; a stream that has just been opened is
    good. [None] only if the fuel, one round per character and one more,
    did not suffice. *)
Definition SplitAtCommas (s : string) : option (list string) :=
  SplitAtCommas_loop (S (String.length s)) s true [].

(** [EndsWith(s, ext)]. *)
Definition EndsWith (s ext : string) : bool :=
  if (String.length ext <=? String.length s) && negb (String.eqb ext "")
  then String.eqb (String.substring (String.length s - String.length ext)
                     (String.length ext) s) ext
  else false.

(** [DetermineExportFilename(f, fnoext, fmt)]: the values stored in
    [fnoext] and [fmt]. *)
Definition DetermineExportFilename (f : string) : string * string :=
  if EndsWith f ".silo"
  then (String.substring 0 (String.length f - 5) f, "Silo_1.0")
  else if EndsWith f ".xdb"
  then (f, "FieldViewXDB_1.0")
  else if EndsWith f ".raw"
  then (String.substring 0 (String.length f - 4) f, "RAW_1.0")
  else if EndsWith f ".tec" || EndsWith f ".plt"
  then (String.substring 0 (String.length f - 4) f, "Tecplot_1.0")
  else if EndsWith f ".ply"
  then (String.substring 0 (String.length f - 4) f, "PLY_1.0")
  else if EndsWith f ".stl"
  then (String.substring 0 (String.length f - 4) f, "STL_1.0")
  else if EndsWith f ".obj"
  then (String.substring 0 (String.length f - 4) f, "WavefrontOBJ_1.0")
  else if EndsWith f ".bov"
  then (String.substring 0 (String.length f - 4) f, "BOV_1.0")
  else (f, "VTK_1.0").

(** The extensions that [DetermineExportFilename] strips, with the format
    each selects. *)
Definition stripped_extensions : list (string * string) :=
  [ (".silo", "Silo_1.0"); (".raw", "RAW_1.0"); (".tec", "Tecplot_1.0");
    (".plt", "Tecplot_1.0"); (".ply", "PLY_1.0"); (".stl", "STL_1.0");
    (".obj", "WavefrontOBJ_1.0"); (".bov", "BOV_1.0") ].

(** The number of commas of a text. *)
Fixpoint count_commas (s : string) : nat :=
  match s with
  | EmptyString => 0
  | String c rest => (if Ascii.eqb c ","%char then 1 else 0) + count_commas rest
  end.

(** The fields of a text between its commas. *)
Fixpoint comma_fields (s : string) : list string :=
  match s with
  | EmptyString => [EmptyString]
  | String c rest =>
      if Ascii.eqb c ","%char then EmptyString :: comma_fields rest
      else match comma_fields rest with
           | f :: fs => String c f :: fs
           | [] => [String c EmptyString]
           end
  end.

Section PlotRecords.

(** [double] values are only stored and copied; [LibsimImageProperties] is
    declared in a header outside the sources at hand and is only stored,
    default-constructed and given a file name. *)
Variable double : Type.
Variables zero one : double.
Variable LibsimImageProperties : Type.
Variable default_imageProps : LibsimImageProperties.
Variable SetFilename : LibsimImageProperties → string → LibsimImageProperties.

Record PlotRecord := mkPlotRecord {
  frequency : Z;
  imageProps : LibsimImageProperties;
  session : string;
  pr_plots : list string;
  plotVars : list string;
  doExport : bool;
  slice : bool;
  project2d : bool;
  origin : double * double * double;
  normal : double * double * double
}.

(** [PlotRecord::PlotRecord()]. *)
Definition PlotRecord_new : PlotRecord :=
  {| frequency := 5; imageProps := default_imageProps; session := "";
     pr_plots := []; plotVars := []; doExport := false; slice := false;
     project2d := false; origin := (zero, zero, zero); normal := (one, zero, zero) |}.

(** [AddRender]: the value returned and the member [plots] afterwards. *)
Definition AddRender (plots : list PlotRecord) (freq : Z) (session_ plts plotVars_ : string)
    (slice_ project2d_ : bool) (origin_ normal_ : double * double * double)
    (imgProps : LibsimImageProperties) : option (bool * list PlotRecord) :=
  p_plots ← SplitAtCommas plts;
  p_plotVars ← SplitAtCommas plotVars_;
  let p :=
    {| frequency := freq; imageProps := imgProps; session := session_;
       pr_plots := p_plots; plotVars := p_plotVars;
       doExport := doExport PlotRecord_new;
       slice := slice_; project2d := project2d_;
       origin := origin_; normal := normal_ |} in
  let '(retval, plots') :=
    if negb (bool_decide (p_plots = []))
       && bool_decide (length p_plots = length p_plotVars)
    then (true, plots ++ [p]) else (false, plots) in
  Some (if negb (String.eqb session_ "") then true else retval, plots').

(** [AddExport]; [None] also stands for [plotTypes[0]] on an empty vector. *)
Definition AddExport (plots : list PlotRecord) (freq : Z) (session_ plts plotVars_ : string)
    (slice_ project2d_ : bool) (origin_ normal_ : double * double * double)
    (filename : string) : option (bool * list PlotRecord) :=
  plotTypes ← SplitAtCommas plts;
  first ← plotTypes !! 0;
  p_plotVars ← SplitAtCommas plotVars_;
  let p :=
    {| frequency := freq;
       imageProps := SetFilename (imageProps PlotRecord_new) filename;
       session := session_;
       pr_plots := [first]; plotVars := p_plotVars;
       doExport := true;
       slice := slice_; project2d := project2d_;
       origin := origin_; normal := normal_ |} in
  let '(retval, plots') :=
    if negb (bool_decide ([first] = [])) && negb (bool_decide (p_plotVars = []))
    then (true, plots ++ [p]) else (false, plots) in
  Some (if negb (String.eqb session_ "") then true else retval, plots').

End PlotRecords.

(** ** The metadata pass and the mesh callbacks *)

(** The unpacking loop of [GetMetaData] over the nodes of a composite
    dataset: the data sets found and, for each, the flat index of its node.
    [flat pos] is what [it->GetCurrentFlatIndex()] answers at the node in
    position [pos] of the traversal. *)
Fixpoint metadata_nodes (flat : nat → Z) (pos : nat) (nodes : list (option Leaf))
    : list vtkDataSet * list Z :=
  match nodes with
  | [] => ([], [])
  | Some (LeafDataSet ds) :: rest =>
      let '(dss, ids) := metadata_nodes flat (S pos) rest in
      (ds :: dss, flat pos :: ids)
  | _ :: rest => metadata_nodes flat (S pos) rest
  end.

(** The vectors [datasets] and [datasetIds] that [GetMetaData] builds from
    the data object; [None] is the branch "not supported data type". A
    plain data set is pushed onto [datasets] only. *)
Definition GetMetaData_unpack (flat : nat → Z) (obj : option vtkDataObject)
    : option (list vtkDataSet * list Z) :=
  match obj with
  | Some o =>
      match composite_nodes o with
      | Some nodes => Some (metadata_nodes flat 0 nodes)
      | None =>
          match o with
          | DataSetObject ds => Some ([ds], [])
          | _ => None
          end
      end
  | None => None
  end.

(** The election loop of [GetMetaData]: the first rank whose entry of
    [ndoms_per_rank] is positive, [-1] when there is none. *)
Fixpoint find_bcast_rank (ndoms : list Z) (i n : nat) : option Z :=
  match n with
  | O => Some (-1)%Z
  | S n' =>
      x ← ndoms !! i;
      if (0 <? x)%Z then Some (Z.of_nat i) else find_bcast_rank ndoms (S i) n'
  end.

Definition bcast_rank (pd : PrivateData) (mInfo : MeshInfo) : option Z :=
  find_bcast_rank (ndoms_per_rank mInfo) 0 (comm_size pd).

(** The name [GetMetaData] gives a point array: qualified by the mesh name
    when there are several meshes. *)
Definition point_var_name (nMeshes : nat) (meshName arrayName : string) : string :=
  if decide (1 < nMeshes) then (meshName +:+ "/") +:+ arrayName else arrayName.

(** The name [GetMetaData] gives a cell array; [node_vars] are the point
    arrays of the mesh. *)
Definition cell_var_name (nMeshes : nat) (meshName : string) (node_vars : list string)
    (arrayName : string) : string :=
  if decide (arrayName ∈ node_vars)
  then
    if decide (1 < nMeshes) then (meshName +:+ "/cell_") +:+ arrayName
    else "cell_" +:+ arrayName
  else if decide (1 < nMeshes) then (meshName +:+ "/") +:+ arrayName
  else arrayName.

Definition VISIT_VARCENTERING_NODE : Z := 0.
Definition VISIT_VARCENTERING_ZONE : Z := 1.

(** A variable added to the metadata: name, mesh name, centering. *)
Record VariableMetaData := mkVariableMetaData {
  vmd_name : string;
  vmd_meshName : string;
  vmd_centering : Z
}.

(** The variables [GetMetaData] adds for one mesh: the point arrays, then
    the cell arrays. *)
Definition GetMetaData_variables (d : DataAdaptor) (meshName : string)
    : list VariableMetaData :=
  let nMeshes := length (GetMeshNames d) in
  let node_vars := GetArrayNames d meshName FIELD_ASSOCIATION_POINTS in
  let cell_vars := GetArrayNames d meshName FIELD_ASSOCIATION_CELLS in
  map (λ a, mkVariableMetaData (point_var_name nMeshes meshName a) meshName
              VISIT_VARCENTERING_NODE) node_vars
  ++ map (λ a, mkVariableMetaData (cell_var_name nMeshes meshName node_vars a) meshName
                 VISIT_VARCENTERING_ZONE) cell_vars.

(** The association a centering stands for. *)
Definition centering_association (centering : Z) : Z :=
  if (centering =? VISIT_VARCENTERING_NODE)%Z then FIELD_ASSOCIATION_POINTS
  else FIELD_ASSOCIATION_CELLS.

(** The number of occurrences of a character. *)
Fixpoint count_char (ch : ascii) (s : string) : nat :=
  match s with
  | EmptyString => 0
  | String c rest => (if Ascii.eqb c ch then 1 else 0) + count_char ch rest
  end.

(** The callback [GetMesh(dom, name, cbdata)]: the cache afterwards and the
    handle returned. [to_mesh] is [vtkDataSet_to_VisIt_Mesh], which
    dereferences its argument: the result is [None] when it is called with
    [nullptr]. *)
Definition Libsim_GetMesh (to_mesh : vtkDataSet → visit_handle)
    (pd : PrivateData) (dom : Z) (name : string) : PrivateData * option visit_handle :=
  let localdomain := GetLocalDomain pd name dom in
  if (0 <=? localdomain)%Z
  then
    let '(pd', ds) :=
      match GetDataSet pd name localdomain with
      | None => (FetchMesh pd name, GetDataSet (FetchMesh pd name) name localdomain)
      | Some ds => (pd, Some ds)
      end in
    (pd', to_mesh <$> ds)
  else (pd, Some VISIT_INVALID_HANDLE).

(** The callback [GetDomainList(name, cbdata)]: the total number of
    domains and the list of local domains handed to
    [VisIt_DomainList_setDomains] (the array and its size). *)
Definition GetDomainList (pd : PrivateData) (name : string)
    : option Z * (option (list Z) * Z) :=
  (GetTotalDomains pd name, GetDomains pd name).

(** The data sets among the nodes of a composite, in traversal order. *)
Definition dataset_leaves (nodes : list (option Leaf)) : list vtkDataSet :=
  omap (λ node, match node with Some (LeafDataSet ds) => Some ds | _ => None end) nodes.

(** ** Initialisation and dispatch on the mode *)

(** The test [i0 || i1] of [Initialize] for the interactive set-up, and the
    value [i1] it gives to [paused]. *)
Definition Initialize_interactive (mode : string) : bool :=
  String.eqb mode "interactive" || String.eqb mode "interactive,paused".

Definition Initialize_paused (mode : string) : bool :=
  String.eqb mode "interactive,paused".

(** The test [mode.substr(0, 11) == "interactive"] of [Execute]. *)
Definition Execute_interactive (mode : string) : bool :=
  String.eqb (String.substring 0 11 mode) "interactive".

(** ** The batch loop *)

Section ExecuteBatch.

Variable double : Type.
Variables zero one : double.
Variable LibsimImageProperties : Type.
Variable default_imageProps : LibsimImageProperties.
Variable SetFilename : LibsimImageProperties → string → LibsimImageProperties.

(** The least value of the (signed) type of [GetDataTimeStep()], which is
    declared in a header outside the sources at hand. *)
Variable TIMESTEP_MIN : Z.

(** The test [da->GetDataTimeStep() % plots[i].frequency != 0]; [None] is a
    division by zero or the remainder that overflows. *)
Definition batch_skips (timestep : Z) (p : PlotRecord double LibsimImageProperties)
    : option bool :=
  let f := frequency _ _ p in
  if (f =? 0)%Z || ((f =? -1)%Z && (timestep =? TIMESTEP_MIN)%Z) then None
  else Some (negb (Z.rem timestep f =? 0)%Z).

(** What the batch loop does to set a record up before drawing. *)
Inductive PlotSetup :=
  | RestoreSession (file : string)
  | AddPlots (calls : list (string * string)) (with_slice : bool)
  | NoSetup.

(** The calls [VisItAddPlot(plots[i].plots[j], plots[i].plotVars[j])] for
    [j] below [plots[i].plots.size()]. *)
Definition AddPlot_calls (p : PlotRecord double LibsimImageProperties)
    : option (list (string * string)) :=
  mapM (λ j, plot ← pr_plots _ _ p !! j; var ← plotVars _ _ p !! j; Some (plot, var))
       (seq 0 (length (pr_plots _ _ p))).

Definition batch_setup (p : PlotRecord double LibsimImageProperties) : option PlotSetup :=
  if negb (String.eqb (session _ _ p) "") then Some (RestoreSession (session _ _ p))
  else if negb (bool_decide (pr_plots _ _ p = []))
       then calls ← AddPlot_calls p; Some (AddPlots calls (slice _ _ p))
       else Some NoSetup.

(** The set-ups of one pass of [Execute_Batch] over [plots], in order. *)
Fixpoint Execute_Batch_setups (timestep : Z)
    (plots : list (PlotRecord double LibsimImageProperties)) : option (list PlotSetup) :=
  match plots with
  | [] => Some []
  | p :: rest =>
      skip ← batch_skips timestep p;
      if skip : bool then Execute_Batch_setups timestep rest
      else s ← batch_setup p;
           tail ← Execute_Batch_setups timestep rest;
           Some (s :: tail)
  end.

(** The values of the member [plots] that calls of [AddRender] and
    [AddExport] lead to. *)
Inductive configured : list (PlotRecord double LibsimImageProperties) → Prop :=
  | configured_nil : configured []
  | configured_render plots freq session_ plts plotVars_ slice_ project2d_ origin_ normal_
      imgProps retval plots' :
      configured plots →
      AddRender double zero one LibsimImageProperties default_imageProps
        plots freq session_ plts plotVars_ slice_ project2d_ origin_ normal_ imgProps
      = Some (retval, plots') →
      configured plots'
  | configured_export plots freq session_ plts plotVars_ slice_ project2d_ origin_ normal_
      filename retval plots' :
      configured plots →
      AddExport double zero one LibsimImageProperties default_imageProps SetFilename
        plots freq session_ plts plotVars_ slice_ project2d_ origin_ normal_ filename
      = Some (retval, plots') →
      configured plots'.

End ExecuteBatch.

(** ** File names with time step and time *)

(** [filename.replace(pos, n, text)]. *)
Definition string_replace (filename : string) (pos n : nat) (text : string) : string :=
  (String.substring 0 pos filename +:+ text) +:+ substr_from (pos + n) filename.

(** The loop [pos = filename.find(pat); while(pos != npos)
    { filename.replace(pos, pat.size(), text); pos = filename.find(pat); }];
    [None] when [fuel] rounds do not end it. *)
Fixpoint replace_loop (fuel : nat) (pat text filename : string) : option string :=
  match fuel with
  | O => None
  | S fuel' =>
      match String.index 0 pat filename with
      | None => Some filename
      | Some pos =>
          replace_loop fuel' pat text (string_replace filename pos (String.length pat) text)
      end
  end.

(** [MakeFileName(f, timestep, time)]; [ts5] is the text [sprintf] makes of
    the time step with the format of the source and [t_text] the text the
    stream makes of the time. *)
Definition MakeFileName (fuel : nat) (ts5 t_text : string) (f : string) : option string :=
  filename ← replace_loop fuel "%ts" ts5 f;
  replace_loop fuel "%t" t_text filename.

(** ** Notions used to state the properties of the batch loop *)

(** The set-up of a record that has a variable for each of its plot types:
    its session file when it names one, else one call of [VisItAddPlot] for
    each plot type with the variable at the same position. *)
Definition setup_of {double LibsimImageProperties : Type}
    (p : PlotRecord double LibsimImageProperties) : PlotSetup :=
  if negb (String.eqb (session _ _ p) "") then RestoreSession (session _ _ p)
  else AddPlots (zip (pr_plots _ _ p) (plotVars _ _ p)) (slice _ _ p).

(** ** Where [GetVariable] looks the array up *)

(** What [GetVariable] has in hand when it looks for the array: nothing
    when the domain is not local (the lookup is not reached), the data set
    [GetDataSet] handed out and the resolved names otherwise. The data set
    is dereferenced as it is: [NullDataSet] is the lookup through
    [nullptr]. *)
Inductive VariableLookup :=
  | NotLocal
  | NullDataSet
  | InDataSet (ds : vtkDataSet) (info : ArrayInfo).

Definition GetVariable_lookup (pd : PrivateData) (dom : Z) (name : string)
    (indeterminate : Z) : option VariableLookup :=
  info ← GetArrayInfoFromVariableName (da pd) name (mkArrayInfo "" "" indeterminate);
  let localdomain := GetLocalDomain pd (ai_meshName info) dom in
  if (0 <=? localdomain)%Z
  then Some (match GetDataSet pd (ai_meshName info) localdomain with
             | None => NullDataSet
             | Some ds => InDataSet ds info
             end)
  else Some NotLocal.

(** * Properties *)

(** ** Facts about the integer conversions *)

Module CIntFacts.
Import CInt.

Lemma to_int_id z : is_int z → to_int z = z.
Proof.
  unfold is_int, to_int, INT_MIN, INT_MAX. intros H.
  rewrite Z.mod_small; lia.
Qed.

Lemma to_int_range z : is_int (to_int z).
Proof.
  unfold is_int, to_int, INT_MIN, INT_MAX.
  pose proof (Z.mod_pos_bound (z + 2147483648) 4294967296 ltac:(lia)). lia.
Qed.

Lemma to_int_le_nonneg z : (0 ≤ z)%Z → (to_int z ≤ z)%Z.
Proof.
  intros Hz. destruct (Z_le_gt_dec z INT_MAX) as [Hle|Hgt].
  - rewrite to_int_id; [lia|]. unfold is_int, INT_MIN, INT_MAX in *. lia.
  - pose proof (to_int_range z) as [_ Hhi]. lia.
Qed.

Lemma to_uint_to_int u : is_uint u → to_uint (to_int u) = u.
Proof.
  unfold is_uint, to_uint, to_int, UINT_MAX. intros Hu.
  rewrite Zminus_mod_idemp_l.
  replace (u + 2147483648 - 2147483648)%Z with u by lia.
  apply Z.mod_small. lia.
Qed.

Lemma add_id a b : is_int (a + b) → add a b = (a + b)%Z.
Proof. apply to_int_id. Qed.

End CIntFacts.

(** ** Generic list facts *)

Lemma mapM_map_Some {A B C} (f : B → option C) (g : A → B) (h : A → C) (l : list A) :
  (∀ x, x ∈ l → f (g x) = Some (h x)) → mapM f (map g l) = Some (map h l).
Proof.
  induction l as [|x l IH]; intros Hf; [done|].
  cbn. rewrite Hf by left. cbn. rewrite IH; [done|].
  intros y Hy. apply Hf. by right.
Qed.

Lemma mapM_map_None {A B C} (f : B → option C) (g : A → B) (l : list A) x :
  x ∈ l → f (g x) = None → mapM f (map g l) = None.
Proof.
  induction l as [|y l IH]; intros Hx Hf; [by apply elem_of_nil in Hx|].
  apply elem_of_cons in Hx as [->|Hx]; cbn.
  - by rewrite Hf.
  - rewrite (IH Hx Hf). by destruct (f (g y)).
Qed.

Lemma length_write_at buf pos data : length (write_at buf pos data) = length buf.
Proof.
  revert buf pos. induction data as [|x data IH]; intros buf pos; cbn; [done|].
  by rewrite IH, length_insert.
Qed.

Lemma write_at_app_mid (l1 l2 l3 data : list Z) :
  length l2 = length data →
  write_at (l1 ++ l2 ++ l3) (length l1) data = l1 ++ data ++ l3.
Proof.
  revert l1 l2. induction data as [|x data IH]; intros l1 l2 Hlen.
  - destruct l2; [done|discriminate].
  - destruct l2 as [|y l2]; [discriminate|]. cbn in Hlen. cbn [write_at].
    rewrite insert_app_r_alt by lia. rewrite Nat.sub_diag. cbn [app].
    change (<[0:=x]> (y :: l2 ++ l3)) with (x :: l2 ++ l3).
    replace (l1 ++ x :: l2 ++ l3) with ((l1 ++ [x]) ++ l2 ++ l3)
      by (by rewrite <- app_assoc).
    replace (S (length l1)) with (length (l1 ++ [x]))
      by (rewrite length_app; cbn; lia).
    rewrite IH by lia. by rewrite <- app_assoc.
Qed.

Lemma write_at_all (buf data : list Z) :
  length buf = length data → write_at buf 0 data = data.
Proof.
  intros Hlen.
  pose proof (write_at_app_mid [] buf [] data Hlen) as H.
  cbn in H. by rewrite !app_nil_r in H.
Qed.

(** ** The cache invariant *)

Lemma SetDataSet_ok mi idx ds : MeshInfo_ok mi → MeshInfo_ok (SetDataSet mi idx ds).
Proof.
  intros [Hlen Hu]. unfold SetDataSet. case_match; [|done].
  split; cbn; [by rewrite length_insert|done].
Qed.

Lemma unpack_nodes_ok nodes mi localId :
  MeshInfo_ok mi → MeshInfo_ok (unpack_nodes mi localId nodes).
Proof.
  revert mi localId. induction nodes as [|[[ds|]|] nodes IH]; intros mi localId Hok; cbn;
    auto using SetDataSet_ok.
Qed.

Lemma FetchMesh_lookup_ne pd meshName other :
  meshName ≠ other → meshData (FetchMesh pd meshName) !! other = meshData pd !! other.
Proof.
  intros Hne. unfold FetchMesh.
  destruct (meshData pd !! meshName); [|done].
  destruct (GetMesh _ _ _) as [status obj]. case_match; [|done].
  cbn. by rewrite lookup_insert_ne.
Qed.

Lemma FetchMesh_ok pd meshName : cache_ok pd → cache_ok (FetchMesh pd meshName).
Proof.
  intros Hok other mi. destruct (decide (meshName = other)) as [<-|Hne].
  - unfold FetchMesh. destruct (meshData pd !! meshName) as [mi0|] eqn:Hmi; [|by rewrite Hmi].
    destruct (GetMesh _ _ _) as [status obj]. case_match; [|rewrite Hmi; naive_solver].
    cbn. rewrite lookup_insert_eq. intros [= <-].
    assert (MeshInfo_ok (SetDataObject mi0 obj)) as Hok1.
    { destruct (Hok _ _ Hmi). by split. }
    destruct obj as [o|]; [|done].
    destruct (composite_nodes o); [by apply unpack_nodes_ok|].
    destruct o; auto using SetDataSet_ok.
  - rewrite FetchMesh_lookup_ne by done. apply Hok.
Qed.

Lemma cache_reachable_ok pd : cache_reachable pd → cache_ok pd.
Proof.
  induction 1 as [d rank size|pd _ IH|pd meshName ids recv _ IH Hu|pd meshName _ IH
                  |pd meshName mi b _ IH Hmi].
  - intros n mi. cbn. by rewrite lookup_empty.
  - intros n mi. cbn. by rewrite lookup_empty.
  - intros n mi. cbn. destruct (decide (meshName = n)) as [<-|Hne].
    + rewrite lookup_insert_eq. intros [= <-]. split; cbn; [by rewrite length_replicate|done].
    + rewrite lookup_insert_ne by done. apply IH.
  - by apply FetchMesh_ok.
  - intros n mi'. cbn. destruct (decide (meshName = n)) as [<-|Hne].
    + rewrite lookup_insert_eq. intros [= <-]. apply (IH _ _ Hmi).
    + rewrite lookup_insert_ne by done. apply IH.
Qed.

(** ** Domain indexing *)

Lemma find_domain_bounds gdom doms i :
  gdom ∈ doms →
  (i ≤ find_domain gdom doms i < i + Z.of_nat (length doms))%Z.
Proof.
  revert i. induction doms as [|d doms IH]; intros i Hin; [by apply elem_of_nil in Hin|].
  cbn [find_domain length]. destruct (Z.eqb_spec gdom d) as [->|Hne]; [lia|].
  apply elem_of_cons in Hin as [->|Hin]; [done|].
  specialize (IH (i + 1)%Z Hin). lia.
Qed.

Lemma find_domain_lookup gdom doms i :
  gdom ∈ doms →
  doms !! Z.to_nat (find_domain gdom doms i - i) = Some gdom.
Proof.
  revert i. induction doms as [|d doms IH]; intros i Hin; [by apply elem_of_nil in Hin|].
  cbn [find_domain]. destruct (Z.eqb_spec gdom d) as [->|Hne].
  - by rewrite Z.sub_diag.
  - apply elem_of_cons in Hin as [->|Hin]; [done|].
    pose proof (find_domain_bounds gdom doms (i + 1) Hin) as Hb.
    replace (Z.to_nat (find_domain gdom doms (i + 1) - i))
      with (S (Z.to_nat (find_domain gdom doms (i + 1) - (i + 1)))) by lia.
    cbn. by apply IH.
Qed.

(** C4. [GetLocalDomain] round-trips with [GetDomains]: in every state of
    the cache, each id that [GetDomains] reports for a cached mesh is mapped
    by [GetLocalDomain] to a non-negative index below [datasets.size()], and
    the domain id stored at that index is the id that was asked for. *)
Theorem GetLocalDomain_of_GetDomains (pd : PrivateData) (meshName : string)
    (mi : MeshInfo) (ids : list Z) (size id : Z) :
  cache_reachable pd →
  meshData pd !! meshName = Some mi →
  GetDomains pd meshName = (Some ids, size) →
  id ∈ ids →
  (0 ≤ GetLocalDomain pd meshName id < Z.of_nat (length (datasets mi)))%Z
  ∧ doms_this_rank mi !! Z.to_nat (GetLocalDomain pd meshName id)
    = Some (CInt.to_uint id).
Proof.
  intros Hreach Hmi Hdoms Hid.
  destruct (cache_reachable_ok pd Hreach meshName mi Hmi) as [Hlen Huint].
  unfold GetDomains in Hdoms. unfold GetLocalDomain. rewrite Hmi in *.
  set (s := CInt.to_int (Z.of_nat (length (doms_this_rank mi)))) in *.
  destruct (0 <? s)%Z eqn:Hs; [|discriminate].
  injection Hdoms as <- <-.
  apply list_elem_of_fmap in Hid as (u & -> & Hu).
  assert (CInt.is_uint u) as Hu_range.
  { eapply Forall_forall; [exact Huint|]. by eapply subseteq_take. }
  rewrite CIntFacts.to_uint_to_int by done.
  pose proof (find_domain_bounds u _ 0 Hu) as Hb.
  pose proof (find_domain_lookup u _ 0 Hu) as Hl.
  rewrite Z.sub_0_r in Hl. rewrite length_take in Hb.
  split; [rewrite Hlen; lia|].
  apply lookup_take_Some in Hl. by destruct Hl.
Qed.

Lemma sum_Z_cons x l : sum_Z (x :: l) = (x + sum_Z l)%Z.
Proof. done. Qed.

Lemma sum_Z_nonneg l : Forall (λ x, 0 ≤ x)%Z l → (0 ≤ sum_Z l)%Z.
Proof. induction 1; [done|]. rewrite sum_Z_cons. lia. Qed.

Lemma sum_ndoms_app (pre rest : list Z) (total : Z) :
  (0 ≤ total)%Z → Forall (λ x, 0 ≤ x)%Z rest →
  (total + sum_Z rest ≤ CInt.INT_MAX)%Z →
  sum_ndoms (pre ++ rest) (length pre) (length rest) total = Some (total + sum_Z rest)%Z.
Proof.
  revert pre total. induction rest as [|x rest IH]; intros pre total Ht Hpos Hfit.
  - cbn. f_equal. lia.
  - apply Forall_cons in Hpos as [Hx Hrest].
    pose proof (sum_Z_nonneg rest Hrest) as Hsum.
    rewrite sum_Z_cons in *. cbn [sum_ndoms length].
    rewrite lookup_app_r, Nat.sub_diag by lia. cbn [lookup list_lookup mbind option_bind].
    rewrite CIntFacts.add_id
      by (unfold CInt.is_int, CInt.INT_MIN, CInt.INT_MAX in *; lia).
    replace (pre ++ x :: rest) with ((pre ++ [x]) ++ rest) by (by rewrite <- app_assoc).
    replace (S (length pre)) with (length (pre ++ [x])) by (rewrite length_app; cbn; lia).
    rewrite IH; [f_equal; lia|lia|done|lia].
Qed.

Lemma sum_ndoms_all (v : list Z) :
  Forall (λ x, 0 ≤ x)%Z v → (sum_Z v ≤ CInt.INT_MAX)%Z →
  sum_ndoms v 0 (length v) 0 = Some (sum_Z v).
Proof.
  intros Hpos Hfit. by apply (sum_ndoms_app [] v 0).
Qed.

(** Without any assumption on the sizes, [GetTotalDomains] is the sum of
    [ndoms_per_rank] reduced to the range of [int]. *)
Lemma sum_ndoms_wrap (pre rest : list Z) (total : Z) :
  sum_ndoms (pre ++ rest) (length pre) (length rest) total
  = Some (if decide (rest = []) then total else CInt.to_int (total + sum_Z rest)).
Proof.
  revert pre total. induction rest as [|x rest IH]; intros pre total; [done|].
  cbn [sum_ndoms length].
  rewrite lookup_app_r, Nat.sub_diag by lia. cbn [lookup list_lookup mbind option_bind].
  replace (pre ++ x :: rest) with ((pre ++ [x]) ++ rest) by (by rewrite <- app_assoc).
  replace (S (length pre)) with (length (pre ++ [x])) by (rewrite length_app; cbn; lia).
  rewrite IH. f_equal. rewrite sum_Z_cons. destruct rest as [|y rest].
  - rewrite decide_True, decide_False by done. unfold CInt.add. f_equal. cbn. lia.
  - rewrite !decide_False by done. unfold CInt.add, CInt.to_int.
    replace (total + x + 2147483648)%Z with ((total + x) + 2147483648)%Z by lia.
    set (a := (total + x + 2147483648)%Z).
    set (r := sum_Z (y :: rest)).
    replace (a mod 4294967296 - 2147483648 + r + 2147483648)%Z
      with (a mod 4294967296 + r)%Z by lia.
    rewrite Zplus_mod_idemp_l. do 2 f_equal. unfold a. lia.
Qed.

(** Whatever the counts are, [GetTotalDomains] reads exactly the
    [comm_size] entries that [AddMeshDataCacheEntry] stored and returns
    their sum reduced to the range of [int]. *)
Lemma GetTotalDomains_wrap pd meshName mi :
  meshData pd !! meshName = Some mi →
  length (ndoms_per_rank mi) = comm_size pd →
  GetTotalDomains pd meshName
  = Some (if decide (ndoms_per_rank mi = []) then 0%Z
          else CInt.to_int (sum_Z (ndoms_per_rank mi))).
Proof.
  intros Hmi Hlen. unfold GetTotalDomains. rewrite Hmi, <- Hlen.
  apply (sum_ndoms_wrap [] (ndoms_per_rank mi) 0).
Qed.

(** ** Cache population on all ranks *)

Lemma zip_with_map_map {A B C D} (f : B → C → D) (g : A → B) (h : A → C) (l : list A) :
  zip_with f (map g l) (map h l) = map (λ x, f (g x) (h x)) l.
Proof. induction l as [|x l IH]; cbn; [done|]. by rewrite IH. Qed.

Lemma all_returned_Ret {A B} (f : A → B) (l : list A) :
  all_returned (map (λ x, Ret (f x)) l) = Some (map f l).
Proof. unfold all_returned. by apply mapM_map_Some. Qed.

Lemma sum_Z_elem_le (l : list Z) x :
  Forall (λ y, 0 ≤ y)%Z l → x ∈ l → (x ≤ sum_Z l)%Z.
Proof.
  induction 1 as [|y l Hy Hl IH]; intros Hx; [by apply elem_of_nil in Hx|].
  rewrite sum_Z_cons. pose proof (sum_Z_nonneg l Hl).
  apply elem_of_cons in Hx as [->|Hx]; [lia|]. specialize (IH Hx). lia.
Qed.

Lemma domain_counts_nonneg ids : Forall (λ y, 0 ≤ y)%Z (domain_counts ids).
Proof. apply Forall_fmap, Forall_true. intros d. cbn. lia. Qed.

Lemma collective_step_allgather {A} (nd : A → Z) (L : list A) :
  collective_step (map (λ x, MPI_Allgather (nd x)) L) = Some (map (λ _, map nd L) L).
Proof.
  destruct L as [|x0 L0]; [done|].
  change (map (λ x, MPI_Allgather (nd x)) (x0 :: L0))
    with (MPI_Allgather (nd x0) :: map (λ x, MPI_Allgather (nd x)) L0).
  cbn [collective_step].
  change (MPI_Allgather (nd x0) :: map (λ x, MPI_Allgather (nd x)) L0)
    with (map (λ x, MPI_Allgather (nd x)) (x0 :: L0)).
  unfold gathered. rewrite (mapM_map_Some _ _ nd) by done.
  cbn [mbind option_bind]. by rewrite map_map.
Qed.

(** One round of [MPI_Allgather] on all ranks. *)
Lemma run_spmd_allgather {A B} (nd : A → Z) (k : A → list Z → B) (L : list A) :
  run_spmd 1 (map (λ x, Coll (MPI_Allgather (nd x)) (λ recv, Ret (k x recv))) L)
  = Some (map (λ x, k x (map nd L)) L).
Proof.
  destruct L as [|x0 L0] eqn:HL; [done|]. rewrite <- HL.
  cbn [run_spmd].
  replace (all_returned (map (λ x, Coll (MPI_Allgather (nd x)) (λ recv, Ret (k x recv))) L))
    with (@None (list B)).
  2:{ symmetry. unfold all_returned.
      apply (mapM_map_None _ _ L x0); [rewrite HL; left|done]. }
  assert (all_stopped (map (λ x, Coll (MPI_Allgather (nd x)) (λ recv, Ret (k x recv))) L)
          = Some (map (λ x, (MPI_Allgather (nd x), λ recv, Ret (k x recv))) L)) as ->.
  { unfold all_stopped. by apply mapM_map_Some. }
  cbn [mbind option_bind]. rewrite map_map. cbn [fst].
  rewrite collective_step_allgather.
  cbn [mbind option_bind]. rewrite zip_with_map_map. cbn [snd].
  by rewrite all_returned_Ret.
Qed.

(** What [populate] computes: every rank stores the gathered counts. *)
Lemma populate_eq world meshName ids :
  populate world meshName ids
  = Some (map (λ x, AddMeshDataCacheEntry_store x.1 meshName x.2
                      (map (λ y, CInt.to_int (Z.of_nat (length y.2))) (zip world ids)))
              (zip world ids)).
Proof.
  unfold populate, AddMeshDataCacheEntry.
  apply (run_spmd_allgather
           (λ y : PrivateData * list Z, CInt.to_int (Z.of_nat (length y.2)))
           (λ x recv, AddMeshDataCacheEntry_store x.1 meshName x.2 recv)).
Qed.

(** C3. After the cache has been populated for a mesh on all ranks (each
    rank contributing its local domain count to the all-gather), on every
    rank [ndoms_per_rank] holds the domain count of every rank,
    [GetTotalDomains] returns the sum of [ndoms_per_rank], and [datasets] has
    as many entries as [doms_this_rank]; provided the total number of domains
    is representable as an [int]. *)
Theorem GetTotalDomains_is_sum (world : list PrivateData) (meshName : string)
    (ids : list (list Z)) :
  world_ok world →
  length ids = length world →
  (sum_Z (domain_counts ids) ≤ CInt.INT_MAX)%Z →
  ∃ world',
    populate world meshName ids = Some world'
    ∧ length world' = length world
    ∧ ∀ r pd', world' !! r = Some pd' →
        ∃ mi, meshData pd' !! meshName = Some mi
              ∧ ndoms_per_rank mi = domain_counts ids
              ∧ GetTotalDomains pd' meshName = Some (sum_Z (ndoms_per_rank mi))
              ∧ ids !! r = Some (doms_this_rank mi)
              ∧ length (datasets mi) = length (doms_this_rank mi).
Proof.
  intros Hworld Hlen Hfit. eexists. split; [apply populate_eq|].
  set (L := zip world ids).
  assert (length L = length world) as HL.
  { unfold L. rewrite length_zip. lia. }
  assert (map (λ y : PrivateData * list Z, CInt.to_int (Z.of_nat (length y.2))) L
          = domain_counts ids) as Hcounts.
  { unfold domain_counts.
    transitivity (map (λ d : list Z, Z.of_nat (length d)) (map snd L));
      [|f_equal; apply (snd_zip world ids); lia].
    rewrite map_map. apply map_ext_in. intros [pd d] Hin. cbn.
    apply CIntFacts.to_int_id.
    assert (Z.of_nat (length d) ∈ domain_counts ids) as Hd.
    { unfold domain_counts. apply list_elem_of_fmap. exists d. split; [done|].
      apply list_elem_of_In in Hin. unfold L in Hin.
      apply list_elem_of_lookup in Hin as [i Hi].
      apply lookup_zip_with_Some in Hi as (? & ? & [= <- <-] & _ & Hi).
      by eapply list_elem_of_lookup_2. }
    pose proof (sum_Z_elem_le _ _ (domain_counts_nonneg ids) Hd).
    unfold CInt.is_int, CInt.INT_MIN, CInt.INT_MAX in *. lia. }
  rewrite Hcounts. split; [by rewrite length_map|].
  intros r pd' Hr.
  rewrite list_lookup_fmap in Hr.
  destruct (L !! r) as [[pd d]|] eqn:HLr; [|discriminate].
  injection Hr as <-. cbn [fst snd].
  unfold L in HLr. apply lookup_zip_with_Some in HLr as (? & ? & [= <- <-] & Hpd & Hd).
  destruct (Hworld _ _ Hpd) as [_ Hsize].
  eexists. split; [cbn; apply lookup_insert_eq|]. cbn [ndoms_per_rank doms_this_rank datasets].
  assert (write_at (replicate (comm_size pd) 0%Z) 0 (domain_counts ids) = domain_counts ids)
    as Hrecv.
  { apply write_at_all. rewrite length_replicate. unfold domain_counts.
    rewrite length_map. lia. }
  rewrite Hrecv. split_and!; [done| |done|by rewrite length_replicate].
  unfold GetTotalDomains. cbn [meshData set_meshData AddMeshDataCacheEntry_store comm_size].
  rewrite lookup_insert_eq. cbn [ndoms_per_rank]. rewrite Hrecv.
  replace (comm_size pd) with (length (domain_counts ids))
    by (unfold domain_counts; rewrite length_map; lia).
  apply sum_ndoms_all; [apply domain_counts_nonneg|done].
Qed.

Lemma GetTotalDomains_is_sum_witness :
  ∃ world',
    populate Scenario.world "mesh" Scenario.ids = Some world'
    ∧ length world' = length Scenario.world
    ∧ ∀ r pd', world' !! r = Some pd' →
        ∃ mi, meshData pd' !! "mesh" = Some mi
              ∧ ndoms_per_rank mi = domain_counts Scenario.ids
              ∧ GetTotalDomains pd' "mesh" = Some (sum_Z (ndoms_per_rank mi))
              ∧ Scenario.ids !! r = Some (doms_this_rank mi)
              ∧ length (datasets mi) = length (doms_this_rank mi).
Proof.
  apply (GetTotalDomains_is_sum Scenario.world "mesh" Scenario.ids).
  - intros [|[|r]] pd; cbn; intros [= <-]; done.
  - reflexivity.
  - vm_compute. discriminate.
Defined.

Lemma scenario_rank1_lookup :
  meshData Scenario.rank1_fetched !! "mesh"
  = Some {| dataObj := Some (OverlappingAMR Scenario.amr_rank1);
            datasets := [Some (mkDataSet ImageData 2); Some (mkDataSet ImageData 3)];
            ndoms_per_rank := [1; 2]%Z;
            doms_this_rank := [1; 2]%Z;
            datasetsHaveGhostCells := false |}.
Proof. vm_compute. reflexivity. Qed.

Lemma scenario_rank1_reachable : cache_reachable Scenario.rank1_fetched.
Proof.
  apply reach_fetch, reach_add; [apply reach_init|].
  repeat constructor; unfold CInt.is_uint, CInt.UINT_MAX; lia.
Qed.

Lemma GetLocalDomain_of_GetDomains_witness :
  (0 ≤ GetLocalDomain Scenario.rank1_fetched "mesh" 2 < 2)%Z
  ∧ [1; 2]%Z !! Z.to_nat (GetLocalDomain Scenario.rank1_fetched "mesh" 2)
    = Some (CInt.to_uint 2).
Proof.
  apply (GetLocalDomain_of_GetDomains Scenario.rank1_fetched "mesh"
           {| dataObj := Some (OverlappingAMR Scenario.amr_rank1);
              datasets := [Some (mkDataSet ImageData 2); Some (mkDataSet ImageData 3)];
              ndoms_per_rank := [1; 2]%Z;
              doms_this_rank := [1; 2]%Z;
              datasetsHaveGhostCells := false |}
           [1; 2]%Z 2%Z 2%Z).
  - apply scenario_rank1_reachable.
  - apply scenario_rank1_lookup.
  - unfold GetDomains. rewrite scenario_rank1_lookup. reflexivity.
  - right. left.
Defined.

(** ** Dataset lookup *)

(** The value of [GetDataSet] by cases: inside the guard the access is
    the element of the vector. *)
Lemma GetDataSet_cases pd meshName localdomain :
  GetDataSet pd meshName localdomain
  = match meshData pd !! meshName with
    | Some mi =>
        if ((0 <=? localdomain)
            && (localdomain <? CInt.to_int (Z.of_nat (length (datasets mi)))))%Z
        then mjoin (datasets mi !! Z.to_nat localdomain)
        else None
    | None => None
    end.
Proof.
  unfold GetDataSet, GetDataSet_run, vector_at.
  destruct (meshData pd !! meshName) as [mi|]; [|done].
  by destruct (0 <=? localdomain)%Z, (localdomain <? _)%Z.
Qed.

(** C10. [GetDataSet] is total and never indexes outside the vector: for
    every mesh name and every [localdomain] it has a result (the only
    access, [datasets[localdomain]], is made inside the vector), which is
    [nullptr] when the mesh has no cache entry or when [localdomain] is
    outside [0, datasets.size()), and the stored handle otherwise
    ([datasets.size()] being representable as an [int], to which the source
    converts it). *)
Theorem GetDataSet_total (pd : PrivateData) (meshName : string) (localdomain : Z) :
  (∀ mi, meshData pd !! meshName = Some mi →
         (Z.of_nat (length (datasets mi)) ≤ CInt.INT_MAX)%Z) →
  ∃ result,
    GetDataSet_run pd meshName localdomain = Some result
    ∧ GetDataSet pd meshName localdomain = result
    ∧ (meshData pd !! meshName = None → result = None)
    ∧ (∀ mi, meshData pd !! meshName = Some mi →
         (¬ (0 ≤ localdomain < Z.of_nat (length (datasets mi)))%Z → result = None)
         ∧ ((0 ≤ localdomain < Z.of_nat (length (datasets mi)))%Z →
            datasets mi !! Z.to_nat localdomain = Some result)).
Proof.
  intros Hfit. unfold GetDataSet, GetDataSet_run, vector_at.
  destruct (meshData pd !! meshName) as [mi|] eqn:Hmi.
  2:{ exists None. by repeat split. }
  specialize (Hfit mi eq_refl).
  rewrite CIntFacts.to_int_id
    by (unfold CInt.is_int, CInt.INT_MIN, CInt.INT_MAX in *; lia).
  destruct (Z.leb_spec 0 localdomain) as [Hlo|Hlo];
    [destruct (Z.ltb_spec localdomain (Z.of_nat (length (datasets mi)))) as [Hhi|Hhi]|];
    cbn [andb].
  - destruct (lookup_lt_is_Some_2 (datasets mi) (Z.to_nat localdomain)) as [h Hh]; [lia|].
    exists h. rewrite Hh. split; [done|]. split; [done|]. split; [done|].
    intros mi' [= <-]. split; [lia|done].
  - exists None. split; [done|]. split; [done|]. split; [done|].
    intros mi' [= <-]. split; [done|lia].
  - exists None. split; [done|]. split; [done|]. split; [done|].
    intros mi' [= <-]. split; [done|lia].
Qed.

Lemma GetDataSet_total_witness :
  ∃ result,
    GetDataSet_run Scenario.rank1_fetched "mesh" 1 = Some result
    ∧ GetDataSet Scenario.rank1_fetched "mesh" 1 = result
    ∧ (meshData Scenario.rank1_fetched !! "mesh" = None → result = None)
    ∧ (∀ mi, meshData Scenario.rank1_fetched !! "mesh" = Some mi →
         (¬ (0 ≤ 1 < Z.of_nat (length (datasets mi)))%Z → result = None)
         ∧ ((0 ≤ 1 < Z.of_nat (length (datasets mi)))%Z →
            datasets mi !! Z.to_nat 1 = Some result)).
Proof.
  apply (GetDataSet_total Scenario.rank1_fetched "mesh" 1).
  intros mi. rewrite scenario_rank1_lookup. intros [= <-]. cbn. unfold CInt.INT_MAX. lia.
Defined.

Example GetDataSet_scenario :
  GetDataSet_run Scenario.rank1_fetched "mesh" 1 = Some (Some (mkDataSet ImageData 3))
  ∧ GetDataSet_run Scenario.rank1_fetched "mesh" 2 = Some None
  ∧ GetDataSet_run Scenario.rank1_fetched "mesh" (-1) = Some None
  ∧ GetDataSet_run Scenario.rank1_fetched "other" 0 = Some None.
Proof.
  unfold GetDataSet_run. rewrite scenario_rank1_lookup.
  split_and!; [reflexivity..|]. vm_compute. reflexivity.
Qed.

(** ** Variable-name resolution with several meshes *)

(** With more than one mesh and no "/" in the name, the resolver returns
    with its three reference parameters untouched. *)
Lemma GetArrayInfoFromVariableName_no_separator d varName out :
  1 < length (GetMeshNames d) →
  String.index 0 "/" varName = None →
  GetArrayInfoFromVariableName d varName out = Some out.
Proof.
  intros Hmany Hsep. unfold GetArrayInfoFromVariableName.
  rewrite decide_True by done. by rewrite Hsep.
Qed.

(** C8, as stated, fails: with two meshes and the unqualified name
    "temperature" the resolver's result is whatever the caller's variables
    held, so two calls that differ only in the uninitialised association
    give different results; no failure value is assigned. *)
Lemma resolve_unqualified_undetermined :
  ¬ (∀ out1 out2,
       GetArrayInfoFromVariableName Examples.two_meshes "temperature" out1
       = GetArrayInfoFromVariableName Examples.two_meshes "temperature" out2).
Proof.
  intros H. specialize (H (mkArrayInfo "" "" 0) (mkArrayInfo "" "" 1)).
  vm_compute in H. discriminate.
Qed.

(** C8, amended. With more than one mesh and a name without the "/"
    separator, the resolver assigns nothing (mesh name, array name and
    association keep the caller's values), and [GetVariable], whose mesh
    name is then the empty string, returns [VISIT_INVALID_HANDLE] whatever
    its uninitialised association holds, provided no cached mesh is named by
    the empty string. *)
Theorem GetVariable_unqualified_invalid
    (wrap : PrivateData → ArrayInfo → Z → visit_handle)
    (pd : PrivateData) (dom : Z) (name : string) (indeterminate : Z) :
  1 < length (GetMeshNames (da pd)) →
  String.index 0 "/" name = None →
  meshData pd !! "" = None →
  (∀ out, GetArrayInfoFromVariableName (da pd) name out = Some out)
  ∧ GetVariable wrap pd dom name indeterminate = Some VISIT_INVALID_HANDLE.
Proof.
  intros Hmany Hsep Hnone. split.
  - intros out. by apply GetArrayInfoFromVariableName_no_separator.
  - unfold GetVariable.
    rewrite GetArrayInfoFromVariableName_no_separator by done.
    cbn. unfold GetLocalDomain. by rewrite Hnone.
Qed.

Lemma GetVariable_unqualified_invalid_witness :
  (∀ out, GetArrayInfoFromVariableName (da Examples.two_meshes_state) "temperature" out
          = Some out)
  ∧ GetVariable (λ _ _ _, 0%Z) Examples.two_meshes_state 0 "temperature" 12345
    = Some VISIT_INVALID_HANDLE.
Proof.
  apply (GetVariable_unqualified_invalid (λ _ _ _, 0%Z) Examples.two_meshes_state
           0 "temperature" 12345).
  - cbn. lia.
  - reflexivity.
  - vm_compute. reflexivity.
Defined.

(** A qualified name is resolved, for comparison. *)
Example resolve_qualified :
  GetArrayInfoFromVariableName Examples.two_meshes "a/temperature" (mkArrayInfo "" "" 7)
  = Some (mkArrayInfo "a" "temperature" FIELD_ASSOCIATION_POINTS)
  ∧ GetArrayInfoFromVariableName Examples.two_meshes "b/cell_temperature"
      (mkArrayInfo "" "" 7)
    = Some (mkArrayInfo "b" "temperature" FIELD_ASSOCIATION_CELLS).
Proof. split; vm_compute; reflexivity. Qed.

(** ** Early returns of the nesting callback *)

(** C9, as stated, fails: for a mesh whose cache entry holds no data object
    yet and whose data is not an AMR container, the callback returns the
    invalid handle without a collective call, but the cache has changed: the
    mesh was fetched and stored. *)
Lemma GetDomainNesting_skip_changes_cache :
  (∃ mi, meshData Examples.unfetched !! "mesh" = Some mi
         ∧ as_overlappingAMR (dataObj mi) = None)
  ∧ (∃ pd', GetDomainNesting true Examples.unfetched "mesh" = Ret (pd', Some InvalidHandle)
            ∧ meshData pd' ≠ meshData Examples.unfetched).
Proof.
  split.
  - eexists. split; [vm_compute; reflexivity|reflexivity].
  - exists Examples.fetched. split; [vm_compute; reflexivity|].
    intros Heq.
    assert (meshData Examples.fetched !! "mesh" = meshData Examples.unfetched !! "mesh")
      as H by (by rewrite Heq).
    vm_compute in H. discriminate.
Qed.

(** C9, amended. The callback returns [VISIT_INVALID_HANDLE] before any
    collective call when the ghost-cell flag of the cached mesh is set, and
    when its data object is not an AMR container. In the first case, and
    when a data object is already cached, the cache is unchanged; when none
    is cached yet, the mesh is fetched first and the cache is the one
    [FetchMesh] leaves. *)
Theorem GetDomainNesting_skip (alloc_ok : bool) (pd : PrivateData) (name : string)
    (mi : MeshInfo) :
  meshData pd !! name = Some mi →
  (datasetsHaveGhostCells mi = true →
   GetDomainNesting alloc_ok pd name = Ret (pd, Some InvalidHandle))
  ∧ (datasetsHaveGhostCells mi = false →
     (∀ obj, dataObj mi = Some obj → as_overlappingAMR (Some obj) = None →
             GetDomainNesting alloc_ok pd name = Ret (pd, Some InvalidHandle))
     ∧ (dataObj mi = None →
        (∀ mi', meshData (FetchMesh pd name) !! name = Some mi' →
                as_overlappingAMR (dataObj mi') = None) →
        GetDomainNesting alloc_ok pd name = Ret (FetchMesh pd name, Some InvalidHandle))).
Proof.
  intros Hmi. unfold GetDomainNesting, GetDomainNesting_checks. rewrite Hmi.
  split; [by intros ->|]. intros ->. split.
  - intros obj Hobj Hamr. rewrite Hobj, Hmi, Hobj, Hamr. done.
  - intros Hobj Hfetched. rewrite Hobj.
    destruct (meshData (FetchMesh pd name) !! name) as [mi'|] eqn:Hmi'; [|done].
    by rewrite (Hfetched mi' eq_refl).
Qed.

Lemma GetDomainNesting_skip_witness :
  (false = true →
   GetDomainNesting true Examples.fetched "mesh" = Ret (Examples.fetched, Some InvalidHandle))
  ∧ (false = false →
     (∀ obj, Some (DataSetObject (mkDataSet ImageData 7)) = Some obj →
             as_overlappingAMR (Some obj) = None →
             GetDomainNesting true Examples.fetched "mesh"
             = Ret (Examples.fetched, Some InvalidHandle))
     ∧ (Some (DataSetObject (mkDataSet ImageData 7)) = None →
        (∀ mi', meshData (FetchMesh Examples.fetched "mesh") !! "mesh" = Some mi' →
                as_overlappingAMR (dataObj mi') = None) →
        GetDomainNesting true Examples.fetched "mesh"
        = Ret (FetchMesh Examples.fetched "mesh", Some InvalidHandle))).
Proof.
  apply (GetDomainNesting_skip true Examples.fetched "mesh"
           {| dataObj := Some (DataSetObject (mkDataSet ImageData 7));
              datasets := [Some (mkDataSet ImageData 7)];
              ndoms_per_rank := [1%Z];
              doms_this_rank := [0%Z];
              datasetsHaveGhostCells := false |}).
  vm_compute. reflexivity.
Defined.

(** The callback also returns at once when the mesh has no cache entry. *)
Lemma GetDomainNesting_no_entry alloc_ok pd name :
  meshData pd !! name = None →
  GetDomainNesting alloc_ok pd name = Ret (pd, Some InvalidHandle).
Proof. intros H. unfold GetDomainNesting, GetDomainNesting_checks. by rewrite H. Qed.

(** [FetchMesh] never touches the ghost-cell flag nor the domain ids. *)
Lemma unpack_nodes_frame nodes mi localId :
  datasetsHaveGhostCells (unpack_nodes mi localId nodes) = datasetsHaveGhostCells mi
  ∧ doms_this_rank (unpack_nodes mi localId nodes) = doms_this_rank mi
  ∧ ndoms_per_rank (unpack_nodes mi localId nodes) = ndoms_per_rank mi
  ∧ dataObj (unpack_nodes mi localId nodes) = dataObj mi.
Proof.
  revert mi localId. induction nodes as [|[[ds|]|] nodes IH]; intros mi localId; cbn;
    [done| |apply IH..].
  destruct (IH (SetDataSet mi localId (Some ds)) (CInt.add localId 1)) as (-> & -> & -> & ->).
  unfold SetDataSet. by case_match.
Qed.

(** ** Partition of the work list *)

Lemma mapM_ext_Some {A B} (f : A → option B) (h : A → B) (l : list A) :
  (∀ x, x ∈ l → f x = Some (h x)) → mapM f l = Some (map h l).
Proof.
  intros Hf. rewrite <- (map_id l) at 1. by apply mapM_map_Some.
Qed.

Lemma rankn_S ws size :
  rankn (S ws) size = alter S (ws mod size) (rankn ws size).
Proof. unfold rankn. by rewrite seq_S, fold_left_app. Qed.

Lemma length_rankn ws size : length (rankn ws size) = size.
Proof.
  induction ws as [|ws IH]; [apply length_replicate|].
  by rewrite rankn_S, length_alter.
Qed.

Lemma rankn_lookup ws size rank :
  rank < size → rankn ws size !! rank = Some (round_robin_count ws size rank).
Proof.
  intros Hr. unfold round_robin_count. induction ws as [|ws IH].
  - by apply lookup_replicate_2.
  - rewrite rankn_S, seq_S, filter_app, length_app. cbn [Nat.add].
    destruct (decide (ws mod size = rank)) as [Heq|Hne].
    + rewrite Heq, list_lookup_alter_eq, IH.
      rewrite filter_cons_True by done. cbn. f_equal. lia.
    + rewrite list_lookup_alter_ne, IH by done.
      rewrite filter_cons_False by done. cbn. f_equal. lia.
Qed.

Lemma sum_list_alter_S (l : list nat) i :
  i < length l → sum_list (alter S i l) = S (sum_list l).
Proof.
  revert i. induction l as [|x l IH]; intros [|i] Hi; cbn in *; try lia.
  rewrite IH; lia.
Qed.

Lemma sum_list_rankn ws size : 0 < size → sum_list (rankn ws size) = ws.
Proof.
  intros Hsize. induction ws as [|ws IH].
  - unfold rankn. cbn. rewrite sum_list_replicate. lia.
  - rewrite rankn_S, sum_list_alter_S, IH; [done|].
    rewrite length_rankn. apply Nat.mod_upper_bound. lia.
Qed.

Lemma sum_list_take_le (l : list nat) n : sum_list (take n l) ≤ sum_list l.
Proof.
  rewrite <- (take_drop n l) at 2. rewrite sum_list_with_app. lia.
Qed.

Lemma mapM_lookup_seq {A} (l : list A) off n :
  off + n ≤ length l →
  mapM (λ i, l !! (off + i)) (seq 0 n) = Some (take n (drop off l)).
Proof.
  intros Hn. apply mapM_Some. apply Forall2_same_length_lookup. split.
  - rewrite length_seq, length_take, length_drop. lia.
  - intros i j x Hj Hx. apply lookup_seq in Hj as [-> Hi]. cbn.
    apply lookup_take_Some in Hx as [Hx _]. by rewrite lookup_drop in Hx.
Qed.

Lemma work_offset_S ws size rank :
  rank < size →
  work_offset ws size (S rank) = work_offset ws size rank + round_robin_count ws size rank.
Proof.
  intros Hr. unfold work_offset.
  rewrite (take_S_r _ _ _ (rankn_lookup ws size rank Hr)), sum_list_with_app. cbn. lia.
Qed.

Lemma work_offset_bound ws size rank :
  0 < size → rank < size →
  work_offset ws size rank + round_robin_count ws size rank ≤ ws.
Proof.
  intros Hsize Hr. rewrite <- work_offset_S by done. unfold work_offset.
  rewrite <- (sum_list_rankn ws size Hsize) at 2. apply sum_list_take_le.
Qed.

(** The block of rank [rank]: [rankn[rank]] consecutive items from
    [offset] on. *)
Lemma mywork_block work size rank :
  0 < size → rank < size →
  mywork work size rank
  = Some (take (round_robin_count (length work) size rank)
               (drop (work_offset (length work) size rank) work)).
Proof.
  intros Hsize Hr. unfold mywork. rewrite rankn_lookup by done. cbn.
  apply mapM_lookup_seq. by apply work_offset_bound.
Qed.

Lemma concat_blocks (work : list nat) size m :
  0 < size → m ≤ size →
  concat (map (λ rank, take (round_robin_count (length work) size rank)
                            (drop (work_offset (length work) size rank) work))
              (seq 0 m))
  = take (work_offset (length work) size m) work.
Proof.
  intros Hsize. induction m as [|m IH]; intros Hm; [done|].
  rewrite seq_S, map_app, concat_app, IH by lia. cbn [Nat.add map concat].
  rewrite app_nil_r, take_take_drop, work_offset_S by lia. done.
Qed.

(** C7, as stated, fails: with two ranks and four work items, the item at
    position 1 is computed by rank 0, not by rank [1 mod 2]. *)
Lemma mywork_not_modulo :
  ¬ (∀ i w, [10; 11; 12; 13] !! i = Some w →
            ∃ mine, mywork [10; 11; 12; 13] 2 (i mod 2) = Some mine ∧ w ∈ mine).
Proof.
  intros H. destruct (H 1 11 eq_refl) as (mine & Hmine & Hin).
  vm_compute in Hmine. injection Hmine as <-.
  apply elem_of_cons in Hin as [|Hin]; [done|].
  apply elem_of_cons in Hin as [|Hin]; [done|].
  by apply elem_of_nil in Hin.
Qed.

(** C7, amended. The work list is cut into consecutive blocks, one per
    rank in rank order: the blocks of ranks [0 .. size-1] concatenate to the
    work list (so every position goes to exactly one rank), and the block of
    a rank has as many items as a round-robin deal would give it (the
    number of positions [i] with [i mod size = rank]). The assignment is a
    function of the work list and the number of ranks. *)
Theorem mywork_partition (work : list nat) (size : nat) :
  0 < size →
  ∃ blocks,
    mapM (mywork work size) (seq 0 size) = Some blocks
    ∧ concat blocks = work
    ∧ ∀ rank block, blocks !! rank = Some block →
        length block = round_robin_count (length work) size rank
        ∧ block = take (length block) (drop (work_offset (length work) size rank) work).
Proof.
  intros Hsize. eexists. split_and!.
  - apply mapM_ext_Some. intros rank Hr.
    apply elem_of_seq in Hr. apply mywork_block; lia.
  - rewrite concat_blocks by lia. apply take_ge.
    unfold work_offset. rewrite take_ge by (by rewrite length_rankn).
    by rewrite sum_list_rankn.
  - intros rank block Hb. rewrite list_lookup_fmap in Hb.
    destruct (seq 0 size !! rank) as [r|] eqn:Hr; [|discriminate].
    apply lookup_seq in Hr as [-> Hr]. injection Hb as <-. cbn [Nat.add].
    pose proof (work_offset_bound (length work) size rank Hsize Hr).
    assert (length (take (round_robin_count (length work) size rank)
                     (drop (work_offset (length work) size rank) work))
            = round_robin_count (length work) size rank) as ->.
    { rewrite length_take, length_drop. lia. }
    done.
Qed.

Lemma mywork_partition_witness :
  ∃ blocks,
    mapM (mywork [10; 11; 12; 13; 14] 2) (seq 0 2) = Some blocks
    ∧ concat blocks = [10; 11; 12; 13; 14]
    ∧ ∀ rank block, blocks !! rank = Some block →
        length block = round_robin_count (length [10; 11; 12; 13; 14]) 2 rank
        ∧ block = take (length block)
                    (drop (work_offset (length [10; 11; 12; 13; 14]) 2 rank)
                          [10; 11; 12; 13; 14]).
Proof. apply (mywork_partition [10; 11; 12; 13; 14] 2). lia. Defined.

Example mywork_blocks :
  mywork [10; 11; 12; 13; 14] 2 0 = Some [10; 11; 12]
  ∧ mywork [10; 11; 12; 13; 14] 2 1 = Some [13; 14].
Proof. split; reflexivity. Qed.

(** ** Topological dimension *)

(** C6, as stated, fails: with two patches whose z-extents are [0,0] and
    [1,8], the second spans eight cells, yet the code answers 2: only the
    entries of patch 0 are read. *)
Lemma topdim_ignores_other_patches :
  topdim [0; 3; 0; 3; 0; 0; 0; 3; 0; 3; 1; 8]%Z = Some 2%Z
  ∧ topdim_any_patch [0; 3; 0; 3; 0; 0; 0; 3; 0; 3; 1; 8]%Z = 3%Z.
Proof. split; reflexivity. Qed.

(** C6, amended. The topological dimension is read off the z-extent of
    patch 0 alone (the table entries 4 and 5): it is 3 when the high index
    exceeds the low index by more than one, and 2 when the extent is a
    single layer of cells or less; a table that agrees on the entries of
    patch 0 gives the same answer whatever the other patches are. *)
Theorem topdim_patch0 (allext : list Z) (lo hi : Z) :
  allext !! 4 = Some lo →
  allext !! 5 = Some hi →
  CInt.is_int (hi - lo) →
  ((1 < hi - lo)%Z → topdim allext = Some 3%Z)
  ∧ ((hi - lo ≤ 0)%Z → topdim allext = Some 2%Z)
  ∧ (∀ others, topdim (take 6 allext ++ others) = topdim allext).
Proof.
  intros Hlo Hhi Hint. unfold topdim. rewrite Hlo, Hhi. cbn.
  unfold CInt.sub. rewrite CIntFacts.to_int_id by done. split_and!.
  - intros H. destruct (Z.ltb_spec 1 (hi - lo)); [done|lia].
  - intros H. destruct (Z.ltb_spec 1 (hi - lo)); [lia|done].
  - intros others.
    assert (4 < length allext) by (by eapply lookup_lt_Some).
    assert (5 < length allext) by (by eapply lookup_lt_Some).
    rewrite !lookup_app_l by (rewrite length_take; lia).
    rewrite !lookup_take_lt by lia. rewrite Hlo, Hhi. cbn.
    by rewrite CIntFacts.to_int_id.
Qed.

Lemma topdim_patch0_witness :
  ((1 < 7 - 0)%Z → topdim [0; 3; 0; 3; 0; 7]%Z = Some 3%Z)
  ∧ ((7 - 0 ≤ 0)%Z → topdim [0; 3; 0; 3; 0; 7]%Z = Some 2%Z)
  ∧ (∀ others, topdim (take 6 [0; 3; 0; 3; 0; 7]%Z ++ others)
               = topdim [0; 3; 0; 3; 0; 7]%Z).
Proof.
  apply (topdim_patch0 [0; 3; 0; 3; 0; 7]%Z 0 7); [reflexivity..|].
  unfold CInt.is_int, CInt.INT_MIN, CInt.INT_MAX. lia.
Defined.

(** What the code answers for a z-extent of two cells, which the amended
    statement leaves open: [box_intersect] treats such a patch as
    three-dimensional (its z-range is tested), [topdim] answers 2. *)
Example topdim_two_cell_layers :
  topdim [0; 3; 0; 3; 0; 1]%Z = Some 2%Z
  ∧ box_intersect (ptr [0; 3; 0; 3; 0; 1]%Z 0) (ptr [0; 1; 0; 1; 9; 9]%Z 0) 2 = Some false
  ∧ box_intersect (ptr [0; 3; 0; 3; 0; 0]%Z 0) (ptr [0; 1; 0; 1; 9; 9]%Z 0) 2 = Some true.
Proof. split_and!; reflexivity. Qed.

(** ** The extent table and its reduction *)

Lemma length_GetDimensions box : length (GetDimensions box) = 6.
Proof. by destruct box as [e [[??]?] [[??]?]]. Qed.

Lemma length_extent_row amr i : length (extent_row amr i) = 6.
Proof. unfold extent_row. case_match; [done|apply length_GetDimensions]. Qed.

Lemma length_concat_rows amr (l : list nat) :
  length (concat (map (extent_row amr) l)) = 6 * length l.
Proof.
  induction l as [|i l IH]; [done|].
  cbn [map concat length]. rewrite length_app, length_extent_row, IH. lia.
Qed.

(** The table built by [fill_extents] is the sequence of the rows of all
    patches. *)
Lemma fill_extents_prefix amr m :
  m ≤ GetTotalNumberOfBlocks amr →
  fold_left
    (λ allext i,
       let '(mylevel, mypatch) := GetLevelAndIndex amr i in
       let box := GetAMRBox amr mylevel mypatch in
       if Empty box then allext else write_at allext (6 * i) (GetDimensions box))
    (seq 0 m) (replicate (6 * GetTotalNumberOfBlocks amr) (-1)%Z)
  = concat (map (extent_row amr) (seq 0 m))
    ++ replicate (6 * (GetTotalNumberOfBlocks amr - m)) (-1)%Z.
Proof.
  set (n := GetTotalNumberOfBlocks amr).
  induction m as [|m IH]; intros Hm.
  - cbn [seq fold_left map concat app]. by rewrite Nat.sub_0_r.
  - rewrite seq_S, fold_left_app, IH by lia. cbn [Nat.add fold_left].
    rewrite map_app, concat_app. cbn [map concat]. rewrite app_nil_r, <- app_assoc.
    replace (6 * (n - m)) with (6 + 6 * (n - S m)) by lia.
    rewrite replicate_add.
    unfold extent_row, patch_box.
    destruct (GetLevelAndIndex amr m) as [mylevel mypatch]. cbn [fst snd].
    destruct (Empty (GetAMRBox amr mylevel mypatch)); [done|].
    replace (6 * m) with (length (concat (map (extent_row amr) (seq 0 m))))
      by (rewrite length_concat_rows, length_seq; lia).
    apply write_at_app_mid.
    by rewrite length_replicate, length_GetDimensions.
Qed.

Lemma fill_extents_rows amr :
  fill_extents amr
  = concat (map (extent_row amr) (seq 0 (GetTotalNumberOfBlocks amr))).
Proof.
  unfold fill_extents. rewrite fill_extents_prefix by done.
  rewrite Nat.sub_diag. cbn. apply app_nil_r.
Qed.

Lemma length_fill_extents amr :
  length (fill_extents amr) = 6 * GetTotalNumberOfBlocks amr.
Proof. by rewrite fill_extents_rows, length_concat_rows, length_seq. Qed.

Lemma concat_rows_lookup (rows : list (list Z)) i k row :
  Forall (λ r, length r = 6) rows →
  rows !! i = Some row → k < 6 →
  concat rows !! (6 * i + k) = row !! k.
Proof.
  intros Hrows. revert i. induction Hrows as [|r rows Hr _ IH]; intros i Hi Hk; [done|].
  destruct i as [|i]; cbn in Hi.
  - injection Hi as ->. cbn [concat]. by rewrite lookup_app_l by lia.
  - cbn [concat]. rewrite lookup_app_r by lia.
    replace (6 * S i + k - length r) with (6 * i + k) by lia. by apply IH.
Qed.

Lemma fill_extents_lookup amr i k :
  i < GetTotalNumberOfBlocks amr → k < 6 →
  fill_extents amr !! (6 * i + k) = extent_row amr i !! k.
Proof.
  intros Hi Hk. rewrite fill_extents_rows.
  apply concat_rows_lookup; [|by rewrite list_lookup_fmap, lookup_seq_lt|done].
  apply Forall_fmap, Forall_true. intros j. apply length_extent_row.
Qed.

Lemma patch_extent_lookup allext i k :
  k < 6 → patch_extent allext i !! k = allext !! (6 * i + k).
Proof.
  intros Hk. unfold patch_extent. by rewrite lookup_take_lt, lookup_drop.
Qed.

Lemma fold_zip_max_lookup (bs : list (list Z)) (b : list Z) j (a v : Z) :
  b !! j = Some a → (a ≤ v)%Z →
  Forall (λ t, ∃ y, t !! j = Some y ∧ (y ≤ v)%Z) bs →
  a = v ∨ Exists (λ t, t !! j = Some v) bs →
  fold_left (zip_with Z.max) bs b !! j = Some v.
Proof.
  revert b a. induction bs as [|t bs IH]; intros b a Hb Hav Hall Hsome.
  - destruct Hsome as [->|Hex]; [done|]. by apply Exists_nil in Hex.
  - apply Forall_cons in Hall as [(y & Hy & Hyv) Hall]. cbn [fold_left].
    apply (IH _ (Z.max a y)); [|lia|done|].
    + rewrite lookup_zip_with, Hb, Hy. done.
    + destruct Hsome as [->|Hex]; [left; lia|].
      apply Exists_cons in Hex as [Ht|Hex]; [|by right].
      left. rewrite Hy in Ht. injection Ht as ->. lia.
Qed.

(** The reduced entry is the largest contribution. *)
Lemma allreduce_max_lookup (tables : list (list Z)) j (v : Z) :
  Forall (λ t, ∃ y, t !! j = Some y ∧ (y ≤ v)%Z) tables →
  Exists (λ t, t !! j = Some v) tables →
  allreduce_max tables !! j = Some v.
Proof.
  intros Hall Hex. destruct tables as [|b bs]; [by apply Exists_nil in Hex|].
  apply Forall_cons in Hall as [(a & Ha & Hav) Hall]. cbn [allreduce_max].
  apply (fold_zip_max_lookup bs b j a v); [done..|].
  apply Exists_cons in Hex as [Hb|Hex]; [|by right].
  left. congruence.
Qed.

Lemma length_fold_zip_max (bs : list (list Z)) (b : list Z) :
  Forall (λ t, length t = length b) bs →
  length (fold_left (zip_with Z.max) bs b) = length b.
Proof.
  revert b. induction bs as [|t bs IH]; intros b Hall; [done|].
  apply Forall_cons in Hall as [Ht Hall]. cbn [fold_left].
  rewrite IH; rewrite length_zip_with; [lia|].
  eapply Forall_impl; [exact Hall|]. cbn. intros; lia.
Qed.

Lemma collective_step_allreduce {A} (buf : A → list Z) (L : list A) :
  collective_step (map (λ x, MPI_Allreduce_MAX (buf x)) L)
  = Some (map (λ _, allreduce_max (map buf L)) L).
Proof.
  destruct L as [|x0 L0]; [done|].
  change (map (λ x, MPI_Allreduce_MAX (buf x)) (x0 :: L0))
    with (MPI_Allreduce_MAX (buf x0) :: map (λ x, MPI_Allreduce_MAX (buf x)) L0).
  cbn [collective_step].
  change (MPI_Allreduce_MAX (buf x0) :: map (λ x, MPI_Allreduce_MAX (buf x)) L0)
    with (map (λ x, MPI_Allreduce_MAX (buf x)) (x0 :: L0)).
  unfold reduce_bufs. rewrite (mapM_map_Some _ _ buf) by done.
  cbn [mbind option_bind]. by rewrite map_map.
Qed.

(** When the checks pass, the first thing [GetDomainNesting] does on a
    rank is to enter the reduction with the table [fill_extents] built. *)
Lemma GetDomainNesting_enters_reduction alloc_ok pd name pd1 amr :
  GetDomainNesting_checks alloc_ok pd name = (pd1, Some amr) →
  ∃ k, GetDomainNesting alloc_ok pd name = Coll (MPI_Allreduce_MAX (fill_extents amr)) k.
Proof. intros H. unfold GetDomainNesting. rewrite H. by eexists. Qed.

(** When every rank passes the checks, all ranks stand at the reduction,
    rank by rank with the table [fill_extents] of its own data object. *)
Lemma GetDomainNesting_all_stopped (world : list PrivateData) (name : string)
    (amrs : list vtkOverlappingAMR) :
  Forall2 (λ pd amr, (GetDomainNesting_checks true pd name).2 = Some amr) world amrs →
  ∃ cks,
    all_stopped (map (λ pd, GetDomainNesting true pd name) world) = Some cks
    ∧ map fst cks = map (λ a, MPI_Allreduce_MAX (fill_extents a)) amrs.
Proof.
  induction 1 as [|pd amr world amrs Hpd _ (cks & Hcks & Hfst)]; [by exists []|].
  destruct (GetDomainNesting_checks true pd name) as [pd1 r] eqn:Hchecks.
  cbn in Hpd. subst r.
  destruct (GetDomainNesting_enters_reduction true pd name pd1 amr Hchecks) as [k Hk].
  exists ((MPI_Allreduce_MAX (fill_extents amr), k) :: cks). split.
  - unfold all_stopped in *. cbn [map mapM]. rewrite Hk, Hcks. done.
  - cbn [map fst]. by rewrite Hfst.
Qed.

Lemma map_const_replicate {A B} (x : B) (l : list A) :
  map (λ _, x) l = replicate (length l) x.
Proof. induction l as [|y l IH]; [done|]. cbn. by rewrite IH. Qed.

(** C1. In [GetDomainNesting], on ranks that all get past the checks, every
    rank fills a table of six entries per patch with [-1], stores the
    extents of the patches whose box it holds, and enters the element-wise
    maximum reduction, which delivers the same table to every rank. In that
    table, every patch for which some rank holds an extent without negative
    entry, which no rank exceeds in any entry (so in particular when the
    ranks that hold the patch agree on it), has that extent; and a cell of
    a patch that some rank does not hold, and for which no rank holds a
    value that is not negative, is [-1]. The conditions are those of the
    patch concerned only. *)
Theorem allreduce_recovers_extents (world : list PrivateData) (name : string)
    (amrs : list vtkOverlappingAMR) (blocks : list nat) :
  world ≠ [] →
  Forall2 (λ pd amr, (GetDomainNesting_checks true pd name).2 = Some amr) world amrs →
  (∀ a, a ∈ amrs → amr_blocksPerLevel a = blocks) →
  ∃ cks allext,
    all_stopped (map (λ pd, GetDomainNesting true pd name) world) = Some cks
    ∧ map fst cks = map (λ a, MPI_Allreduce_MAX (fill_extents a)) amrs
    ∧ collective_step (map fst cks) = Some (replicate (length world) allext)
    ∧ ∀ i, i < sum_list blocks →
        (∀ a, a ∈ amrs → Empty (patch_box a i) = false →
           Forall (λ x, 0 ≤ x)%Z (GetDimensions (patch_box a i)) →
           (∀ b, b ∈ amrs → Empty (patch_box b i) = false →
              Forall2 Z.le (GetDimensions (patch_box b i))
                           (GetDimensions (patch_box a i))) →
           patch_extent allext i = GetDimensions (patch_box a i))
        ∧ (∀ k, k < 6 →
             (∃ a, a ∈ amrs ∧ Empty (patch_box a i) = true) →
             (∀ b v, b ∈ amrs → Empty (patch_box b i) = false →
                GetDimensions (patch_box b i) !! k = Some v → (v < 0)%Z) →
             allext !! (6 * i + k) = Some (-1)%Z).
Proof.
  intros Hne Hchecks Hblocks.
  destruct (GetDomainNesting_all_stopped world name amrs Hchecks) as (cks & Hcks & Hfst).
  pose proof (Forall2_length _ _ _ Hchecks) as Hlen.
  set (allext := allreduce_max (map fill_extents amrs)).
  exists cks, allext. split; [done|]. split; [done|]. split.
  { rewrite Hfst, collective_step_allreduce, map_const_replicate. by rewrite Hlen. }
  assert (∀ a, a ∈ amrs → GetTotalNumberOfBlocks a = sum_list blocks) as Hn.
  { intros a Ha. unfold GetTotalNumberOfBlocks. by rewrite (Hblocks a Ha). }
  assert (∀ i k (v : Z), i < sum_list blocks → k < 6 →
            Forall (λ a, ∃ y, extent_row a i !! k = Some y ∧ (y ≤ v)%Z) amrs →
            Exists (λ a, extent_row a i !! k = Some v) amrs →
            allext !! (6 * i + k) = Some v) as Hcell.
  { intros i k v Hi Hk Hall Hex. apply allreduce_max_lookup.
    - apply Forall_forall. intros t Ht.
      apply list_elem_of_fmap in Ht as (a & -> & Ha).
      rewrite Forall_forall in Hall. destruct (Hall a Ha) as (y & Hy & Hyv).
      exists y. by rewrite fill_extents_lookup by (by rewrite ?(Hn a Ha)).
    - apply Exists_fmap. apply Exists_exists in Hex as (a & Ha & Hv).
      apply Exists_exists. exists a. split; [done|]. unfold compose.
      by rewrite fill_extents_lookup by (by rewrite ?(Hn a Ha)). }
  intros i Hi. split.
  - intros a0 Ha0 Hheld Hnonneg Hbelow.
    apply list_eq. intros k. destruct (decide (k < 6)) as [Hk|Hk].
    + rewrite patch_extent_lookup by done.
      destruct (lookup_lt_is_Some_2 (GetDimensions (patch_box a0 i)) k) as [v Hv];
        [by rewrite length_GetDimensions|].
      assert (0 ≤ v)%Z as Hv0 by (eapply (Forall_lookup_1 _ _ _ _ Hnonneg Hv)).
      rewrite Hv. apply (Hcell i k v Hi Hk).
      * apply Forall_forall. intros a Ha. unfold extent_row.
        destruct (Empty (patch_box a i)) eqn:He.
        -- exists (-1)%Z. split; [by apply lookup_replicate_2|lia].
        -- destruct (lookup_lt_is_Some_2 (GetDimensions (patch_box a i)) k) as [y Hy];
             [by rewrite length_GetDimensions|].
           exists y. split; [done|].
           apply (Forall2_lookup_lr _ _ _ _ _ _ (Hbelow a Ha He) Hy Hv).
      * apply Exists_exists. exists a0. split; [done|].
        unfold extent_row. by rewrite Hheld.
    + unfold patch_extent. rewrite lookup_take_ge by lia.
      symmetry. apply lookup_ge_None. rewrite length_GetDimensions. lia.
  - intros k Hk (a0 & Ha0 & Hnot) Hneg. apply (Hcell i k (-1)%Z Hi Hk).
    + apply Forall_forall. intros a Ha. unfold extent_row.
      destruct (Empty (patch_box a i)) eqn:He.
      * exists (-1)%Z. split; [by apply lookup_replicate_2|lia].
      * destruct (lookup_lt_is_Some_2 (GetDimensions (patch_box a i)) k) as [y Hy];
          [by rewrite length_GetDimensions|].
        exists y. split; [done|]. specialize (Hneg a y Ha He Hy). lia.
    + apply Exists_exists. exists a0. split; [done|].
      unfold extent_row. rewrite Hnot. by apply lookup_replicate_2.
Qed.

Lemma allreduce_recovers_extents_witness :
  let world :=
    [ AddMeshDataCacheEntry_store (mkPrivateData (Scenario.adaptor Scenario.amr_rank0) ∅ 0 2)
        "mesh" [0]%Z [1; 2]%Z;
      Scenario.rank1_fetched ] in
  let amrs := [Scenario.amr_rank0; Scenario.amr_rank1] in
  ∃ cks allext,
    all_stopped (map (λ pd, GetDomainNesting true pd "mesh") world) = Some cks
    ∧ map fst cks = map (λ a, MPI_Allreduce_MAX (fill_extents a)) amrs
    ∧ collective_step (map fst cks) = Some (replicate (length world) allext)
    ∧ ∀ i, i < sum_list [1; 2] →
        (∀ a, a ∈ amrs → Empty (patch_box a i) = false →
           Forall (λ x, 0 ≤ x)%Z (GetDimensions (patch_box a i)) →
           (∀ b, b ∈ amrs → Empty (patch_box b i) = false →
              Forall2 Z.le (GetDimensions (patch_box b i))
                           (GetDimensions (patch_box a i))) →
           patch_extent allext i = GetDimensions (patch_box a i))
        ∧ (∀ k, k < 6 →
             (∃ a, a ∈ amrs ∧ Empty (patch_box a i) = true) →
             (∀ b v, b ∈ amrs → Empty (patch_box b i) = false →
                GetDimensions (patch_box b i) !! k = Some v → (v < 0)%Z) →
             allext !! (6 * i + k) = Some (-1)%Z).
Proof.
  apply (allreduce_recovers_extents
           [ AddMeshDataCacheEntry_store
               (mkPrivateData (Scenario.adaptor Scenario.amr_rank0) ∅ 0 2)
               "mesh" [0]%Z [1; 2]%Z;
             Scenario.rank1_fetched ]
           "mesh" [Scenario.amr_rank0; Scenario.amr_rank1] [1; 2]).
  - discriminate.
  - constructor; [vm_compute; reflexivity|].
    constructor; [|constructor].
    unfold GetDomainNesting_checks. rewrite scenario_rank1_lookup. reflexivity.
  - intros a Ha. repeat (apply elem_of_cons in Ha as [->|Ha]); try reflexivity.
    by apply elem_of_nil in Ha.
Defined.

(** An instance with a rank whose box of patch 1 has negative corners:
    patch 0, which rank 0 holds, is recovered all the same. *)
Example recovered_beside_negative_patch :
  let a1neg :=
    {| amr_blocksPerLevel := [1; 2]; amr_refinementRatio := [2; 2]%Z;
       GetAMRBox := λ level idx,
         match level, idx with
         | 1, 0 => Scenario.box (-4) (-1) (-4) (-1) 0 0
         | _, _ => Scenario.empty_box
         end;
       amr_leaves := [None; Scenario.grid 2; None] |} in
  patch_extent (allreduce_max (map fill_extents [Scenario.amr_rank0; a1neg])) 0
  = [0; 3; 0; 3; 0; 0]%Z.
Proof. reflexivity. Qed.

Example scenario_reduced_table :
  allreduce_max (map fill_extents [Scenario.amr_rank0; Scenario.amr_rank1])
  = [0; 3; 0; 3; 0; 0; 0; 1; 0; 1; 0; 0; 2; 3; 2; 3; 0; 0]%Z.
Proof. reflexivity. Qed.

(** ** The two-rank scenario end to end *)

(** C2. In the two-rank scenario, after the metadata pass has populated the
    cache, the nesting callback returns on both ranks the same nesting
    object: topological dimension 2, children 1 and 2 for patch 0, and no
    children for patches 1 and 2. *)
Theorem scenario_domain_nesting :
  ∃ world dn,
    populate Scenario.world "mesh" Scenario.ids = Some world
    ∧ GetDomainNesting_all world "mesh" = Some [Some (Nesting dn); Some (Nesting dn)]
    ∧ dn_topdim dn = 2%Z
    ∧ children_of dn 0 = Some [1; 2]%Z
    ∧ children_of dn 1 = Some []
    ∧ children_of dn 2 = Some []
    ∧ map pn_patch (dn_nesting dn) = [0; 1; 2].
Proof.
  eexists. eexists. split; [apply populate_eq|].
  split; [vm_compute; reflexivity|].
  split_and!; reflexivity.
Qed.

(** ** The cell-type table *)

Lemma lookup_entries_cons e (es : list (nat * Z)) t d :
  lookup_entries (e :: es) t d
  = lookup_entries es t (if decide (e.1 = t) then e.2 else d).
Proof. done. Qed.

Lemma fold_insert_lookup (es : list (nat * Z)) (tbl : list Z) t x :
  tbl !! t = Some x →
  fold_left (λ tbl e, <[e.1 := e.2]> tbl) es tbl !! t = Some (lookup_entries es t x).
Proof.
  revert tbl x. induction es as [|e es IH]; intros tbl x Hx; [done|].
  rewrite lookup_entries_cons. cbn [fold_left]. apply IH.
  destruct (decide (e.1 = t)) as [<-|Hne].
  - apply list_lookup_insert_eq. by eapply lookup_lt_Some.
  - by rewrite list_lookup_insert_ne.
Qed.

Lemma celltype_vtk_to_libsim_lookup ncelltypes t :
  t < ncelltypes → celltype_vtk_to_libsim ncelltypes t = Some (libsim_code t).
Proof.
  intros Ht. unfold celltype_vtk_to_libsim, vtk_to_libsim, libsim_code.
  apply fold_insert_lookup. by apply lookup_replicate_2.
Qed.

Lemma lookup_entries_cases (es : list (nat * Z)) t d :
  (lookup_entries es t d = d ∧ t ∉ es.*1) ∨ (t, lookup_entries es t d) ∈ es.
Proof.
  revert d. induction es as [|e es IH]; intros d.
  - left. split; [done|]. apply not_elem_of_nil.
  - rewrite lookup_entries_cons.
    destruct (decide (e.1 = t)) as [He|He].
    + right. destruct (IH e.2) as [[-> _]|Hin]; [|by right].
      destruct e as [t' c]; cbn in *. subst t'. left.
    + destruct (IH d) as [[-> Hnot]|Hin]; [|right; by right].
      left. split; [done|]. cbn. by apply not_elem_of_cons.
Qed.

(** X15. The mapping of cell types is total on the table: a type code inside
    the table yields either the Libsim code assigned to it, which is a
    defined (non-negative) code, or [-1] when no code is assigned. *)
Lemma celltype_vtk_to_libsim_total ncelltypes t :
  t < ncelltypes →
  ∃ c, celltype_vtk_to_libsim ncelltypes t = Some c
       ∧ ((c = (-1)%Z ∧ t ∉ vtk_to_libsim_entries.*1)
          ∨ ((0 ≤ c)%Z ∧ (t, c) ∈ vtk_to_libsim_entries)).
Proof.
  intros Ht. exists (libsim_code t). split; [by apply celltype_vtk_to_libsim_lookup|].
  unfold libsim_code.
  destruct (lookup_entries_cases vtk_to_libsim_entries t (-1)) as [H|H]; [by left|right].
  split; [|done].
  assert (Forall (λ e, 0 ≤ e.2)%Z vtk_to_libsim_entries) as Hall
    by (repeat constructor; done).
  by apply (proj1 (Forall_forall _ _) Hall _ H).
Qed.

(** ** The conversion loop *)

Lemma puts_app st vs ws : puts st (vs ++ ws) = puts st vs ≫= λ st', puts st' ws.
Proof.
  revert st. induction vs as [|v vs IH]; intros st; [done|].
  cbn. destruct (put st v) as [st'|]; [apply IH|done].
Qed.

Lemma puts_ok buf pos vs :
  pos + length vs ≤ length buf →
  puts (buf, pos) vs = Some (write_at buf pos vs, pos + length vs).
Proof.
  revert buf pos. induction vs as [|v vs IH]; intros buf pos Hroom; cbn in *.
  - do 2 f_equal. lia.
  - unfold put. cbn. rewrite decide_True by lia. cbn.
    rewrite IH by (rewrite length_insert; lia). do 2 f_equal. lia.
Qed.

Lemma copy_points_puts conn base idx pts st :
  (∀ j p, pts !! j = Some p → at_Z conn (base + Z.of_nat (idx + j)) = Some p) →
  copy_points conn base idx (length pts) st = puts st (map CInt.to_int pts).
Proof.
  revert idx st. induction pts as [|p pts IH]; intros idx st Hconn; [done|].
  cbn [length copy_points map puts].
  rewrite <- (Nat.add_0_r idx) at 1. rewrite (Hconn 0 p eq_refl). cbn.
  destruct (put st (CInt.to_int p)) as [st'|]; [|done]. cbn.
  apply IH. intros j q Hq. replace (S idx + j) with (idx + S j) by lia.
  by apply Hconn.
Qed.

Lemma length_cell_entries c : length (cell_entries c) = S (length c.2).
Proof. done. Qed.

Lemma cell_offsets_lookup cells pos i c :
  cells !! i = Some c →
  cell_offsets cells pos !! i
  = Some (pos + Z.of_nat (length (concat (map cell_entries (take i cells)))))%Z.
Proof.
  revert pos i. induction cells as [|c0 cells IH]; intros pos i Hc; [done|].
  destruct i as [|i]; cbn [cell_offsets take map concat].
  - cbn. f_equal. lia.
  - cbn in Hc. cbn [lookup list_lookup]. rewrite (IH _ _ Hc).
    f_equal. rewrite (length_app (cell_entries c0)). lia.
Qed.

(** Where the entries of cell [i] lie in the connectivity. *)
Lemma vtkconn_lookup cells i c k :
  cells !! i = Some c →
  k < length (cell_entries c) →
  concat (map cell_entries cells)
    !! (length (concat (map cell_entries (take i cells))) + k)
  = cell_entries c !! k.
Proof.
  intros Hc Hk.
  set (pre := concat (map cell_entries (take i cells))).
  rewrite <- (take_drop_middle cells i c Hc).
  rewrite map_app, concat_app. cbn [map concat]. fold pre.
  rewrite lookup_app_r by lia.
  replace (length pre + k - length pre) with k by lia. by rewrite lookup_app_l.
Qed.

Lemma convert_cell_puts ncelltypes cells cellid c st :
  cells !! cellid = Some c →
  convertible ncelltypes c →
  convert_cell ncelltypes (cells_of cells) cellid st = puts st (converted_cell c).
Proof.
  intros Hc [Htype Hpoint]. destruct c as [t pts]. cbn [fst snd] in *.
  unfold convert_cell, converted_cell. cbn [cellTypes offsets vtkconn cells_of fst snd].
  rewrite list_lookup_fmap, Hc. cbn [fmap option_fmap option_map mbind option_bind fst].
  rewrite celltype_vtk_to_libsim_lookup by done. cbn [mbind option_bind].
  rewrite (cell_offsets_lookup cells 0 cellid _ Hc). cbn [mbind option_bind].
  set (off := length (concat (map cell_entries (take cellid cells)))).
  rewrite Z.add_0_l.
  assert (∀ k, k < S (length pts) →
               at_Z (concat (map cell_entries cells)) (Z.of_nat off + Z.of_nat k)
               = cell_entries (t, pts) !! k) as Hat.
  { intros k Hk. unfold at_Z. destruct (Z.leb_spec 0 (Z.of_nat off + Z.of_nat k)); [|lia].
    replace (Z.to_nat (Z.of_nat off + Z.of_nat k)) with (off + k) by lia.
    by apply vtkconn_lookup. }
  assert (at_Z (concat (map cell_entries cells)) (Z.of_nat off)
          = Some (Z.of_nat (length pts))) as Hcount.
  { pose proof (Hat 0 ltac:(lia)) as H0.
    change (Z.of_nat 0) with 0%Z in H0. by rewrite Z.add_0_r in H0. }
  destruct (decide (libsim_code t ≠ (-1)%Z)) as [Hsup|Hunsup].
  - cbn [puts]. destruct (put st (libsim_code t)) as [st1|]; [|done]. cbn [mbind option_bind].
    rewrite Hcount. cbn [mbind option_bind].
    rewrite Nat2Z.id. apply copy_points_puts.
    intros j p Hj. cbn [Nat.add].
    replace (Z.of_nat off + 1 + Z.of_nat j)%Z with (Z.of_nat off + Z.of_nat (S j))%Z by lia.
    rewrite Hat; [done|]. apply lookup_lt_Some in Hj. lia.
  - destruct pts as [|p pts]; [by destruct Hpoint; [apply dec_stable in Hunsup|]|].
    cbn [puts head default]. destruct (put st _) as [st1|]; [|done]. cbn [mbind option_bind].
    change 1%Z with (Z.of_nat 1).
    rewrite Hat by (cbn; lia). cbn.
    by destruct (put st1 (CInt.to_int p)).
Qed.

Lemma convert_cells_puts ncelltypes cells cellid k st :
  Forall (convertible ncelltypes) cells →
  cellid + k ≤ length cells →
  convert_cells ncelltypes (cells_of cells) cellid k st
  = puts st (concat (map converted_cell (take k (drop cellid cells)))).
Proof.
  intros Hok. revert cellid st. induction k as [|k IH]; intros cellid st Hk; [done|].
  destruct (lookup_lt_is_Some_2 cells cellid) as [c Hc]; [lia|].
  cbn [convert_cells].
  rewrite (convert_cell_puts _ _ _ c) by (done || by eapply Forall_lookup_1).
  rewrite (drop_S _ _ _ Hc). cbn [take map concat]. rewrite puts_app.
  destruct (puts st (converted_cell c)) as [st'|]; [|done]. cbn [mbind option_bind].
  apply IH. lia.
Qed.

Lemma length_converted_cell ncelltypes c :
  convertible ncelltypes c → length (converted_cell c) ≤ length (cell_entries c).
Proof.
  intros [_ Hpoint]. unfold converted_cell. rewrite length_cell_entries.
  destruct (decide _) as [Hsup|Hunsup]; cbn; [by rewrite length_map|].
  apply dec_stable in Hunsup. specialize (Hpoint Hunsup).
  destruct c as [t [|p pts]]; cbn in *; [done|lia].
Qed.

Lemma length_converted_cells ncelltypes cells :
  Forall (convertible ncelltypes) cells →
  length (concat (map converted_cell cells)) ≤ length (concat (map cell_entries cells)).
Proof.
  induction 1 as [|c cells Hc _ IH]; [done|].
  cbn [map concat]. rewrite !length_app.
  pose proof (length_converted_cell _ _ Hc). lia.
Qed.

Lemma connectivity_entries cells :
  GetNumberOfConnectivityEntries (cells_of cells)
  = sum_list (map (λ c, 1 + length c.2) cells).
Proof.
  unfold GetNumberOfConnectivityEntries. cbn [vtkconn cells_of].
  induction cells as [|c cells IH]; [done|].
  cbn [map concat sum_list sum_list_with]. rewrite length_app, IH. done.
Qed.

(** X16. The conversion of a grid all of whose cells are [convertible]: no
    access leaves the buffers; the array handed to VisIt has
    [1 + pointCount] entries per cell of the source; what the loop has
    written, from the start of the array, is the sequence of the converted
    cells, whose length is where the cursor stops. *)
Lemma convert_connectivity_convertible ncelltypes cells indeterminate :
  Forall (convertible ncelltypes) cells →
  ∃ newconn,
    convert_connectivity ncelltypes (cells_of cells) indeterminate
    = Some (newconn, length (concat (map converted_cell cells)))
    ∧ length newconn = sum_list (map (λ c, 1 + length c.2) cells)
    ∧ take (length (concat (map converted_cell cells))) newconn
      = concat (map converted_cell cells).
Proof.
  intros Hok. unfold convert_connectivity.
  destruct (decide (0 < GetNumberOfCells (cells_of cells))) as [Hcells|Hcells].
  2:{ destruct cells; [|cbn in Hcells; lia]. by exists []. }
  rewrite convert_cells_puts by (done || (unfold GetNumberOfCells; cbn; by rewrite length_map)).
  unfold GetNumberOfCells. cbn [cellTypes cells_of]. rewrite length_map, drop_0, firstn_all.
  set (out := concat (map converted_cell cells)).
  set (junk := map indeterminate (seq 0 (GetNumberOfConnectivityEntries (cells_of cells)))).
  assert (length out ≤ length junk) as Hroom.
  { unfold junk. rewrite length_map, length_seq.
    by apply (length_converted_cells ncelltypes). }
  rewrite puts_ok by done. eexists. split; [done|]. split.
  - rewrite length_write_at. unfold junk. rewrite length_map, length_seq.
    apply connectivity_entries.
  - rewrite <- (take_drop (length out) junk) at 1.
    pose proof (write_at_app_mid [] (take (length out) junk) (drop (length out) junk) out)
      as Hw.
    cbn [app length] in Hw. rewrite Hw by (rewrite length_take; lia).
    by rewrite take_app_length.
Qed.

(** C5. The conversion is not total: a cell whose type is not in the table
    and that has no point (an empty cell) makes the fallback read the entry
    after the cell's point count. For a grid made of one empty cell this is
    a read past the connectivity, after which a second entry is stored in
    an array of one entry; in a larger grid the vertex cell written for the
    empty cell refers to the point count of the next cell (3 below), not to
    a point of the cell. *)
Theorem convert_connectivity_empty_cell :
  (∀ ncelltypes indeterminate,
     convert_connectivity ncelltypes
       (cells_of [(CellType.VTK_EMPTY_CELL, [])]) indeterminate = None)
  ∧ convert_connectivity 82
      (cells_of [(CellType.VTK_EMPTY_CELL, []); (CellType.VTK_POLYGON, [0; 1; 2]%Z)])
      (λ _, 0%Z)
    = Some ([7; 3; 7; 0; 0]%Z, 4).
Proof.
  split; [|vm_compute; reflexivity].
  intros ncelltypes indeterminate.
  unfold convert_connectivity, GetNumberOfCells, GetNumberOfConnectivityEntries.
  cbn [cells_of cellTypes vtkconn map fst concat cell_entries snd length app seq
       convert_cells].
  rewrite decide_True by lia.
  destruct ncelltypes as [|n]; [done|].
  pose proof (celltype_vtk_to_libsim_lookup (S n) CellType.VTK_EMPTY_CELL
                ltac:(unfold CellType.VTK_EMPTY_CELL; lia)) as Hct.
  change (libsim_code CellType.VTK_EMPTY_CELL) with (-1)%Z in Hct.
  unfold convert_cell.
  cbn [cells_of cellTypes offsets vtkconn map fst concat cell_entries snd length app
       cell_offsets lookup list_lookup mbind option_bind].
  rewrite Hct. reflexivity.
Qed.

(** ** Comma-separated lists *)

Lemma getline_fields s :
  comma_fields s
  = (if (getline s).2 then (getline s).1.1 :: comma_fields (getline s).1.2
     else [(getline s).1.1]).
Proof.
  induction s as [|c rest IH]; [done|].
  cbn [comma_fields getline]. destruct (Ascii.eqb c ","); [done|].
  rewrite IH. destruct (getline rest) as [[substr remaining] good]. cbn [fst snd].
  by destruct good.
Qed.

Lemma getline_shorter s :
  (getline s).2 = true → String.length (getline s).1.2 < String.length s.
Proof.
  induction s as [|c rest IH]; [done|].
  cbn [getline]. destruct (Ascii.eqb c ","); cbn [fst snd String.length]; [lia|].
  destruct (getline rest) as [[substr remaining] good]. cbn [fst snd] in *.
  intros Hg. specialize (IH Hg). lia.
Qed.

Lemma SplitAtCommas_loop_fields fuel s result :
  String.length s < fuel →
  SplitAtCommas_loop fuel s true result = Some (result ++ comma_fields s).
Proof.
  revert s result. induction fuel as [|fuel IH]; intros s result Hfuel; [lia|].
  cbn [SplitAtCommas_loop]. rewrite (getline_fields s).
  pose proof (getline_shorter s) as Hshort.
  destruct (getline s) as [[substr remaining] good]. cbn [fst snd] in *.
  destruct good.
  - rewrite IH by (specialize (Hshort eq_refl); lia). by rewrite <- app_assoc.
  - by destruct fuel.
Qed.

Lemma comma_fields_nonempty s : comma_fields s ≠ [].
Proof.
  destruct s as [|c rest]; [done|]. cbn [comma_fields].
  destruct (Ascii.eqb c ","); [done|]. by destruct (comma_fields rest).
Qed.

Lemma concat_comma_fields s : String.concat "," (comma_fields s) = s.
Proof.
  induction s as [|c rest IH]; [done|].
  cbn [comma_fields]. pose proof (comma_fields_nonempty rest) as Hne.
  destruct (Ascii.eqb_spec c ",") as [->|Hc].
  - destruct (comma_fields rest) as [|f fs] eqn:Hf; [done|].
    change (String.concat "," ("" :: f :: fs))
      with (String "," (String.concat "," (f :: fs))). by rewrite IH.
  - destruct (comma_fields rest) as [|f fs] eqn:Hf; [done|].
    destruct fs as [|f' fs].
    + cbn in IH. cbn. by rewrite IH.
    + change (String.concat "," (String c f :: f' :: fs))
        with (String c (String.concat "," (f :: f' :: fs))). by rewrite IH.
Qed.

Lemma length_comma_fields s : length (comma_fields s) = S (count_commas s).
Proof.
  induction s as [|c rest IH]; [done|].
  cbn [comma_fields count_commas]. pose proof (comma_fields_nonempty rest) as Hne.
  destruct (Ascii.eqb c ","); cbn [length]; [by rewrite IH|].
  by destruct (comma_fields rest).
Qed.

Lemma comma_fields_comma_free s : Forall (λ f, count_commas f = 0) (comma_fields s).
Proof.
  induction s as [|c rest IH]; [by repeat constructor|].
  cbn [comma_fields]. destruct (Ascii.eqb c ",") eqn:Hc; [by constructor|].
  destruct (comma_fields rest) as [|f fs]; [by repeat constructor; cbn; rewrite Hc|].
  apply Forall_cons in IH as [Hf Hfs]. constructor; [|done].
  cbn. by rewrite Hc, Hf.
Qed.

(** X1. [SplitAtCommas] always returns, with one field more than the text
    has commas; no field contains a comma, and joining the fields with
    commas gives the text back. In particular the result is never empty: an
    empty text yields one empty field. *)
Theorem SplitAtCommas_join (s : string) :
  ∃ fields,
    SplitAtCommas s = Some fields
    ∧ String.concat "," fields = s
    ∧ length fields = S (count_commas s)
    ∧ Forall (λ f, count_commas f = 0) fields.
Proof.
  exists (comma_fields s). split_and!.
  - unfold SplitAtCommas. by rewrite SplitAtCommas_loop_fields by lia.
  - apply concat_comma_fields.
  - apply length_comma_fields.
  - apply comma_fields_comma_free.
Qed.

Lemma SplitAtCommas_eq s : SplitAtCommas s = Some (comma_fields s).
Proof. unfold SplitAtCommas. by rewrite SplitAtCommas_loop_fields by lia. Qed.

Example SplitAtCommas_examples :
  SplitAtCommas "Pseudocolor,Mesh" = Some ["Pseudocolor"; "Mesh"]
  ∧ SplitAtCommas "" = Some [""]
  ∧ SplitAtCommas "a," = Some ["a"; ""].
Proof. split_and!; reflexivity. Qed.

(** ** Registering renders and exports *)

Section PlotRecordFacts.

Context {double LibsimImageProperties : Type}.
Variables (zero one : double) (default_imageProps : LibsimImageProperties).
Variable SetFilename : LibsimImageProperties → string → LibsimImageProperties.

(** X2. [AddRender] records the plot exactly when the lists of plot types
    and of plot variables have the same number of comma-separated fields
    (the list of plot types is never empty, so that test of the source never
    decides), and returns true exactly when it recorded the plot or a
    session file was named. The record holds the fields of both lists. *)
Theorem AddRender_records_iff (plots : list (PlotRecord double LibsimImageProperties))
    (freq : Z) (session_ plts plotVars_ : string) (slice_ project2d_ : bool)
    (origin_ normal_ : double * double * double) (imgProps : LibsimImageProperties) :
  ∃ p,
    AddRender double zero one LibsimImageProperties default_imageProps
      plots freq session_ plts plotVars_ slice_ project2d_ origin_ normal_ imgProps
    = Some (bool_decide (count_commas plts = count_commas plotVars_)
              || negb (String.eqb session_ ""),
            if bool_decide (count_commas plts = count_commas plotVars_)
            then plots ++ [p] else plots)
    ∧ pr_plots _ _ p = comma_fields plts
    ∧ plotVars _ _ p = comma_fields plotVars_
    ∧ doExport _ _ p = false.
Proof.
  unfold AddRender. rewrite !SplitAtCommas_eq. cbn [mbind option_bind].
  exists (mkPlotRecord _ _ freq imgProps session_ (comma_fields plts)
            (comma_fields plotVars_) false slice_ project2d_ origin_ normal_).
  split; [|done].
  rewrite (bool_decide_eq_false_2 (comma_fields plts = []))
    by apply comma_fields_nonempty.
  rewrite (bool_decide_ext (length (comma_fields plts) = length (comma_fields plotVars_))
             (count_commas plts = count_commas plotVars_))
    by (rewrite !length_comma_fields; lia).
  cbn [negb andb].
  destruct (bool_decide (count_commas plts = count_commas plotVars_));
    by destruct (String.eqb session_ "").
Qed.

(** X3. [AddExport] always records a plot and always returns true, whatever
    its arguments: [plotTypes[0]] exists because [SplitAtCommas] never
    returns an empty list, and for the same reason neither emptiness test
    can fail. Only the first plot type is kept. *)
Theorem AddExport_always_records (plots : list (PlotRecord double LibsimImageProperties))
    (freq : Z) (session_ plts plotVars_ : string) (slice_ project2d_ : bool)
    (origin_ normal_ : double * double * double) (filename : string) :
  ∃ p,
    AddExport double zero one LibsimImageProperties default_imageProps SetFilename
      plots freq session_ plts plotVars_ slice_ project2d_ origin_ normal_ filename
    = Some (true, plots ++ [p])
    ∧ pr_plots _ _ p = take 1 (comma_fields plts)
    ∧ length (pr_plots _ _ p) = 1
    ∧ plotVars _ _ p = comma_fields plotVars_
    ∧ doExport _ _ p = true
    ∧ imageProps _ _ p = SetFilename default_imageProps filename.
Proof.
  unfold AddExport. rewrite !SplitAtCommas_eq. cbn [mbind option_bind].
  pose proof (comma_fields_nonempty plts) as Hne.
  destruct (comma_fields plts) as [|first rest] eqn:Hf; [done|].
  cbn [lookup list_lookup mbind option_bind].
  exists (mkPlotRecord _ _ freq (SetFilename default_imageProps filename) session_
            [first] (comma_fields plotVars_) true slice_ project2d_ origin_ normal_).
  split; [|done].
  rewrite (bool_decide_eq_false_2 ([first] = [])) by done.
  rewrite (bool_decide_eq_false_2 (comma_fields plotVars_ = []))
    by apply comma_fields_nonempty.
  cbn [negb andb]. by destruct (String.eqb session_ "").
Qed.

End PlotRecordFacts.

(** ** File-name suffixes *)

Lemma string_app_cons c a b : String c a +:+ b = String c (a +:+ b).
Proof. done. Qed.

Lemma string_length_app a b :
  String.length (a +:+ b) = String.length a + String.length b.
Proof.
  induction a as [|c a IH]; [done|].
  rewrite string_app_cons. cbn [String.length]. by rewrite IH.
Qed.

Lemma string_app_assoc a b c : (a +:+ b) +:+ c = a +:+ (b +:+ c).
Proof.
  induction a as [|x a IH]; [done|]. rewrite !string_app_cons. by f_equal.
Qed.

Lemma string_app_nil_r a : a +:+ "" = a.
Proof.
  induction a as [|x a IH]; [done|]. rewrite string_app_cons. by f_equal.
Qed.

Lemma substring_0_0 s : String.substring 0 0 s = "".
Proof. by destruct s. Qed.

Lemma substring_app_l a b : String.substring 0 (String.length a) (a +:+ b) = a.
Proof.
  induction a as [|c a IH]; [apply substring_0_0|].
  rewrite string_app_cons. cbn [String.length String.substring]. by f_equal.
Qed.

Lemma substring_all b : String.substring 0 (String.length b) b = b.
Proof.
  induction b as [|c b IH]; [done|]. cbn [String.length String.substring]. by f_equal.
Qed.

Lemma substring_app_r a b :
  String.substring (String.length a) (String.length b) (a +:+ b) = b.
Proof.
  induction a as [|c a IH]; [apply substring_all|].
  rewrite string_app_cons. cbn [String.length String.substring]. done.
Qed.

Lemma substring_split s k :
  k ≤ String.length s →
  s = String.substring 0 (String.length s - k) s
      +:+ String.substring (String.length s - k) k s.
Proof.
  revert k. induction s as [|c s IH]; intros k Hk.
  - cbn [String.length] in Hk. by replace k with 0 by lia.
  - cbn [String.length] in *. destruct (decide (k = S (String.length s))) as [->|Hne].
    + rewrite Nat.sub_diag, substring_0_0.
      change (S (String.length s)) with (String.length (String c s)).
      by rewrite substring_all.
    + replace (S (String.length s) - k) with (S (String.length s - k)) by lia.
      cbn [String.substring]. rewrite string_app_cons.
      f_equal. apply IH. lia.
Qed.

Lemma string_app_inj_r p q e1 e2 :
  String.length e1 = String.length e2 → p +:+ e1 = q +:+ e2 → p = q ∧ e1 = e2.
Proof.
  intros Hlen. revert q. induction p as [|c p IH]; intros q Heq.
  - destruct q as [|d q]; [done|].
    apply (f_equal String.length) in Heq.
    rewrite !string_length_app in Heq. cbn [String.length] in Heq. lia.
  - destruct q as [|d q].
    + apply (f_equal String.length) in Heq.
      rewrite !string_length_app in Heq. cbn [String.length] in Heq. lia.
    + rewrite !string_app_cons in Heq.
      injection Heq as -> Heq. destruct (IH _ Heq) as [-> ->]. done.
Qed.

(** [EndsWith] holds exactly of a non-empty extension that is a suffix. *)
Lemma EndsWith_spec s ext :
  EndsWith s ext = true ↔ ext ≠ "" ∧ ∃ p, s = p +:+ ext.
Proof.
  unfold EndsWith. split.
  - destruct (Nat.leb_spec (String.length ext) (String.length s)) as [Hle|]; [|done].
    destruct (String.eqb_spec ext "") as [|Hne]; [done|]. cbn [negb andb].
    intros Heq%String.eqb_eq. split; [done|].
    exists (String.substring 0 (String.length s - String.length ext) s).
    pose proof (substring_split s (String.length ext) Hle) as Hs.
    by rewrite Heq in Hs.
  - intros [Hne [p ->]]. rewrite string_length_app.
    destruct (Nat.leb_spec (String.length ext) (String.length p + String.length ext));
      [|lia].
    destruct (String.eqb_spec ext "") as [|_]; [done|]. cbn [negb andb].
    replace (String.length p + String.length ext - String.length ext)
      with (String.length p) by lia.
    rewrite substring_app_r. apply String.eqb_refl.
Qed.

Lemma EndsWith_app base ext : ext ≠ "" → EndsWith (base +:+ ext) ext = true.
Proof. intros Hne. apply EndsWith_spec. eauto. Qed.

Lemma EndsWith_tail_neq base a1 t1 a2 t2 :
  String.length t1 = String.length t2 → t1 ≠ t2 →
  EndsWith (base +:+ (a1 +:+ t1)) (a2 +:+ t2) = false.
Proof.
  intros Hlen Hne. apply not_true_is_false. intros [_ [p Hp]]%EndsWith_spec.
  rewrite <- !string_app_assoc in Hp.
  by destruct (string_app_inj_r _ _ _ _ Hlen Hp).
Qed.

Lemma strip_suffix base ext k :
  k = String.length ext →
  String.substring 0 (String.length (base +:+ ext) - k) (base +:+ ext) = base.
Proof.
  intros ->. rewrite string_length_app.
  replace (String.length base + String.length ext - String.length ext)
    with (String.length base) by lia.
  apply substring_app_l.
Qed.

Lemma length_substring n m s :
  n + m ≤ String.length s → String.length (String.substring n m s) = m.
Proof.
  revert n m. induction s as [|c s IH]; intros n m Hlen.
  - change (String.length "") with 0 in Hlen. destruct n, m; (done || lia).
  - cbn [String.length] in Hlen. destruct n as [|n]; cbn [String.substring].
    + destruct m as [|m]; [done|]. cbn [String.length]. rewrite IH; lia.
    + apply IH. lia.
Qed.

Lemma EndsWith_last3_neq base e1 e2 :
  3 ≤ String.length e1 → 3 ≤ String.length e2 →
  String.substring (String.length e1 - 3) 3 e1
    ≠ String.substring (String.length e2 - 3) 3 e2 →
  EndsWith (base +:+ e1) e2 = false.
Proof.
  intros H1 H2 Hne.
  rewrite (substring_split e1 3 H1), (substring_split e2 3 H2).
  apply EndsWith_tail_neq; [|done].
  rewrite !length_substring; lia.
Qed.

(** One step of the chain of tests in [DetermineExportFilename] on a
    name that ends in the extension [e]. *)
Ltac decide_EndsWith base e :=
  repeat match goal with
         | |- context [EndsWith (base +:+ e) ?e2] =>
             first [ rewrite (EndsWith_last3_neq base e e2)
                       by (cbn; first [lia | discriminate])
                   | rewrite (EndsWith_app base e) by discriminate ]
         end;
  cbn [orb]; cbv iota;
  try rewrite (strip_suffix base e) by reflexivity.

(** X4. [DetermineExportFilename] on a name that ends in one of the
    extensions it strips (.silo, .raw, .tec, .plt, .ply, .stl, .obj, .bov)
    returns the name without that extension and the format of the extension;
    a name in .xdb is kept whole; and for every name the result is the name
    with one of those extensions removed, or the name itself. *)
Theorem DetermineExportFilename_strips :
  Forall (λ ef, ∀ base, DetermineExportFilename (base +:+ ef.1) = (base, ef.2))
         stripped_extensions
  ∧ (∀ base, DetermineExportFilename (base +:+ ".xdb")
             = (base +:+ ".xdb", "FieldViewXDB_1.0"))
  ∧ (∀ f, ∃ ext, f = (DetermineExportFilename f).1 +:+ ext
                 ∧ (ext = "" ∨ (ext, (DetermineExportFilename f).2) ∈ stripped_extensions)).
Proof.
  split_and!.
  - unfold stripped_extensions.
    repeat apply Forall_cons_2; [..|apply Forall_nil_2]; intros base; cbn [fst snd];
      unfold DetermineExportFilename;
      match goal with |- context [base +:+ ?e] => decide_EndsWith base e end;
      reflexivity.
  - intros base. unfold DetermineExportFilename.
    decide_EndsWith base ".xdb". reflexivity.
  - intros f. unfold DetermineExportFilename.
    repeat match goal with
           | |- context [EndsWith f ?e] =>
               let H := fresh "H" in
               destruct (EndsWith f e) eqn:H;
               [apply EndsWith_spec in H as [_ [base ->]]|]
           end;
      cbn [orb]; cbv iota; cbn [fst snd];
      try (match goal with
           | |- context [String.substring 0 _ (?base +:+ ?e)] =>
               rewrite (strip_suffix base e) by reflexivity; exists e
           end;
           split; [reflexivity|right; unfold stripped_extensions; set_solver]).
    all: exists ""; split; [by rewrite string_app_nil_r|by left].
Qed.

(** ** What [FetchMesh] stores and what it leaves alone *)

Lemma length_SetDataSet mi idx ds : length (datasets (SetDataSet mi idx ds)) = length (datasets mi).
Proof. unfold SetDataSet. case_match; [cbn; apply length_insert|done]. Qed.

(** The data sets after the unpacking loop: the loop fills the vector
    from position [j] on with the data-set nodes, in order, and stops at
    the end of the vector. *)
Lemma unpack_nodes_datasets nodes mi j :
  (Z.of_nat (length (datasets mi)) ≤ CInt.INT_MAX)%Z →
  (Z.of_nat (j + length nodes) ≤ CInt.INT_MAX)%Z →
  datasets (unpack_nodes mi (Z.of_nat j) nodes)
  = take j (datasets mi)
    ++ take (length (datasets mi) - j) (map Some (dataset_leaves nodes))
    ++ drop (j + length (dataset_leaves nodes)) (datasets mi).
Proof.
  revert mi j. induction nodes as [|node nodes IH]; intros mi j Hn Hj.
  - cbn. rewrite take_nil, Nat.add_0_r. cbn. by rewrite take_drop.
  - cbn [length] in Hj.
    assert (unpack_nodes mi (Z.of_nat j) (node :: nodes)
            = match node with
              | Some (LeafDataSet ds) =>
                  unpack_nodes (SetDataSet mi (Z.of_nat j) (Some ds)) (Z.of_nat (S j)) nodes
              | _ => unpack_nodes mi (Z.of_nat j) nodes
              end) as ->.
    { destruct node as [[ds|]|]; cbn [unpack_nodes]; [|done..].
      rewrite CIntFacts.add_id by (unfold CInt.is_int, CInt.INT_MIN, CInt.INT_MAX in *; lia).
      do 2 f_equal. lia. }
    destruct node as [[ds|]|];
      [|change (dataset_leaves (?n :: nodes)) with (dataset_leaves nodes); apply IH; lia..].
    change (dataset_leaves (_ :: nodes)) with (ds :: dataset_leaves nodes).
    rewrite IH by (rewrite ?length_SetDataSet; lia).
    rewrite length_SetDataSet. unfold SetDataSet.
    rewrite CIntFacts.to_int_id
      by (unfold CInt.is_int, CInt.INT_MIN, CInt.INT_MAX in *; lia).
    destruct (Z.leb_spec 0 (Z.of_nat j)); [|lia]. cbn [andb].
    destruct (Z.ltb_spec (Z.of_nat j) (Z.of_nat (length (datasets mi)))) as [Hlt|Hge];
      cbn [datasets].
    + rewrite Nat2Z.id.
      destruct (lookup_lt_is_Some_2 (datasets mi) j) as [old Hold]; [lia|].
      rewrite (take_S_r (<[j:=Some ds]> (datasets mi)) j (Some ds))
        by (apply list_lookup_insert_eq; lia).
      rewrite take_insert_ge by lia. rewrite drop_insert_lt by lia.
      replace (length (datasets mi) - j) with (S (length (datasets mi) - S j)) by lia.
      cbn [map take length]. rewrite <- app_assoc. cbn [app].
      by replace (j + S (length (dataset_leaves nodes)))
        with (S j + length (dataset_leaves nodes)) by lia.
    + rewrite (take_ge (datasets mi) (S j)), (take_ge (datasets mi) j) by lia.
      replace (length (datasets mi) - S j) with 0 by lia.
      replace (length (datasets mi) - j) with 0 by lia.
      rewrite !take_0, !drop_ge by (cbn; lia). done.
Qed.

Lemma length_unpack_nodes nodes mi localId :
  length (datasets (unpack_nodes mi localId nodes)) = length (datasets mi).
Proof.
  revert mi localId. induction nodes as [|[[ds|]|] nodes IH]; intros mi localId; cbn;
    [done| |apply IH..].
  by rewrite IH, length_SetDataSet.
Qed.

(** What [FetchMesh] changes in the cache entry of the mesh: nothing but
    the data object and the data sets, whose number stays. *)
Lemma FetchMesh_entry pd name mi :
  meshData pd !! name = Some mi →
  ∃ mi', meshData (FetchMesh pd name) !! name = Some mi'
         ∧ doms_this_rank mi' = doms_this_rank mi
         ∧ ndoms_per_rank mi' = ndoms_per_rank mi
         ∧ datasetsHaveGhostCells mi' = datasetsHaveGhostCells mi
         ∧ length (datasets mi') = length (datasets mi).
Proof.
  intros Hmi. unfold FetchMesh. rewrite Hmi.
  destruct (GetMesh _ _ _) as [status obj].
  destruct (status =? 0)%Z; [|by exists mi].
  cbn [meshData set_meshData]. rewrite lookup_insert_eq. eexists. split; [done|].
  destruct obj as [o|]; [|done].
  destruct (composite_nodes o) as [nodes|].
  - destruct (unpack_nodes_frame nodes (SetDataObject mi (Some o)) 0) as (-> & -> & -> & _).
    by rewrite length_unpack_nodes.
  - destruct o; try done. rewrite length_SetDataSet. unfold SetDataSet. by case_match.
Qed.

Lemma FetchMesh_no_entry pd name :
  meshData pd !! name = None → FetchMesh pd name = pd.
Proof. intros H. unfold FetchMesh. by rewrite H. Qed.

Lemma FetchMesh_comm_size pd name : comm_size (FetchMesh pd name) = comm_size pd.
Proof.
  unfold FetchMesh. destruct (meshData pd !! name); [|done].
  destruct (GetMesh _ _ _) as [status obj]. by destruct (status =? 0)%Z.
Qed.

(** X5. [FetchMesh] never changes what the domain queries answer, for
    any mesh: the total number of domains, the list of local domains, the
    local index of a global domain and the number of local data sets are the
    same before and after. *)
Theorem FetchMesh_keeps_domain_indexing (pd : PrivateData) (name other : string) (dom : Z) :
  GetTotalDomains (FetchMesh pd name) other = GetTotalDomains pd other
  ∧ GetDomains (FetchMesh pd name) other = GetDomains pd other
  ∧ GetLocalDomain (FetchMesh pd name) other dom = GetLocalDomain pd other dom
  ∧ GetNumDataSets (FetchMesh pd name) other = GetNumDataSets pd other.
Proof.
  unfold GetTotalDomains, GetDomains, GetLocalDomain, GetNumDataSets.
  rewrite FetchMesh_comm_size.
  destruct (decide (name = other)) as [<-|Hne].
  - destruct (meshData pd !! name) as [mi|] eqn:Hmi.
    + destruct (FetchMesh_entry pd name mi Hmi) as (mi' & -> & -> & -> & _ & _). done.
    + by rewrite (FetchMesh_no_entry pd name Hmi), Hmi.
  - by rewrite FetchMesh_lookup_ne by done.
Qed.

(** ** From the metadata pass to the mesh callback *)

Lemma metadata_nodes_leaves flat pos nodes :
  (metadata_nodes flat pos nodes).1 = dataset_leaves nodes
  ∧ length (metadata_nodes flat pos nodes).2 = length (dataset_leaves nodes).
Proof.
  revert pos. induction nodes as [|[[ds|]|] nodes IH]; intros pos; [done| |apply IH..].
  cbn [metadata_nodes]. destruct (IH (S pos)) as [IH1 IH2].
  destruct (metadata_nodes flat (S pos) nodes) as [dss ids]. cbn in *.
  change (dataset_leaves (_ :: nodes)) with (ds :: dataset_leaves nodes).
  cbn. by rewrite IH1, IH2.
Qed.

Lemma length_dataset_leaves nodes : length (dataset_leaves nodes) ≤ length nodes.
Proof.
  induction nodes as [|[[ds|]|] nodes IH]; [done|..];
    [change (dataset_leaves (_ :: nodes)) with (ds :: dataset_leaves nodes)
    |change (dataset_leaves (_ :: nodes)) with (dataset_leaves nodes)..]; cbn; lia.
Qed.

(** The search loop stops at the position of the id when ids do not
    repeat. *)
Lemma find_domain_NoDup gdom (doms : list Z) (k : nat) i :
  NoDup doms → doms !! k = Some gdom →
  find_domain gdom doms i = (i + Z.of_nat k)%Z.
Proof.
  revert k i. induction doms as [|d doms IH]; intros k i Hnd Hk; [done|].
  apply NoDup_cons in Hnd as [Hd Hnd]. cbn [find_domain].
  destruct k as [|k]; cbn in Hk.
  - injection Hk as ->. rewrite Z.eqb_refl. lia.
  - destruct (Z.eqb_spec gdom d) as [->|Hne].
    + by apply list_elem_of_lookup_2 in Hk.
    + rewrite (IH k) by done. lia.
Qed.

(** The entry of a mesh right after [AddMeshDataCacheEntry] and the first
    [FetchMesh] of a composite: the ids are kept, and the data sets are the
    data-set nodes of the composite in traversal order, as many as there
    are ids. *)
Lemma FetchMesh_fresh_entry pd name ids recv obj nodes :
  GetMesh (da pd) name false = (0%Z, Some obj) →
  composite_nodes obj = Some nodes →
  (Z.of_nat (length nodes) ≤ CInt.INT_MAX)%Z →
  (Z.of_nat (length ids) ≤ CInt.INT_MAX)%Z →
  ∃ mi', meshData (FetchMesh (AddMeshDataCacheEntry_store pd name ids recv) name) !! name
         = Some mi'
         ∧ doms_this_rank mi' = ids
         ∧ datasets mi'
           = take (length ids) (map Some (dataset_leaves nodes))
             ++ replicate (length ids - length (dataset_leaves nodes)) None.
Proof.
  intros Hget Hnodes Hlen Hids. unfold FetchMesh, AddMeshDataCacheEntry_store.
  cbn [meshData set_meshData da]. rewrite lookup_insert_eq, Hget. cbn [Z.eqb].
  rewrite Hnodes. cbn [meshData set_meshData]. rewrite lookup_insert_eq.
  eexists. split; [done|].
  destruct (unpack_nodes_frame nodes
              (SetDataObject
                 {| dataObj := None; datasets := replicate (length ids) None;
                    ndoms_per_rank := write_at (replicate (comm_size pd) 0%Z) 0 recv;
                    doms_this_rank := ids; datasetsHaveGhostCells := false |}
                 (Some obj)) 0) as (_ & -> & _ & _).
  split; [done|].
  rewrite (unpack_nodes_datasets nodes _ 0); cbn [SetDataObject datasets];
    rewrite ?length_replicate; [|lia..].
  rewrite take_0, Nat.sub_0_r, drop_replicate. done.
Qed.

(** X6. The mesh callback serves the right block. When the cache entry of
    a mesh was made from the ids the metadata pass collected over a
    composite (the flat indices of its data-set nodes, all different), and
    the data adaptor hands out that composite, the callback [GetMesh] for
    the domain whose id is the [k]-th collected one converts the [k]-th
    data-set node of the composite. The first call fetches the mesh into
    the cache; a call after it is served from the cache, which it leaves
    as it is. *)
Theorem Libsim_GetMesh_serves_leaf (to_mesh : vtkDataSet → visit_handle)
    (pd : PrivateData) (name : string) (flat : nat → Z) (obj : vtkDataObject)
    (nodes : list (option Leaf)) (recv : list Z) (k : nat) (ds : vtkDataSet) (dom : Z) :
  GetMesh (da pd) name false = (0%Z, Some obj) →
  composite_nodes obj = Some nodes →
  (Z.of_nat (length nodes) ≤ CInt.INT_MAX)%Z →
  NoDup (metadata_nodes flat 0 nodes).2 →
  (metadata_nodes flat 0 nodes).2 !! k = Some (CInt.to_uint dom) →
  dataset_leaves nodes !! k = Some ds →
  let pd0 := AddMeshDataCacheEntry_store pd name (metadata_nodes flat 0 nodes).2 recv in
  Libsim_GetMesh to_mesh pd0 dom name = (FetchMesh pd0 name, Some (to_mesh ds))
  ∧ Libsim_GetMesh to_mesh (FetchMesh pd0 name) dom name
    = (FetchMesh pd0 name, Some (to_mesh ds)).
Proof.
  intros Hget Hnodes Hlen Hnd Hid Hds pd0.
  destruct (metadata_nodes_leaves flat 0 nodes) as [_ Hn].
  pose proof (length_dataset_leaves nodes) as Hle.
  set (ids := (metadata_nodes flat 0 nodes).2) in *.
  pose proof (lookup_lt_Some _ _ _ Hid) as Hk.
  assert (CInt.to_int (Z.of_nat (length ids)) = Z.of_nat (length ids)) as Hint
    by (apply CIntFacts.to_int_id; unfold CInt.is_int, CInt.INT_MIN, CInt.INT_MAX in *; lia).
  destruct (FetchMesh_fresh_entry pd name ids recv obj nodes Hget Hnodes Hlen)
    as (mi' & Hmi' & Hdoms & Hdss); [lia|]. fold pd0 in Hmi'.
  rewrite Hn, Nat.sub_diag, app_nil_r, take_ge in Hdss by (rewrite length_map; lia).
  assert (GetLocalDomain pd0 name dom = Z.of_nat k) as Hloc0.
  { unfold GetLocalDomain, pd0, AddMeshDataCacheEntry_store. cbn [meshData set_meshData].
    rewrite lookup_insert_eq. cbn [doms_this_rank]. rewrite Hint, Nat2Z.id, take_ge by lia.
    by rewrite (find_domain_NoDup _ ids k). }
  assert (GetLocalDomain (FetchMesh pd0 name) name dom = Z.of_nat k) as Hloc1.
  { unfold GetLocalDomain. rewrite Hmi', Hdoms, Hint, Nat2Z.id, take_ge by lia.
    by rewrite (find_domain_NoDup _ ids k). }
  assert (GetDataSet pd0 name (Z.of_nat k) = None) as Hds0.
  { rewrite GetDataSet_cases. unfold pd0, AddMeshDataCacheEntry_store. cbn [meshData set_meshData].
    rewrite lookup_insert_eq. cbn [datasets]. case_match; [|done].
    rewrite Nat2Z.id, lookup_replicate_2 by lia. done. }
  assert (GetDataSet (FetchMesh pd0 name) name (Z.of_nat k) = Some ds) as Hds1.
  { rewrite GetDataSet_cases. rewrite Hmi', Hdss, length_map, <- Hn, Hint.
    destruct (Z.leb_spec 0 (Z.of_nat k)); [|lia].
    destruct (Z.ltb_spec (Z.of_nat k) (Z.of_nat (length ids))); [|lia].
    cbn [andb]. by rewrite Nat2Z.id, list_lookup_fmap, Hds. }
  unfold Libsim_GetMesh. rewrite Hloc0, Hloc1, Hds0, Hds1.
  by destruct (Z.leb_spec 0 (Z.of_nat k)); [|lia].
Qed.

Lemma Libsim_GetMesh_serves_leaf_witness :
  let to_mesh := λ ds : vtkDataSet, Z.of_N (ds_addr ds) in
  let pd0 := AddMeshDataCacheEntry_store
               (mkPrivateData (Scenario.adaptor Scenario.amr_rank1) ∅ 1 2)
               "mesh" [1; 2]%Z [1; 2]%Z in
  Libsim_GetMesh to_mesh pd0 2 "mesh" = (FetchMesh pd0 "mesh", Some 3%Z)
  ∧ Libsim_GetMesh to_mesh (FetchMesh pd0 "mesh") 2 "mesh"
    = (FetchMesh pd0 "mesh", Some 3%Z).
Proof.
  apply (Libsim_GetMesh_serves_leaf (λ ds, Z.of_N (ds_addr ds))
           (mkPrivateData (Scenario.adaptor Scenario.amr_rank1) ∅ 1 2) "mesh"
           Z.of_nat (OverlappingAMR Scenario.amr_rank1)
           [None; Scenario.grid 2; Scenario.grid 3] [1; 2]%Z 1
           (mkDataSet ImageData 3) 2).
  - reflexivity.
  - reflexivity.
  - unfold CInt.INT_MAX. cbn. lia.
  - cbn. apply NoDup_cons. split; [|apply NoDup_singleton].
    apply not_elem_of_cons. split; [lia|apply not_elem_of_nil].
  - reflexivity.
  - reflexivity.
Defined.

(** ** The election of the broadcasting rank *)

Lemma find_bcast_rank_spec (ndoms : list Z) (i n : nat) :
  i + n ≤ length ndoms →
  ∃ b, find_bcast_rank ndoms i n = Some b
       ∧ ((b = (-1)%Z
           ∧ ∀ j x, i ≤ j < i + n → ndoms !! j = Some x → (x ≤ 0)%Z)
          ∨ (∃ r x, b = Z.of_nat r ∧ i ≤ r < i + n ∧ ndoms !! r = Some x ∧ (0 < x)%Z
                    ∧ ∀ j y, i ≤ j < r → ndoms !! j = Some y → (y ≤ 0)%Z)).
Proof.
  revert i. induction n as [|n IH]; intros i Hlen; cbn [find_bcast_rank].
  - eexists. split; [done|]. left. split; [done|]. intros; lia.
  - destruct (lookup_lt_is_Some_2 ndoms i) as [x Hx]; [lia|]. rewrite Hx. cbn.
    destruct (Z.ltb_spec 0 x) as [Hpos|Hnpos].
    + eexists. split; [done|]. right. exists i, x. repeat split; try done; lia.
    + destruct (IH (S i)) as (b & -> & Hb); [lia|]. eexists. split; [done|].
      destruct Hb as [[-> Hall]|(r & y & -> & Hr & Hy & Hpos & Hlow)].
      * left. split; [done|]. intros j z Hj Hz.
        destruct (decide (j = i)) as [->|]; [congruence|]. apply (Hall j); [lia|done].
      * right. exists r, y. repeat split; try done; try lia. intros j z Hj Hz.
        destruct (decide (j = i)) as [->|]; [congruence|]. apply (Hlow j); [lia|done].
Qed.

Lemma map_snd_zip {A B C} (f : B → C) (l1 : list A) (l2 : list B) :
  length l2 ≤ length l1 → map (λ y, f y.2) (zip l1 l2) = map f l2.
Proof. intros H. rewrite <- (snd_zip l1 l2) at 2 by done. by rewrite map_map. Qed.

(** X7. The election of the broadcasting rank in [GetMetaData]. After all
    ranks of the communicator have entered a mesh in their caches, every
    rank elects the same rank: the lowest one that has a domain of the
    mesh, or none (-1, the mesh is skipped) exactly when no rank has one. *)
Theorem bcast_rank_agreed (world : list PrivateData) (name : string)
    (ids : list (list Z)) :
  world_ok world →
  length ids = length world →
  Forall (λ d, (Z.of_nat (length d) ≤ CInt.INT_MAX)%Z) ids →
  ∃ pds b,
    populate world name ids = Some pds
    ∧ (∀ r pd, pds !! r = Some pd →
         ∃ mi, meshData pd !! name = Some mi ∧ bcast_rank pd mi = Some b)
    ∧ ((b = (-1)%Z ∧ Forall (λ d, d = []) ids)
       ∨ (∃ r d, b = Z.of_nat r ∧ ids !! r = Some d ∧ d ≠ []
                 ∧ ∀ j, j < r → ids !! j = Some [])).
Proof.
  intros Hworld Hlen Hfit. rewrite populate_eq.
  rewrite (map_snd_zip (λ d, CInt.to_int (Z.of_nat (length d)))) by lia.
  set (recv := map (λ d, CInt.to_int (Z.of_nat (length d))) ids).
  assert (length recv = length world) as Hrecv by (unfold recv; by rewrite length_map).
  assert (∀ j d, ids !! j = Some d → recv !! j = Some (Z.of_nat (length d))) as Hrd.
  { intros j d Hd. unfold recv. rewrite list_lookup_fmap, Hd. cbn. f_equal.
    apply CIntFacts.to_int_id. pose proof (Forall_lookup_1 _ _ _ _ Hfit Hd) as Hf.
    unfold CInt.is_int, CInt.INT_MIN, CInt.INT_MAX in *. cbn in Hf. lia. }
  destruct (find_bcast_rank_spec recv 0 (length world)) as (b & Hb & Hcase); [lia|].
  eexists _, b. split; [done|]. split.
  - intros r pd Hpd. apply list_lookup_fmap_Some in Hpd as ([pd0 d] & -> & Hz).
    apply lookup_zip_with_Some in Hz as (pd1 & d1 & [= <- <-] & Hw & Hd).
    destruct (Hworld r pd0 Hw) as [_ Hsize].
    unfold AddMeshDataCacheEntry_store. cbn [meshData set_meshData fst snd].
    rewrite lookup_insert_eq. eexists. split; [done|].
    unfold bcast_rank, set_meshData. cbn [ndoms_per_rank comm_size]. rewrite Hsize.
    rewrite write_at_all by (by rewrite length_replicate). done.
  - destruct Hcase as [[-> Hall]|(r & x & -> & Hr & Hx & Hpos & Hlow)].
    + left. split; [done|]. apply Forall_lookup_2. intros j d Hd.
      pose proof (lookup_lt_Some _ _ _ Hd) as Hj.
      specialize (Hall j _ ltac:(lia) (Hrd j d Hd)).
      destruct d; [done|cbn in Hall; lia].
    + right. destruct (lookup_lt_is_Some_2 ids r) as [d Hd]; [lia|].
      exists r, d. split; [done|]. split; [done|]. split.
      * rewrite (Hrd r d Hd) in Hx. injection Hx as <-. destruct d; [cbn in Hpos; lia|done].
      * intros j Hj. destruct (lookup_lt_is_Some_2 ids j) as [dj Hdj]; [lia|].
        specialize (Hlow j _ ltac:(lia) (Hrd j dj Hdj)).
        rewrite Hdj. destruct dj; [done|cbn in Hlow; lia].
Qed.

Lemma bcast_rank_agreed_witness :
  ∃ pds b,
    populate Scenario.world "mesh" [[]; [1; 2]%Z] = Some pds
    ∧ (∀ r pd, pds !! r = Some pd →
         ∃ mi, meshData pd !! "mesh" = Some mi ∧ bcast_rank pd mi = Some b)
    ∧ ((b = (-1)%Z ∧ Forall (λ d, d = []) [[]; [1; 2]%Z])
       ∨ (∃ r d, b = Z.of_nat r ∧ [[]; [1; 2]%Z] !! r = Some d ∧ d ≠ []
                 ∧ ∀ j, j < r → [[]; [1; 2]%Z] !! j = Some [])).
Proof.
  apply (bcast_rank_agreed Scenario.world "mesh" [[]; [1; 2]%Z]).
  - intros [|[|r]] pd; cbn; intros [= <-]; done.
  - reflexivity.
  - repeat constructor; vm_compute; discriminate.
Defined.

(** ** A mesh that is a single data set *)

(** X8. A mesh whose data object is a plain data set (not a composite)
    gets no domain: the metadata pass collects the data set but no id for
    it, so the cache entry made from its ids has neither a local domain nor
    room for a data set, [FetchMesh] stores the data object but not the
    data set, and the mesh callback answers every domain with the invalid
    handle, without fetching anything. *)
Theorem plain_dataset_has_no_domain (to_mesh : vtkDataSet → visit_handle)
    (flat : nat → Z) (pd : PrivateData) (name : string) (ds : vtkDataSet)
    (recv : list Z) (dom localdomain : Z) :
  ∃ dss ids,
    GetMetaData_unpack flat (Some (DataSetObject ds)) = Some (dss, ids)
    ∧ dss = [ds] ∧ ids = []
    ∧ let pd0 := AddMeshDataCacheEntry_store pd name ids recv in
      GetNumDataSets pd0 name = 0%Z
      ∧ GetDomains pd0 name = (None, 0%Z)
      ∧ GetDataSet (FetchMesh pd0 name) name localdomain = None
      ∧ Libsim_GetMesh to_mesh pd0 dom name = (pd0, Some VISIT_INVALID_HANDLE).
Proof.
  exists [ds], []. split; [done|]. split; [done|]. split; [done|]. intros pd0.
  assert (meshData pd0 !! name
          = Some {| dataObj := None; datasets := [];
                    ndoms_per_rank := write_at (replicate (comm_size pd) 0%Z) 0 recv;
                    doms_this_rank := []; datasetsHaveGhostCells := false |}) as Hmi.
  { unfold pd0, AddMeshDataCacheEntry_store. cbn [meshData set_meshData].
    by rewrite lookup_insert_eq. }
  repeat split.
  - unfold GetNumDataSets. by rewrite Hmi.
  - unfold GetDomains. by rewrite Hmi.
  - destruct (FetchMesh_entry pd0 name _ Hmi) as (mi' & Hmi' & _ & _ & _ & Hlen).
    rewrite GetDataSet_cases. rewrite Hmi'. cbn [datasets length] in Hlen.
    rewrite Hlen. change (CInt.to_int (Z.of_nat 0)) with 0%Z.
    destruct (Z.leb_spec 0 localdomain), (Z.ltb_spec localdomain 0); try done; lia.
  - unfold Libsim_GetMesh, GetLocalDomain. by rewrite Hmi.
Qed.

(** ** Variable names: from the metadata to the resolver and back *)

Lemma substr_from_app a b : substr_from (String.length a) (a +:+ b) = b.
Proof.
  unfold substr_from. rewrite string_length_app.
  replace (String.length a + String.length b - String.length a)
    with (String.length b) by lia.
  apply substring_app_r.
Qed.

(** [varName.find("/")] on a name qualified by a mesh name without "/". *)
Lemma index_separator m rest :
  count_char "/" m = 0 →
  String.index 0 "/" (m +:+ String "/" rest) = Some (String.length m).
Proof.
  induction m as [|c m IH]; intros Hc.
  - change ("" +:+ String "/" rest) with (String "/" rest). cbn. by destruct rest.
  - rewrite string_app_cons. cbn [count_char] in Hc.
    destruct (Ascii.eqb_spec c "/") as [->|Hne]; [done|].
    cbn [String.index String.prefix]. destruct (ascii_dec "/" c) as [<-|_]; [done|].
    rewrite IH by done. done.
Qed.

(** The two branches of the resolver on a name without the "cell_" prefix
    and with it, for one mesh and for several. *)
Lemma resolve_plain d meshName (v : string) out :
  (if decide (1 < length (GetMeshNames d))
   then count_char "/" meshName = 0 else GetMeshNames d !! 0 = Some meshName) →
  String.substring 0 5 v ≠ "cell_" →
  GetArrayInfoFromVariableName d (point_var_name (length (GetMeshNames d)) meshName v) out
  = Some (if decide (v ∈ GetArrayNames d meshName FIELD_ASSOCIATION_POINTS)
          then mkArrayInfo meshName v FIELD_ASSOCIATION_POINTS
          else if decide (v ∈ GetArrayNames d meshName FIELD_ASSOCIATION_CELLS)
               then mkArrayInfo meshName v FIELD_ASSOCIATION_CELLS
               else mkArrayInfo meshName v (ai_association out)).
Proof.
  intros Hm Hv. unfold GetArrayInfoFromVariableName, point_var_name.
  apply String.eqb_neq in Hv.
  destruct (decide (1 < length (GetMeshNames d))).
  - rewrite string_app_assoc. change ("/" +:+ v) with (String "/" v).
    rewrite index_separator by done.
    change (String "/" v) with ("/" +:+ v). rewrite <- string_app_assoc.
    replace (String.length meshName + 1) with (String.length (meshName +:+ "/"))
      by (by rewrite string_length_app).
    rewrite substr_from_app, Hv. rewrite string_app_assoc, substring_app_l.
    cbn. by repeat case_match.
  - rewrite Hm. cbn. rewrite Hv. cbn. by repeat case_match.
Qed.

Lemma resolve_cell_prefix d meshName (v : string) out :
  (if decide (1 < length (GetMeshNames d))
   then count_char "/" meshName = 0 else GetMeshNames d !! 0 = Some meshName) →
  GetArrayInfoFromVariableName d
    (point_var_name (length (GetMeshNames d)) meshName ("cell_" +:+ v)) out
  = Some (mkArrayInfo meshName v FIELD_ASSOCIATION_CELLS).
Proof.
  intros Hm. unfold GetArrayInfoFromVariableName, point_var_name.
  pose proof (substring_app_l "cell_" v) as Hpre.
  pose proof (substr_from_app "cell_" v) as Hsuf.
  change (String.length "cell_") with 5 in Hpre, Hsuf.
  destruct (decide (1 < length (GetMeshNames d))).
  - rewrite string_app_assoc. change ("/" +:+ ("cell_" +:+ v)) with (String "/" ("cell_" +:+ v)).
    rewrite index_separator by done.
    change (String "/" ("cell_" +:+ v)) with ("/" +:+ ("cell_" +:+ v)).
    rewrite <- string_app_assoc.
    replace (String.length meshName + 1) with (String.length (meshName +:+ "/"))
      by (by rewrite string_length_app).
    rewrite substr_from_app, Hpre, Hsuf. rewrite string_app_assoc, substring_app_l. done.
  - rewrite Hm. cbn [mbind option_bind]. by rewrite Hpre, Hsuf.
Qed.

(** X9. The variable names of the metadata resolve back to their arrays.
    For a mesh of the data adaptor (whose name has no "/" when there are
    several meshes) whose array names do not begin with "cell_", resolving
    the names [GetMetaData] publishes for the mesh gives, in order, each
    point array with the point association and each cell array with the
    cell association, always with the name of the mesh and whatever the
    reference parameters held before. *)
Theorem metadata_names_resolve (d : DataAdaptor) (i : nat) (meshName : string)
    (out : ArrayInfo) :
  GetMeshNames d !! i = Some meshName →
  (1 < length (GetMeshNames d) → count_char "/" meshName = 0) →
  Forall (λ a, String.substring 0 5 a ≠ "cell_")
    (GetArrayNames d meshName FIELD_ASSOCIATION_POINTS
     ++ GetArrayNames d meshName FIELD_ASSOCIATION_CELLS) →
  Forall2 (λ v info, GetArrayInfoFromVariableName d (vmd_name v) out = Some info
                     ∧ vmd_meshName v = ai_meshName info
                     ∧ centering_association (vmd_centering v) = ai_association info)
    (GetMetaData_variables d meshName)
    (map (λ a, mkArrayInfo meshName a FIELD_ASSOCIATION_POINTS)
       (GetArrayNames d meshName FIELD_ASSOCIATION_POINTS)
     ++ map (λ a, mkArrayInfo meshName a FIELD_ASSOCIATION_CELLS)
          (GetArrayNames d meshName FIELD_ASSOCIATION_CELLS)).
Proof.
  intros Hi Hslash Hnames. apply Forall_app in Hnames as [Hpoint Hcell].
  assert (if decide (1 < length (GetMeshNames d))
          then count_char "/" meshName = 0 else GetMeshNames d !! 0 = Some meshName) as Hm.
  { destruct (decide (1 < length (GetMeshNames d))) as [|Hn]; [auto|].
    pose proof (lookup_lt_Some _ _ _ Hi). by replace i with 0 in Hi by lia. }
  unfold GetMetaData_variables. apply Forall2_app; apply Forall2_fmap, Forall_Forall2_diag.
  - apply Forall_forall. intros a Ha. cbn [vmd_name vmd_meshName vmd_centering ai_meshName
                                            ai_association].
    rewrite resolve_plain by (done || by eapply Forall_forall in Hpoint).
    rewrite decide_True by done. done.
  - apply Forall_forall. intros a Ha. cbn [vmd_name vmd_meshName vmd_centering ai_meshName
                                            ai_association].
    split; [|done]. unfold cell_var_name.
    destruct (decide (a ∈ GetArrayNames d meshName FIELD_ASSOCIATION_POINTS)) as [Hin|Hnin].
    + pose proof (resolve_cell_prefix d meshName a out Hm) as Hr.
      unfold point_var_name in Hr. destruct (decide (1 < length (GetMeshNames d))).
      * rewrite string_app_assoc in Hr. rewrite string_app_assoc. exact Hr.
      * done.
    + pose proof (resolve_plain d meshName a out Hm) as Hr.
      unfold point_var_name in Hr. rewrite Hr by (by eapply Forall_forall in Hcell).
      by rewrite decide_False, decide_True.
Qed.

Lemma metadata_names_resolve_witness :
  Forall2 (λ v info,
             GetArrayInfoFromVariableName Examples.two_meshes (vmd_name v)
               (mkArrayInfo "" "" 7) = Some info
             ∧ vmd_meshName v = ai_meshName info
             ∧ centering_association (vmd_centering v) = ai_association info)
    (GetMetaData_variables Examples.two_meshes "b")
    [mkArrayInfo "b" "temperature" FIELD_ASSOCIATION_POINTS].
Proof.
  apply (metadata_names_resolve Examples.two_meshes 1 "b" (mkArrayInfo "" "" 7)).
  - reflexivity.
  - reflexivity.
  - repeat constructor. cbn. discriminate.
Defined.

(** X10. The "cell_" prefix wins over the arrays of the data adaptor. The
    name [GetMetaData] publishes for a point array called "cell_" followed
    by [a] is resolved to the array [a] with the cell association, whatever
    arrays the mesh has: the resolver strips the prefix without looking at
    the array names. *)
Theorem cell_prefix_resolves_to_cells (d : DataAdaptor) (i : nat)
    (meshName a : string) (out : ArrayInfo) :
  GetMeshNames d !! i = Some meshName →
  (1 < length (GetMeshNames d) → count_char "/" meshName = 0) →
  GetArrayInfoFromVariableName d
    (point_var_name (length (GetMeshNames d)) meshName ("cell_" +:+ a)) out
  = Some (mkArrayInfo meshName a FIELD_ASSOCIATION_CELLS).
Proof.
  intros Hi Hslash. apply resolve_cell_prefix.
  destruct (decide (1 < length (GetMeshNames d))) as [|Hn]; [auto|].
  pose proof (lookup_lt_Some _ _ _ Hi). by replace i with 0 in Hi by lia.
Qed.

Lemma cell_prefix_resolves_to_cells_witness :
  GetArrayInfoFromVariableName Examples.image_adaptor "cell_id" (mkArrayInfo "" "" 0)
  = Some (mkArrayInfo "mesh" "id" FIELD_ASSOCIATION_CELLS).
Proof.
  apply (cell_prefix_resolves_to_cells Examples.image_adaptor 0 "mesh" "id"
           (mkArrayInfo "" "" 0)).
  - reflexivity.
  - cbn. lia.
Defined.

(** ** The child lists: from [childData] to the nesting calls *)

Lemma child_block_shape amr allext dom block :
  child_block amr allext dom = Some block →
  ∃ children,
    block = CInt.to_int (Z.of_nat dom) :: Z.of_nat (length children) :: children
    ∧ length children ≤ GetNumberOfDataSets amr (S (GetLevelAndIndex amr dom).1).
Proof.
  unfold child_block. destruct (GetLevelAndIndex amr dom) as [level patch]. cbn [fst].
  destruct (GetRefinementRatio amr level) as [ratio|]; [cbn|done].
  destruct (mapM _ _) as [hits|] eqn:Hhits; [cbn|done]. intros [= <-].
  eexists. split; [done|]. rewrite length_map.
  apply length_mapM in Hhits. rewrite length_seq in Hhits. rewrite Hhits.
  apply length_filter.
Qed.

Lemma logical_extent_Some (allext : list Z) base :
  base + 6 ≤ length allext → is_Some (logical_extent (ptr allext base)).
Proof.
  intros Hlen. unfold logical_extent, ptr.
  destruct (lookup_lt_is_Some_2 allext (base + 0)) as [e0 ->]; [lia|].
  destruct (lookup_lt_is_Some_2 allext (base + 2)) as [e2 ->]; [lia|].
  destruct (lookup_lt_is_Some_2 allext (base + 4)) as [e4 ->]; [lia|].
  destruct (lookup_lt_is_Some_2 allext (base + 1)) as [e1 ->]; [lia|].
  destruct (lookup_lt_is_Some_2 allext (base + 3)) as [e3 ->]; [lia|].
  destruct (lookup_lt_is_Some_2 allext (base + 5)) as [e5 ->]; [lia|].
  by eexists.
Qed.

(** One step of the decoding loop on a block followed by [rest]. *)
Lemma consume_results_block fuel amr allext dom (children rest : list Z) le :
  (Z.of_nat dom ≤ CInt.INT_MAX)%Z →
  (Z.of_nat (length children) + 2 ≤ CInt.INT_MAX)%Z →
  logical_extent (ptr allext (6 * dom)) = Some le →
  consume_results (S fuel) amr allext
    (CInt.to_int (Z.of_nat dom) :: Z.of_nat (length children) :: children ++ rest)
  = tail ← consume_results fuel amr allext rest;
    Some (mkPatchNesting dom (GetLevelAndIndex amr dom).1 children
            (Z.of_nat (length children)) le :: tail).
Proof.
  intros Hdom Hn Hle. cbn [consume_results].
  rewrite CIntFacts.to_int_id
    by (unfold CInt.is_int, CInt.INT_MIN, CInt.INT_MAX in *; lia).
  replace (Z.to_nat (CInt.to_uint (Z.of_nat dom))) with dom.
  2:{ unfold CInt.to_uint. rewrite Z.mod_small by (unfold CInt.INT_MAX in *; lia). lia. }
  rewrite Hle. cbn [mbind option_bind].
  replace (if (0 <? Z.of_nat (length children))%Z
           then if decide (Z.to_nat (Z.of_nat (length children)) ≤ length (children ++ rest))
                then Some (take (Z.to_nat (Z.of_nat (length children))) (children ++ rest))
                else None
           else Some []) with (Some children).
  2:{ destruct (Z.ltb_spec 0 (Z.of_nat (length children))) as [Hpos|Hz].
      - rewrite Nat2Z.id, decide_True by (rewrite length_app; lia).
        by rewrite take_app_length.
      - by destruct children; [|cbn in Hz; lia]. }
  cbn [mbind option_bind]. destruct (GetLevelAndIndex amr dom) as [level patch]. cbn [fst].
  rewrite CIntFacts.add_id
    by (unfold CInt.is_int, CInt.INT_MIN, CInt.INT_MAX in *; lia).
  destruct (Z.ltb_spec 0 (Z.of_nat (length children) + 2)); [|lia].
  replace (Z.to_nat (Z.of_nat (length children) + 2)) with (S (S (length children))) by lia.
  cbn [drop]. by rewrite drop_app_length.
Qed.

Lemma consume_results_blocks amr allext (mine : list nat) :
  Forall (λ dom, 6 * dom + 6 ≤ length allext) mine →
  (Z.of_nat (length allext) ≤ CInt.INT_MAX)%Z →
  Forall (λ n, (Z.of_nat n + 2 ≤ CInt.INT_MAX)%Z) (amr_blocksPerLevel amr) →
  ∀ cd fuel,
    childData amr allext mine = Some cd →
    length cd < fuel →
    ∃ calls,
      consume_results fuel amr allext cd = Some calls
      ∧ Forall2 (λ dom pn,
           pn_patch pn = dom
           ∧ pn_level pn = (GetLevelAndIndex amr dom).1
           ∧ pn_nChildren pn = Z.of_nat (length (pn_children pn))
           ∧ child_block amr allext dom
             = Some (Z.of_nat dom :: pn_nChildren pn :: pn_children pn)
           ∧ logical_extent (ptr allext (6 * dom)) = Some (pn_logicalExt pn))
          mine calls.
Proof.
  intros Hmine Hallext Hlevels.
  induction mine as [|dom mine IH]; intros cd fuel Hcd Hfuel.
  - injection Hcd as <-. destruct fuel; [lia|]. exists []. split; [done|constructor].
  - apply Forall_cons in Hmine as [Hdom Hmine]. unfold childData in Hcd. cbn in Hcd.
    destruct (child_block amr allext dom) as [block|] eqn:Hblock; [cbn in Hcd|done].
    destruct (mapM (child_block amr allext) mine) as [blocks|] eqn:Hblocks;
      [cbn in Hcd|done].
    injection Hcd as <-.
    destruct (child_block_shape _ _ _ _ Hblock) as (children & -> & Hchildren).
    assert (Z.of_nat (length children) + 2 ≤ CInt.INT_MAX)%Z as Hn.
    { unfold GetNumberOfDataSets in Hchildren.
      destruct (amr_blocksPerLevel amr !! S (GetLevelAndIndex amr dom).1) as [n|] eqn:Hl;
        cbn in Hchildren.
      - pose proof (Forall_lookup_1 _ _ _ _ Hlevels Hl) as Hb. cbn in Hb. lia.
      - unfold CInt.INT_MAX. lia. }
    assert (Z.of_nat dom ≤ CInt.INT_MAX)%Z as Hd by lia.
    destruct (logical_extent_Some allext (6 * dom)) as [le Hle]; [lia|].
    destruct fuel as [|fuel]; [lia|].
    cbn [concat app] in Hfuel |- *. cbn [length] in Hfuel. rewrite length_app in Hfuel.
    rewrite (consume_results_block fuel amr allext dom children (concat blocks) le)
      by done.
    destruct (IH Hmine (concat blocks) fuel) as (calls & -> & Hcalls).
    { unfold childData. by rewrite Hblocks. }
    { lia. }
    eexists. split; [done|]. constructor; [|done]. cbn.
    repeat split; try done.
    rewrite Hblock. do 2 f_equal. apply CIntFacts.to_int_id.
    unfold CInt.is_int, CInt.INT_MIN, CInt.INT_MAX in *. lia.
Qed.

(** X11. The decoding loop of [GetDomainNesting] reads back what the
    encoding loop wrote. For the blocks [childData] holds for a list of
    patches (whose rows lie inside the extent table, with sizes that fit an
    int), the loop over the results makes one nesting call per patch, in
    the order of the list, each with the patch, its level, its logical
    extent and exactly the children and the child count of its block. *)
Theorem consume_results_decodes_childData (amr : vtkOverlappingAMR) (allext : list Z)
    (mine : list nat) (cd : list Z) :
  childData amr allext mine = Some cd →
  Forall (λ dom, 6 * dom + 6 ≤ length allext) mine →
  (Z.of_nat (length allext) ≤ CInt.INT_MAX)%Z →
  Forall (λ n, (Z.of_nat n + 2 ≤ CInt.INT_MAX)%Z) (amr_blocksPerLevel amr) →
  ∃ calls,
    consume_results (S (length cd)) amr allext cd = Some calls
    ∧ Forall2 (λ dom pn,
         pn_patch pn = dom
         ∧ pn_level pn = (GetLevelAndIndex amr dom).1
         ∧ pn_nChildren pn = Z.of_nat (length (pn_children pn))
         ∧ child_block amr allext dom
           = Some (Z.of_nat dom :: pn_nChildren pn :: pn_children pn)
         ∧ logical_extent (ptr allext (6 * dom)) = Some (pn_logicalExt pn))
        mine calls.
Proof.
  intros Hcd Hmine Hallext Hlevels.
  apply (consume_results_blocks amr allext mine Hmine Hallext Hlevels cd); [done|lia].
Qed.

Lemma consume_results_decodes_childData_witness :
  let allext := [0; 3; 0; 3; 0; 0; 0; 1; 0; 1; 0; 0; 2; 3; 2; 3; 0; 0]%Z in
  ∃ calls,
    consume_results 5 Scenario.amr_rank0 allext [0; 2; 1; 2]%Z = Some calls
    ∧ Forall2 (λ dom pn,
         pn_patch pn = dom
         ∧ pn_level pn = (GetLevelAndIndex Scenario.amr_rank0 dom).1
         ∧ pn_nChildren pn = Z.of_nat (length (pn_children pn))
         ∧ child_block Scenario.amr_rank0 allext dom
           = Some (Z.of_nat dom :: pn_nChildren pn :: pn_children pn)
         ∧ logical_extent (ptr allext (6 * dom)) = Some (pn_logicalExt pn))
        [0] calls.
Proof.
  apply (consume_results_decodes_childData Scenario.amr_rank0
           [0; 3; 0; 3; 0; 0; 0; 1; 0; 1; 0; 0; 2; 3; 2; 3; 0; 0]%Z [0] [0; 2; 1; 2]%Z).
  - vm_compute. reflexivity.
  - repeat constructor.
  - vm_compute. discriminate.
  - repeat constructor; vm_compute; discriminate.
Defined.

(** ** The intersection test *)

Lemma in_range_spec value v0 v1 : in_range value v0 v1 = true ↔ (v0 ≤ value ≤ v1)%Z.
Proof. unfold in_range. rewrite andb_true_iff, !Z.leb_le. lia. Qed.

Lemma in_range_false value v0 v1 :
  in_range value v0 v1 = false ↔ (value < v0 ∨ v1 < value)%Z.
Proof. unfold in_range. rewrite andb_false_iff, !Z.leb_gt. lia. Qed.

(** [box_intersect] on two rows of six entries, when the scaled parent
    fits an int. *)
Lemma box_intersect_rows (e0 e1 e2 e3 e4 e5 c0 c1 c2 c3 c4 c5 ratio : Z) :
  Forall (λ e, CInt.is_int (e * ratio)) [e0; e1; e2; e3; e4; e5] →
  box_intersect (λ k, [e0; e1; e2; e3; e4; e5] !! k) (λ k, [c0; c1; c2; c3; c4; c5] !! k)
    ratio
  = Some ((in_range c0 (e0 * ratio) (e1 * ratio) || in_range c1 (e0 * ratio) (e1 * ratio))
          && (in_range c2 (e2 * ratio) (e3 * ratio) || in_range c3 (e2 * ratio) (e3 * ratio))
          && (if negb (e4 * ratio =? e5 * ratio)%Z || negb (e4 * ratio =? 0)%Z
              then in_range c4 (e4 * ratio) (e5 * ratio)
                   || in_range c5 (e4 * ratio) (e5 * ratio)
              else true)).
Proof.
  intros Hfit. unfold box_intersect, CInt.mul. cbn [lookup list_lookup mbind option_bind].
  repeat (apply Forall_cons in Hfit as [?%CIntFacts.to_int_id Hfit]).
  repeat match goal with H : CInt.to_int _ = _ |- _ => rewrite H; clear H end.
  by destruct (negb _ || negb _).
Qed.

(** X12. [box_intersect] reports only boxes that meet. When it answers
    true for a parent row and a child row (low, high per axis, the low
    entries of the child not above its high entries, the scaled parent
    within int), the child and the parent scaled by the ratio share an
    index on the x axis and on the y axis, and also on the z axis unless
    the scaled parent is the flat box [0, 0] in z. *)
Theorem box_intersect_sound (e0 e1 e2 e3 e4 e5 c0 c1 c2 c3 c4 c5 ratio : Z) :
  Forall (λ e, CInt.is_int (e * ratio)) [e0; e1; e2; e3; e4; e5] →
  (c0 ≤ c1)%Z → (c2 ≤ c3)%Z → (c4 ≤ c5)%Z →
  box_intersect (λ k, [e0; e1; e2; e3; e4; e5] !! k) (λ k, [c0; c1; c2; c3; c4; c5] !! k)
    ratio = Some true →
  (∃ x, c0 ≤ x ≤ c1 ∧ e0 * ratio ≤ x ≤ e1 * ratio)%Z
  ∧ (∃ y, c2 ≤ y ≤ c3 ∧ e2 * ratio ≤ y ≤ e3 * ratio)%Z
  ∧ ((e4 * ratio = 0 ∧ e5 * ratio = 0)%Z
     ∨ (∃ z, c4 ≤ z ≤ c5 ∧ e4 * ratio ≤ z ≤ e5 * ratio)%Z).
Proof.
  intros Hfit Hx Hy Hz. rewrite box_intersect_rows by done. intros [= H].
  apply andb_true_iff in H as [[HX HY]%andb_true_iff HZ].
  apply orb_true_iff in HX as [HX%in_range_spec|HX%in_range_spec];
    apply orb_true_iff in HY as [HY%in_range_spec|HY%in_range_spec].
  all: split; [eexists; split; [|exact HX]; lia|].
  all: split; [eexists; split; [|exact HY]; lia|].
  all: destruct (Z.eqb_spec (e4 * ratio) (e5 * ratio)) as [He|He];
    destruct (Z.eqb_spec (e4 * ratio) 0) as [H0|H0]; cbn [negb orb] in HZ;
    try (left; lia).
  all: right; apply orb_true_iff in HZ as [HZ%in_range_spec|HZ%in_range_spec];
    eexists; (split; [|exact HZ]); lia.
Qed.

Lemma box_intersect_sound_witness :
  (∃ x, 2 ≤ x ≤ 3 ∧ 0 * 2 ≤ x ≤ 3 * 2)%Z
  ∧ (∃ y, 2 ≤ y ≤ 3 ∧ 0 * 2 ≤ y ≤ 3 * 2)%Z
  ∧ ((0 * 2 = 0 ∧ 0 * 2 = 0)%Z ∨ (∃ z, 0 ≤ z ≤ 0 ∧ 0 * 2 ≤ z ≤ 0 * 2)%Z).
Proof.
  apply (box_intersect_sound 0 3 0 3 0 0 2 3 2 3 0 0 2).
  - repeat constructor; vm_compute; discriminate.
  - lia.
  - lia.
  - lia.
  - reflexivity.
Defined.

(** X13. [box_intersect] looks at the end points of the child only. A
    child whose x range (or y range) begins below the scaled parent and
    ends above it is reported as not intersecting, whatever the other
    entries are. *)
Theorem box_intersect_misses_covering_child
    (e0 e1 e2 e3 e4 e5 c0 c1 c2 c3 c4 c5 ratio : Z) :
  Forall (λ e, CInt.is_int (e * ratio)) [e0; e1; e2; e3; e4; e5] →
  (c0 < e0 * ratio ∧ e1 * ratio < c1 ∨ c2 < e2 * ratio ∧ e3 * ratio < c3)%Z →
  box_intersect (λ k, [e0; e1; e2; e3; e4; e5] !! k) (λ k, [c0; c1; c2; c3; c4; c5] !! k)
    ratio = Some false.
Proof.
  intros Hfit Hcover. rewrite box_intersect_rows by done. f_equal.
  destruct Hcover as [[Hlo Hhi]|[Hlo Hhi]].
  - replace (in_range c0 _ _) with false by (symmetry; apply in_range_false; lia).
    replace (in_range c1 _ _) with false by (symmetry; apply in_range_false; lia).
    done.
  - replace (in_range c2 _ _) with false by (symmetry; apply in_range_false; lia).
    replace (in_range c3 _ _) with false by (symmetry; apply in_range_false; lia).
    cbn [orb]. by rewrite andb_false_r.
Qed.

Lemma box_intersect_misses_covering_child_witness :
  box_intersect (λ k, [1; 2; 0; 3; 0; 0]%Z !! k) (λ k, [0; 7; 0; 7; 0; 0]%Z !! k) 2
  = Some false.
Proof.
  apply (box_intersect_misses_covering_child 1 2 0 3 0 0 0 7 0 7 0 0 2).
  - repeat constructor; vm_compute; discriminate.
  - left. lia.
Defined.

(** ** The gather of the child lists *)

Lemma displacements_lookup (ws1 : list Z) (w : Z) (ws2 : list Z) (acc : Z) :
  Forall (λ x, 0 ≤ x)%Z ws1 → (0 ≤ acc)%Z → (acc + sum_Z ws1 ≤ CInt.INT_MAX)%Z →
  displacements (ws1 ++ w :: ws2) acc !! length ws1 = Some (acc + sum_Z ws1)%Z.
Proof.
  revert acc. induction ws1 as [|x ws1 IH]; intros acc Hnn Hacc Hfit.
  - cbn. f_equal. unfold sum_Z. cbn. lia.
  - apply Forall_cons in Hnn as [Hx Hnn]. rewrite sum_Z_cons in Hfit.
    pose proof (sum_Z_nonneg ws1 Hnn). cbn [app displacements length lookup list_lookup].
    rewrite CIntFacts.add_id
      by (unfold CInt.is_int, CInt.INT_MIN, CInt.INT_MAX in *; lia).
    rewrite IH by (done || lia). rewrite sum_Z_cons. f_equal. lia.
Qed.

Lemma fold_left_add_sum (ws : list Z) (acc : Z) :
  Forall (λ x, 0 ≤ x)%Z ws → (0 ≤ acc)%Z → (acc + sum_Z ws ≤ CInt.INT_MAX)%Z →
  fold_left CInt.add ws acc = (acc + sum_Z ws)%Z.
Proof.
  revert acc. induction ws as [|x ws IH]; intros acc Hnn Hacc Hfit.
  - unfold sum_Z. cbn. lia.
  - apply Forall_cons in Hnn as [Hx Hnn]. rewrite sum_Z_cons in Hfit |- *.
    pose proof (sum_Z_nonneg ws Hnn). cbn [fold_left].
    rewrite CIntFacts.add_id
      by (unfold CInt.is_int, CInt.INT_MIN, CInt.INT_MAX in *; lia).
    rewrite IH by (done || lia). lia.
Qed.

Lemma sum_Z_lengths (cds : list (list Z)) :
  sum_Z (map (λ cd, Z.of_nat (length cd)) cds) = Z.of_nat (length (concat cds)).
Proof.
  induction cds as [|cd cds IH]; [done|].
  cbn [map concat]. rewrite sum_Z_cons, IH, length_app. lia.
Qed.

Lemma lengths_nonneg (cds : list (list Z)) :
  Forall (λ x, 0 ≤ x)%Z (map (λ cd, Z.of_nat (length cd)) cds).
Proof. apply Forall_fmap, Forall_true. intros cd. cbn. lia. Qed.

(** The receive buffer while the blocks of the ranks are stored one after
    the other. *)
Lemma allgatherv_recv_fold (cds filled rest : list (list Z)) :
  cds = filled ++ rest →
  (Z.of_nat (length (concat cds)) ≤ CInt.INT_MAX)%Z →
  fold_left
    (λ buf q,
       match map (λ cd, (cd ++ [0%Z], Z.of_nat (length cd))) cds !! q,
             map (λ cd, Z.of_nat (length cd)) cds !! q,
             displacements (map (λ cd, Z.of_nat (length cd)) cds) 0 !! q with
       | Some (s, _), Some n, Some d => write_at buf (Z.to_nat d) (take (Z.to_nat n) s)
       | _, _, _ => buf
       end)
    (seq (length filled) (length rest))
    (concat filled ++ replicate (length (concat rest)) 0%Z)
  = concat cds.
Proof.
  intros Hcds Hfit.
  set (step := λ (buf : list Z) (q : nat), match _ with Some _ => _ | None => buf end).
  assert (∀ buf done cd rest', cds = done ++ cd :: rest' →
            step buf (length done) = write_at buf (length (concat done)) cd) as Hstep.
  { intros buf done cd rest' ->. unfold step.
    rewrite !list_lookup_fmap, lookup_app_r, Nat.sub_diag by lia.
    cbn [lookup list_lookup fmap option_fmap option_map].
    rewrite map_app. cbn [map].
    replace (length done)
      with (length (map (λ cd0 : list Z, Z.of_nat (length cd0)) done))
      by apply length_map.
    rewrite concat_app, !length_app in Hfit. cbn [concat] in Hfit.
    rewrite length_app in Hfit.
    rewrite displacements_lookup; [|apply lengths_nonneg|lia|rewrite sum_Z_lengths; lia].
    by rewrite sum_Z_lengths, Z.add_0_l, !Nat2Z.id, take_app_length. }
  clearbody step. revert filled Hcds.
  induction rest as [|cd rest IH]; intros filled Hcds.
  - cbn. rewrite Hcds. by rewrite !app_nil_r.
  - cbn [length seq fold_left]. rewrite (Hstep _ filled cd rest Hcds).
    cbn [concat]. rewrite length_app, replicate_add.
    rewrite write_at_app_mid by (by rewrite length_replicate).
    specialize (IH (filled ++ [cd])).
    rewrite length_app, concat_app in IH. cbn [length concat] in IH.
    rewrite app_nil_r, <- !app_assoc, Nat.add_1_r in IH.
    by apply IH.
Qed.

(** X14. The gather of the child lists in [GetDomainNesting]. When rank
    [r] contributes the list [cds !! r] (padded by one entry, as the source
    does) and the sizes received, their sum [n] and the displacements
    computed from them are those of the source, every rank finds in its
    result buffer the lists of all ranks, one after the other in rank
    order, provided the total length fits an int. *)
Theorem allgatherv_delivers_concat (cds : list (list Z)) :
  (Z.of_nat (length (concat cds)) ≤ CInt.INT_MAX)%Z →
  let worksize := map (λ cd, Z.of_nat (length cd)) cds in
  collective_step
    (map (λ cd, MPI_Allgatherv (cd ++ [0%Z]) (Z.of_nat (length cd))
                  (replicate (Z.to_nat (fold_left CInt.add worksize 0%Z)) 0%Z)
                  worksize (displacements worksize 0%Z)) cds)
  = Some (map (λ _, concat cds) cds).
Proof.
  intros Hfit worksize.
  assert (fold_left CInt.add worksize 0%Z = Z.of_nat (length (concat cds))) as ->.
  { unfold worksize. rewrite fold_left_add_sum;
      [|apply lengths_nonneg|lia|rewrite sum_Z_lengths; lia].
    rewrite sum_Z_lengths. lia. }
  rewrite Nat2Z.id.
  set (call := λ cd : list Z, MPI_Allgatherv _ _ _ _ _).
  assert (gatherv_sends (map call cds)
          = Some (map (λ cd, (cd ++ [0%Z], Z.of_nat (length cd))) cds)) as Hsends.
  { unfold gatherv_sends. by apply mapM_map_Some. }
  assert (collective_step (map call cds)
          = sends ← gatherv_sends (map call cds);
            Some (map (λ c, match c with
                            | MPI_Allgatherv _ _ rb rc ds => allgatherv_recv sends rb rc ds
                            | _ => []
                            end) (map call cds))) as ->.
  { clear. by destruct cds. }
  rewrite Hsends. cbn [mbind option_bind]. f_equal. rewrite map_map.
  apply map_ext. intros cd. unfold call, allgatherv_recv. rewrite length_map.
  apply (allgatherv_recv_fold cds [] cds); done.
Qed.

Lemma allgatherv_delivers_concat_witness :
  collective_step
    [ MPI_Allgatherv [0; 2; 1; 2; 0]%Z 4 (replicate 4 0%Z) [4; 0]%Z [0; 4]%Z;
      MPI_Allgatherv [0]%Z 0 (replicate 4 0%Z) [4; 0]%Z [0; 4]%Z ]
  = Some [[0; 2; 1; 2]%Z; [0; 2; 1; 2]%Z].
Proof.
  apply (allgatherv_delivers_concat [[0; 2; 1; 2]%Z; []]).
  vm_compute. discriminate.
Defined.

(** ** Instances of the conversion properties *)

Lemma celltype_vtk_to_libsim_total_witness :
  ∃ c, celltype_vtk_to_libsim 100 CellType.VTK_HEXAHEDRON = Some c
       ∧ ((c = (-1)%Z ∧ CellType.VTK_HEXAHEDRON ∉ vtk_to_libsim_entries.*1)
          ∨ ((0 ≤ c)%Z ∧ (CellType.VTK_HEXAHEDRON, c) ∈ vtk_to_libsim_entries)).
Proof.
  apply (celltype_vtk_to_libsim_total 100 CellType.VTK_HEXAHEDRON).
  unfold CellType.VTK_HEXAHEDRON. lia.
Defined.

Lemma convert_connectivity_convertible_witness :
  let cells := [(CellType.VTK_TRIANGLE, [0; 1; 2]%Z); (CellType.VTK_POLYGON, [2; 1; 3; 4]%Z)] in
  ∃ newconn,
    convert_connectivity 100 (cells_of cells) (λ _, 0%Z)
    = Some (newconn, length (concat (map converted_cell cells)))
    ∧ length newconn = sum_list (map (λ c, 1 + length c.2) cells)
    ∧ take (length (concat (map converted_cell cells))) newconn
      = concat (map converted_cell cells).
Proof.
  apply (convert_connectivity_convertible 100
           [(CellType.VTK_TRIANGLE, [0; 1; 2]%Z); (CellType.VTK_POLYGON, [2; 1; 3; 4]%Z)]
           (λ _, 0%Z)).
  repeat constructor; cbn; (lia || discriminate).
Defined.

(** ** The domain lists of all ranks *)

(** X17. The domain lists the ranks hand to VisIt fit together. After all
    ranks have entered a mesh in their caches, rank [r] with the ids
    [ids !! r] (each within int), the callback [GetDomainList] reports on
    every rank the same total, the number of ids of all ranks together, and
    hands over the ids of its own rank in their order, with their number; a
    rank without ids hands over a null array of size 0. *)
Theorem GetDomainList_after_populate (world : list PrivateData) (name : string)
    (ids : list (list Z)) :
  world_ok world →
  length ids = length world →
  (Z.of_nat (length (concat ids)) ≤ CInt.INT_MAX)%Z →
  Forall (Forall CInt.is_int) ids →
  ∃ pds,
    populate world name ids = Some pds
    ∧ length pds = length world
    ∧ ∀ r pd, pds !! r = Some pd →
        ∃ d, ids !! r = Some d
             ∧ GetDomainList pd name
               = (Some (Z.of_nat (length (concat ids))),
                  (if decide (d = []) then None else Some d, Z.of_nat (length d))).
Proof.
  intros Hworld Hlen Hfit Hint. rewrite populate_eq. eexists. split; [done|].
  split; [rewrite length_map, length_zip; lia|].
  rewrite <- sum_Z_lengths in Hfit.
  assert (∀ d, d ∈ ids → CInt.to_int (Z.of_nat (length d)) = Z.of_nat (length d)) as Hd.
  { intros d Hin. apply CIntFacts.to_int_id.
    assert (Z.of_nat (length d) ∈ map (λ cd : list Z, Z.of_nat (length cd)) ids) as Hel
      by (apply list_elem_of_fmap; by exists d).
    pose proof (sum_Z_elem_le _ _ (lengths_nonneg ids) Hel).
    unfold CInt.is_int, CInt.INT_MIN, CInt.INT_MAX in *. lia. }
  rewrite (map_snd_zip (λ d, CInt.to_int (Z.of_nat (length d)))) by lia.
  rewrite (map_ext_in _ (λ d : list Z, Z.of_nat (length d)))
    by (intros d Hin; apply Hd; by apply list_elem_of_In).
  intros r pd Hpd. apply list_lookup_fmap_Some in Hpd as ([pd0 d] & -> & Hz).
  apply lookup_zip_with_Some in Hz as (pd1 & d1 & [= <- <-] & Hw & Hids).
  destruct (Hworld r pd0 Hw) as [_ Hsize]. exists d. split; [done|].
  unfold GetDomainList, GetTotalDomains, GetDomains, AddMeshDataCacheEntry_store.
  cbn [meshData set_meshData fst snd comm_size]. rewrite lookup_insert_eq.
  cbn [ndoms_per_rank doms_this_rank].
  rewrite write_at_all by (rewrite length_replicate, length_map; lia).
  replace (comm_size pd0) with (length (map (λ d0 : list Z, Z.of_nat (length d0)) ids))
    by (rewrite length_map; lia).
  rewrite sum_ndoms_all by (done || apply lengths_nonneg). rewrite sum_Z_lengths.
  rewrite Hd by (by eapply list_elem_of_lookup_2). f_equal.
  destruct d as [|x d]; [done|]. rewrite decide_False by done.
  destruct (Z.ltb_spec 0 (Z.of_nat (length (x :: d)))) as [_|Hle]; [|cbn in Hle; lia].
  rewrite Nat2Z.id, firstn_all. do 2 f_equal.
  pose proof (Forall_lookup_1 _ _ _ _ Hint Hids) as Hx.
  rewrite <- (map_id (x :: d)) at 2. apply map_ext_in. intros y Hy.
  apply CIntFacts.to_int_id. apply list_elem_of_In in Hy.
  by apply (proj1 (Forall_forall _ _) Hx).
Qed.

Lemma GetDomainList_after_populate_witness :
  ∃ pds,
    populate Scenario.world "mesh" [[]; [1; 2]%Z] = Some pds
    ∧ length pds = length Scenario.world
    ∧ ∀ r pd, pds !! r = Some pd →
        ∃ d, [[]; [1; 2]%Z] !! r = Some d
             ∧ GetDomainList pd "mesh"
               = (Some (Z.of_nat (length (concat [[]; [1; 2]%Z]))),
                  (if decide (d = []) then None else Some d, Z.of_nat (length d))).
Proof.
  apply (GetDomainList_after_populate Scenario.world "mesh" [[]; [1; 2]%Z]).
  - intros [|[|r]] pd; cbn; intros [= <-]; done.
  - reflexivity.
  - vm_compute. discriminate.
  - repeat constructor; vm_compute; discriminate.
Defined.

(** ** Every patch gets its nesting call *)

Lemma map_add_seq a n : map (λ idx, a + idx) (seq 0 n) = seq a n.
Proof. pose proof (fmap_add_seq a 0 n) as H. rewrite Nat.add_0_r in H. exact H. Qed.

Lemma levels_prefix (blocks : list nat) k :
  k ≤ length blocks →
  flat_map (λ level, map (λ idx, sum_list (take level blocks) + idx)
                         (seq 0 (default 0 (blocks !! level))))
           (seq 0 k)
  = seq 0 (sum_list (take k blocks)).
Proof.
  induction k as [|k IH]; intros Hk; [done|].
  rewrite seq_S, flat_map_app, IH by lia. cbn [flat_map Nat.add]. rewrite app_nil_r.
  destruct (lookup_lt_is_Some_2 blocks k) as [n Hn]; [lia|].
  rewrite Hn, (take_S_r _ _ _ Hn), sum_list_with_app. cbn [default sum_list_with].
  change (id n) with n. rewrite (Nat.add_0_r n), (seq_app (sum_list (take k blocks)) n 0). f_equal.
  apply map_add_seq.
Qed.

Lemma mapM_fmap_inv {A B C} (f : A → option B) (g : B → C) (h : A → C)
    (l : list A) (k : list B) :
  mapM f l = Some k → (∀ x y, f x = Some y → g y = h x) → map g k = map h l.
Proof.
  intros Hm Hf. apply mapM_Some in Hm. induction Hm as [|x y l k Hxy _ IH]; [done|].
  cbn. by rewrite IH, (Hf x y Hxy).
Qed.

(** The work list holds the composite indices below the first patch of
    the last level, in order; the leaf loop goes on from there. *)
Lemma work_list_seq amr :
  work_list amr
  = seq 0 (sum_list (take (GetNumberOfLevels amr - 1) (amr_blocksPerLevel amr))).
Proof.
  unfold work_list, GetCompositeIndex, GetNumberOfDataSets, GetNumberOfLevels.
  apply levels_prefix. lia.
Qed.

Lemma work_list_leaves_seq amr :
  work_list amr
  ++ map (GetCompositeIndex amr (GetNumberOfLevels amr - 1))
       (seq 0 (GetNumberOfDataSets amr (GetNumberOfLevels amr - 1)))
  = seq 0 (GetTotalNumberOfBlocks amr).
Proof.
  rewrite work_list_seq.
  unfold GetCompositeIndex, GetNumberOfDataSets, GetNumberOfLevels, GetTotalNumberOfBlocks.
  set (blocks := amr_blocksPerLevel amr).
  destruct (decide (length blocks = 0)) as [Hz|Hnz].
  - destruct blocks; [done|discriminate].
  - destruct (lookup_lt_is_Some_2 blocks (length blocks - 1)) as [n Hn]; [lia|].
    rewrite Hn. cbn [default].
    assert (blocks = take (length blocks - 1) blocks ++ [n]) as Hsplit.
    { rewrite <- (take_drop (length blocks - 1) blocks) at 1.
      by rewrite (drop_S _ _ _ Hn), drop_ge by lia. }
    rewrite Hsplit at 3. rewrite sum_list_with_app. cbn [sum_list_with].
    change (id n) with n. rewrite (Nat.add_0_r n).
    rewrite (seq_app (sum_list (take (length blocks - 1) blocks)) n 0). f_equal.
    apply map_add_seq.
Qed.

Lemma leaf_patches_indices amr allext leaves :
  leaf_patches amr allext = Some leaves →
  map pn_patch leaves
  = map (GetCompositeIndex amr (GetNumberOfLevels amr - 1))
      (seq 0 (GetNumberOfDataSets amr (GetNumberOfLevels amr - 1))).
Proof.
  intros Hleaves. apply (mapM_fmap_inv _ pn_patch _ _ _ Hleaves).
  intros i pn Hpn. cbn in Hpn.
  destruct (logical_extent _) as [le|]; [|done]. by injection Hpn as <-.
Qed.

(** X18. The nesting calls cover every patch once. The patches handed to
    the ranks as work (all levels but the last) followed by the patches of
    the leaf loop (the last level) are, for a data set with at least one
    level, the composite indices 0, 1, ... up to the total number of
    blocks, each once and in order. *)
Theorem nesting_covers_every_patch (amr : vtkOverlappingAMR) (allext : list Z)
    (leaves : list PatchNesting) :
  0 < GetNumberOfLevels amr →
  leaf_patches amr allext = Some leaves →
  work_list amr ++ map pn_patch leaves = seq 0 (GetTotalNumberOfBlocks amr).
Proof.
  intros _ Hleaves. rewrite (leaf_patches_indices amr allext leaves Hleaves).
  apply work_list_leaves_seq.
Qed.

Lemma nesting_covers_every_patch_witness :
  work_list Scenario.amr_rank0 ++ [1; 2] = seq 0 3.
Proof.
  apply (nesting_covers_every_patch Scenario.amr_rank0
           [0; 3; 0; 3; 0; 0; 0; 1; 0; 1; 0; 0; 2; 3; 2; 3; 0; 0]%Z
           [ mkPatchNesting 1 1 [] 0 [0; 0; 0; 1; 1; 0]%Z;
             mkPatchNesting 2 1 [] 0 [2; 2; 0; 3; 3; 0]%Z ]).
  - vm_compute. lia.
  - vm_compute. reflexivity.
Defined.

(** ** The mode in [Initialize] and in [Execute] *)

(** X19. [Execute] and [Initialize] do not read the mode alike. A mode that
    begins with "interactive" and goes on with anything but ",paused" is
    executed interactively, while [Initialize] has taken the other branch
    for it: the one that loads the runtime for batch execution. *)
Theorem mode_prefix_executes_interactive (suffix : string) :
  suffix ≠ "" → suffix ≠ ",paused" →
  Execute_interactive ("interactive" +:+ suffix) = true
  ∧ Initialize_interactive ("interactive" +:+ suffix) = false.
Proof.
  intros Hne Hnp. split.
  - unfold Execute_interactive.
    pose proof (substring_app_l "interactive" suffix) as H.
    change (String.length "interactive") with 11 in H. rewrite H. done.
  - unfold Initialize_interactive. apply orb_false_iff. split; apply String.eqb_neq.
    + intros H. apply Hne. vm_compute in H. congruence.
    + intros H. apply Hnp. vm_compute in H. congruence.
Qed.

Lemma mode_prefix_executes_interactive_witness :
  Execute_interactive "interactive,running" = true
  ∧ Initialize_interactive "interactive,running" = false.
Proof.
  apply (mode_prefix_executes_interactive ",running"); discriminate.
Defined.

(** ** The batch loop over the configured records *)

Lemma mapM_zip_lookup {A B} (l1 : list A) (l2 : list B) :
  length l1 ≤ length l2 →
  mapM (λ j, a ← l1 !! j; b ← l2 !! j; Some (a, b)) (seq 0 (length l1))
  = Some (zip l1 l2).
Proof.
  intros Hlen. apply mapM_Some. apply Forall2_same_length_lookup. split.
  - rewrite length_seq, length_zip. lia.
  - intros i j [a b] Hj Hab. apply lookup_seq in Hj as [-> Hi]. cbn in *.
    apply lookup_zip_with_Some in Hab as (a' & b' & [= <- <-] & -> & ->). done.
Qed.

Section ExecuteBatchFacts.

Context {double LibsimImageProperties : Type}.
Variables (zero one : double) (default_imageProps : LibsimImageProperties).
Variable SetFilename : LibsimImageProperties → string → LibsimImageProperties.
Variable TIMESTEP_MIN : Z.

(** What [AddRender] and [AddExport] guarantee of every record they make:
    there is a plot type, and a variable for every plot type. *)
Lemma configured_records (plots : list (PlotRecord double LibsimImageProperties)) :
  configured double zero one LibsimImageProperties default_imageProps SetFilename plots →
  Forall (λ p, pr_plots _ _ p ≠ [] ∧ length (pr_plots _ _ p) ≤ length (plotVars _ _ p))
    plots.
Proof.
  induction 1 as [|plots freq session_ plts plotVars_ slice_ project2d_ origin_ normal_
                    imgProps retval plots' _ IH Hadd
                  |plots freq session_ plts plotVars_ slice_ project2d_ origin_ normal_
                    filename retval plots' _ IH Hadd]; [constructor|..].
  - unfold AddRender in Hadd. rewrite !SplitAtCommas_eq in Hadd.
    cbn [mbind option_bind] in Hadd.
    destruct (negb _ && bool_decide _) eqn:Htest; injection Hadd as _ <-; [|done].
    apply andb_true_iff in Htest as [Hne%negb_true_iff%bool_decide_eq_false
                                       Heq%bool_decide_eq_true].
    apply Forall_app. split; [done|]. constructor; [|constructor]. cbn. split; [done|lia].
  - unfold AddExport in Hadd. rewrite !SplitAtCommas_eq in Hadd.
    cbn [mbind option_bind] in Hadd.
    destruct (comma_fields plts !! 0) as [first|]; [|done]. cbn [mbind option_bind] in Hadd.
    destruct (negb _ && negb _) eqn:Htest; injection Hadd as _ <-; [|done].
    apply andb_true_iff in Htest as [_ Hne%negb_true_iff%bool_decide_eq_false].
    apply Forall_app. split; [done|]. constructor; [|constructor]. cbn. split; [done|].
    destruct (comma_fields plotVars_); [done|cbn; lia].
Qed.


Lemma batch_setup_configured (p : PlotRecord double LibsimImageProperties) :
  pr_plots _ _ p ≠ [] → length (pr_plots _ _ p) ≤ length (plotVars _ _ p) →
  batch_setup double LibsimImageProperties p = Some (setup_of p).
Proof.
  intros Hne Hlen. unfold batch_setup, setup_of.
  destruct (negb (String.eqb _ _)); [done|].
  rewrite bool_decide_eq_false_2 by done. cbn [negb].
  unfold AddPlot_calls. by rewrite mapM_zip_lookup.
Qed.

(** X20. The batch loop is safe on every configuration. Whatever calls of
    [AddRender] and [AddExport] have filled the list of records, a pass of
    [Execute_Batch] with positive frequencies never reads a plot variable
    that is not there: it sets up exactly the records whose frequency
    divides the time step, in order, each by its session file or else by
    one plot per plot type, paired with the variable at the same
    position. *)
Theorem Execute_Batch_configured (plots : list (PlotRecord double LibsimImageProperties))
    (timestep : Z) :
  configured double zero one LibsimImageProperties default_imageProps SetFilename plots →
  Forall (λ p, (0 < frequency _ _ p)%Z) plots →
  Execute_Batch_setups double LibsimImageProperties TIMESTEP_MIN timestep plots
  = Some (map setup_of
            (filter (λ p, Z.rem timestep (frequency _ _ p) = 0%Z) plots)).
Proof.
  intros Hconf%configured_records Hfreq.
  induction plots as [|p plots IH]; [done|].
  apply Forall_cons in Hconf as [[Hne Hlen] Hconf].
  apply Forall_cons in Hfreq as [Hp Hfreq].
  cbn [Execute_Batch_setups]. unfold batch_skips.
  destruct (Z.eqb_spec (frequency _ _ p) 0) as [|_]; [lia|].
  destruct (Z.eqb_spec (frequency _ _ p) (-1)) as [|_]; [lia|].
  cbn [orb andb mbind option_bind].
  destruct (Z.eqb_spec (Z.rem timestep (frequency _ _ p)) 0) as [Hz|Hnz]; cbn [negb].
  - rewrite batch_setup_configured, IH by done. cbn [mbind option_bind].
    by rewrite filter_cons_True.
  - rewrite IH by done. by rewrite filter_cons_False.
Qed.

End ExecuteBatchFacts.

Lemma Execute_Batch_configured_witness :
  let p := mkPlotRecord unit unit 2 tt "" ["Pseudocolor"; "Mesh"] ["pressure"; "mesh"]
             false false false (tt, tt, tt) (tt, tt, tt) in
  Execute_Batch_setups unit unit (-2147483648) 4 [p]
  = Some (map setup_of (filter (λ p, Z.rem 4 (frequency _ _ p) = 0%Z) [p])).
Proof.
  apply (Execute_Batch_configured tt tt tt (λ x _, x) (-2147483648)
           [mkPlotRecord unit unit 2 tt "" ["Pseudocolor"; "Mesh"] ["pressure"; "mesh"]
              false false false (tt, tt, tt) (tt, tt, tt)] 4).
  - apply (configured_render unit tt tt unit tt (λ x _, x) [] 2 "" "Pseudocolor,Mesh"
             "pressure,mesh" false false (tt, tt, tt) (tt, tt, tt) tt true).
    + apply configured_nil.
    + vm_compute. reflexivity.
  - constructor; [reflexivity|constructor].
Defined.

Section ZeroFrequency.

Context {double LibsimImageProperties : Type}.
Variables (zero one : double) (default_imageProps : LibsimImageProperties).
Variable SetFilename : LibsimImageProperties → string → LibsimImageProperties.
Variable TIMESTEP_MIN : Z.

Lemma Execute_Batch_setups_last_None (plots : list (PlotRecord double LibsimImageProperties))
    (p : PlotRecord double LibsimImageProperties) (timestep : Z) :
  batch_skips double LibsimImageProperties TIMESTEP_MIN timestep p = None →
  Execute_Batch_setups double LibsimImageProperties TIMESTEP_MIN timestep (plots ++ [p])
  = None.
Proof.
  intros Hp. induction plots as [|q plots IH]; cbn [app Execute_Batch_setups].
  - by rewrite Hp.
  - destruct (batch_skips _ _ _ _ q) as [[|]|]; cbn [mbind option_bind]; [done| |done].
    destruct (batch_setup _ _ q); cbn [mbind option_bind]; [|done]. by rewrite IH.
Qed.

(** X21. The frequency is not checked. [AddExport] with frequency 0 records
    its plot and returns true like with any other frequency, and every
    later pass of [Execute_Batch] over the records runs into the division
    by zero of its frequency test, at every time step. *)
Theorem zero_frequency_breaks_batch (plots : list (PlotRecord double LibsimImageProperties))
    (session_ plts plotVars_ : string) (slice_ project2d_ : bool)
    (origin_ normal_ : double * double * double) (filename : string) (timestep : Z) :
  ∃ p,
    AddExport double zero one LibsimImageProperties default_imageProps SetFilename
      plots 0 session_ plts plotVars_ slice_ project2d_ origin_ normal_ filename
    = Some (true, plots ++ [p])
    ∧ frequency _ _ p = 0%Z
    ∧ Execute_Batch_setups double LibsimImageProperties TIMESTEP_MIN timestep (plots ++ [p])
      = None.
Proof.
  unfold AddExport. rewrite !SplitAtCommas_eq. cbn [mbind option_bind].
  pose proof (comma_fields_nonempty plts) as Hne.
  destruct (comma_fields plts) as [|first rest] eqn:Hf; [done|].
  cbn [lookup list_lookup mbind option_bind].
  exists (mkPlotRecord _ _ 0 (SetFilename default_imageProps filename) session_
            [first] (comma_fields plotVars_) true slice_ project2d_ origin_ normal_).
  split; [|split; [done|by apply Execute_Batch_setups_last_None]].
  rewrite (bool_decide_eq_false_2 ([first] = [])) by done.
  rewrite (bool_decide_eq_false_2 (comma_fields plotVars_ = []))
    by apply comma_fields_nonempty.
  cbn [negb andb]. by destruct (String.eqb session_ "").
Qed.

End ZeroFrequency.

(** ** File names with the time step and the time *)

Lemma count_char_app ch a b :
  count_char ch (a +:+ b) = count_char ch a + count_char ch b.
Proof.
  induction a as [|c a IH]; [done|]. rewrite string_app_cons. cbn [count_char].
  rewrite IH. lia.
Qed.

Lemma substr_from_S k c s : substr_from (S k) (String c s) = substr_from k s.
Proof. done. Qed.

Lemma string_cut k s : s = String.substring 0 k s +:+ substr_from k s.
Proof.
  revert k. induction s as [|c s IH]; intros k; [by destruct k|].
  destruct k as [|k].
  - unfold substr_from. rewrite Nat.sub_0_r, substring_all. done.
  - rewrite substr_from_S. cbn [String.substring]. rewrite string_app_cons.
    f_equal. apply IH.
Qed.

(** What [find] returns is the position of an occurrence. *)
Lemma index_split pat s pos :
  String.index 0 pat s = Some pos →
  s = String.substring 0 pos s +:+ (pat +:+ substr_from (pos + String.length pat) s).
Proof.
  revert pos. induction s as [|c s IH]; intros pos Hpos.
  - cbn in Hpos. destruct pat; [|done]. by injection Hpos as <-.
  - cbn [String.index] in Hpos.
    destruct (String.prefix pat (String c s)) eqn:Hpre.
    + injection Hpos as <-. apply String.prefix_correct in Hpre.
      rewrite substring_0_0. change ("" +:+ ?x) with x. cbn [Nat.add].
      rewrite <- Hpre at 1. apply string_cut.
    + destruct (String.index 0 pat s) as [n|]; [|done]. injection Hpos as <-.
      cbn [Nat.add]. rewrite substr_from_S. cbn [String.substring].
      rewrite string_app_cons. f_equal. by apply IH.
Qed.

Lemma count_char_replace ch pat text s pos :
  String.index 0 pat s = Some pos →
  count_char ch (string_replace s pos (String.length pat) text) + count_char ch pat
  = count_char ch s + count_char ch text.
Proof.
  intros Hpos. pose proof (f_equal (count_char ch) (index_split pat s pos Hpos)) as Hs.
  unfold string_replace. rewrite !count_char_app in *. lia.
Qed.

(** The replacement loop ends: every round removes one of the characters
    the pattern needs. *)
Lemma replace_loop_ends ch pat text fuel s :
  0 < count_char ch pat → count_char ch text = 0 → count_char ch s < fuel →
  ∃ r, replace_loop fuel pat text s = Some r
       ∧ String.index 0 pat r = None
       ∧ count_char ch r ≤ count_char ch s
       ∧ (String.index 0 pat s = None → r = s).
Proof.
  intros Hpat Htext. revert s. induction fuel as [|fuel IH]; intros s Hfuel; [lia|].
  cbn [replace_loop]. destruct (String.index 0 pat s) as [pos|] eqn:Hpos.
  - pose proof (count_char_replace ch pat text s pos Hpos) as Hc.
    destruct (IH (string_replace s pos (String.length pat) text)) as (r & -> & Hr & Hle & _);
      [lia|].
    exists r. repeat split; [done|lia|done].
  - exists s. by repeat split.
Qed.

Lemma index_None_of_count ch pat s :
  0 < count_char ch pat → count_char ch s = 0 → String.index 0 pat s = None.
Proof.
  intros Hpat Hs. destruct (String.index 0 pat s) as [pos|] eqn:Hpos; [|done].
  pose proof (f_equal (count_char ch) (index_split pat s pos Hpos)) as Hc.
  rewrite !count_char_app in Hc. lia.
Qed.

(** A text without "%t" has no "%ts" either. *)
Lemma index_ts_None s :
  String.index 0 "%t" s = None → String.index 0 "%ts" s = None.
Proof.
  induction s as [|c s IH]; [done|]. cbn [String.index]. intros H.
  destruct (String.prefix "%t" (String c s)) eqn:Hpre; [done|].
  destruct (String.index 0 "%t" s); [done|]. rewrite IH by done.
  replace (String.prefix "%ts" (String c s)) with false; [done|].
  symmetry. cbn [String.prefix] in *.
  destruct (ascii_dec "%" c); [|done]. clear IH.
  destruct s as [|d s]; cbn [String.prefix] in *; [done|].
  destruct (ascii_dec "t" d); [|done]. by destruct s.
Qed.

(** X22. [MakeFileName] ends and leaves no placeholder. When the texts
    standing for the time step and the time hold no "%" (numbers do not),
    both replacement loops end within as many rounds as the name has "%"
    characters, the result holds neither "%ts" nor "%t", and a name
    without "%" is returned as it is. *)
Theorem MakeFileName_ends (ts5 t_text f : string) :
  count_char "%" ts5 = 0 → count_char "%" t_text = 0 →
  ∃ filename,
    MakeFileName (S (count_char "%" f)) ts5 t_text f = Some filename
    ∧ String.index 0 "%ts" filename = None
    ∧ String.index 0 "%t" filename = None
    ∧ (count_char "%" f = 0 → filename = f).
Proof.
  intros Hts Ht. unfold MakeFileName.
  destruct (replace_loop_ends "%" "%ts" ts5 (S (count_char "%" f)) f)
    as (r1 & -> & _ & Hle1 & Hsame1); [cbn; lia|done|lia|].
  cbn [mbind option_bind].
  destruct (replace_loop_ends "%" "%t" t_text (S (count_char "%" f)) r1)
    as (r2 & -> & Hnone & _ & Hsame2); [cbn; lia|done|lia|].
  exists r2. split; [done|]. split; [by apply index_ts_None|]. split; [done|].
  intros Hf. rewrite Hsame2.
  - apply Hsame1. apply (index_None_of_count "%"); [cbn; lia|done].
  - apply (index_None_of_count "%"); [cbn; lia|lia].
Qed.

Lemma MakeFileName_ends_witness :
  ∃ filename,
    MakeFileName 3 "00012" "0.5" "out_%ts_%t.png" = Some filename
    ∧ String.index 0 "%ts" filename = None
    ∧ String.index 0 "%t" filename = None
    ∧ (count_char "%" "out_%ts_%t.png" = 0 → filename = "out_%ts_%t.png").
Proof.
  apply (MakeFileName_ends "00012" "0.5" "out_%ts_%t.png"); reflexivity.
Defined.

Example MakeFileName_example :
  MakeFileName 3 "00012" "0.5" "out_%ts_%t.png" = Some "out_00012_0.5.png".
Proof. reflexivity. Qed.

(** ** [GetVariable] and the cached data sets *)

Lemma FetchMesh_da pd name : da (FetchMesh pd name) = da pd.
Proof.
  unfold FetchMesh. destruct (meshData pd !! name); [|done].
  destruct (GetMesh _ _ _) as [status obj]. by destruct (status =? 0)%Z.
Qed.

Lemma GetLocalDomain_position pd name mi (k : nat) dom :
  meshData pd !! name = Some mi →
  (Z.of_nat (length (doms_this_rank mi)) ≤ CInt.INT_MAX)%Z →
  NoDup (doms_this_rank mi) →
  doms_this_rank mi !! k = Some (CInt.to_uint dom) →
  GetLocalDomain pd name dom = Z.of_nat k.
Proof.
  intros Hmi Hlen Hnd Hk. unfold GetLocalDomain. rewrite Hmi.
  rewrite CIntFacts.to_int_id
    by (unfold CInt.is_int, CInt.INT_MIN, CInt.INT_MAX in *; lia).
  rewrite Nat2Z.id, take_ge by lia. by rewrite (find_domain_NoDup _ _ k).
Qed.

Lemma GetDataSet_position pd name mi (k : nat) :
  meshData pd !! name = Some mi →
  (Z.of_nat (length (datasets mi)) ≤ CInt.INT_MAX)%Z →
  GetDataSet pd name (Z.of_nat k) = mjoin (datasets mi !! k).
Proof.
  intros Hmi Hlen. rewrite GetDataSet_cases. rewrite Hmi.
  rewrite CIntFacts.to_int_id
    by (unfold CInt.is_int, CInt.INT_MIN, CInt.INT_MAX in *; lia).
  destruct (Z.leb_spec 0 (Z.of_nat k)); [|lia].
  destruct (Z.ltb_spec (Z.of_nat k) (Z.of_nat (length (datasets mi)))); cbn [andb].
  - by rewrite Nat2Z.id.
  - by rewrite lookup_ge_None_2 by lia.
Qed.

(** X23. [GetVariable] relies on the mesh having been fetched. Right after
    the metadata pass has made the cache entry of a mesh, [GetVariable] for
    a variable of that mesh on a local domain reaches the array lookup with
    the null data set [GetDataSet] hands out: it does not fetch the mesh
    itself. Once the callback [GetMesh] has run for the mesh, the same call
    looks the array up in the data-set node of the domain. *)
Theorem GetVariable_needs_fetched_mesh (to_mesh : vtkDataSet → visit_handle)
    (pd : PrivateData) (name var : string) (indeterminate : Z) (info : ArrayInfo)
    (flat : nat → Z) (obj : vtkDataObject) (nodes : list (option Leaf)) (recv : list Z)
    (k : nat) (ds : vtkDataSet) (dom : Z) :
  GetArrayInfoFromVariableName (da pd) var (mkArrayInfo "" "" indeterminate) = Some info →
  ai_meshName info = name →
  GetMesh (da pd) name false = (0%Z, Some obj) →
  composite_nodes obj = Some nodes →
  (Z.of_nat (length nodes) ≤ CInt.INT_MAX)%Z →
  NoDup (metadata_nodes flat 0 nodes).2 →
  (metadata_nodes flat 0 nodes).2 !! k = Some (CInt.to_uint dom) →
  dataset_leaves nodes !! k = Some ds →
  let pd0 := AddMeshDataCacheEntry_store pd name (metadata_nodes flat 0 nodes).2 recv in
  GetVariable_lookup pd0 dom var indeterminate = Some NullDataSet
  ∧ GetVariable_lookup (Libsim_GetMesh to_mesh pd0 dom name).1 dom var indeterminate
    = Some (InDataSet ds info).
Proof.
  intros Hres Hname Hget Hnodes Hlen Hnd Hid Hds pd0.
  destruct (metadata_nodes_leaves flat 0 nodes) as [_ Hn].
  pose proof (length_dataset_leaves nodes) as Hle.
  set (ids := (metadata_nodes flat 0 nodes).2) in *.
  pose proof (lookup_lt_Some _ _ _ Hid) as Hk.
  set (mi0 := {| dataObj := None; datasets := replicate (length ids) None;
                 ndoms_per_rank := write_at (replicate (comm_size pd) 0%Z) 0 recv;
                 doms_this_rank := ids; datasetsHaveGhostCells := false |}).
  assert (meshData pd0 !! name = Some mi0) as Hmi0.
  { unfold pd0, AddMeshDataCacheEntry_store. cbn [meshData set_meshData].
    by rewrite lookup_insert_eq. }
  assert (GetLocalDomain pd0 name dom = Z.of_nat k) as Hloc0
    by (apply (GetLocalDomain_position pd0 name mi0); (done || cbn; lia)).
  assert (GetDataSet pd0 name (Z.of_nat k) = None) as Hds0.
  { rewrite (GetDataSet_position pd0 name mi0) by (done || cbn; rewrite length_replicate; lia).
    cbn [datasets mi0]. by rewrite lookup_replicate_2 by lia. }
  destruct (FetchMesh_fresh_entry pd name ids recv obj nodes Hget Hnodes Hlen)
    as (mi' & Hmi' & Hdoms & Hdss); [lia|]. fold pd0 in Hmi'.
  rewrite Hn, Nat.sub_diag, app_nil_r, take_ge in Hdss by (rewrite length_map; lia).
  assert (Libsim_GetMesh to_mesh pd0 dom name
          = (FetchMesh pd0 name,
             to_mesh <$> GetDataSet (FetchMesh pd0 name) name (Z.of_nat k))) as ->.
  { unfold Libsim_GetMesh. rewrite Hloc0, Hds0.
    by destruct (Z.leb_spec 0 (Z.of_nat k)); [|lia]. }
  cbn [fst]. unfold GetVariable_lookup. rewrite FetchMesh_da.
  change (da pd0) with (da pd). rewrite Hres. cbn [mbind option_bind]. rewrite Hname.
  rewrite Hloc0, Hds0.
  rewrite (GetLocalDomain_position _ name mi' k) by (done || rewrite Hdoms; (done || lia)).
  rewrite (GetDataSet_position _ name mi' k) by (done || rewrite Hdss, length_map; lia).
  rewrite Hdss, list_lookup_fmap, Hds. cbn.
  by destruct (Z.leb_spec 0 (Z.of_nat k)); [|lia].
Qed.

Lemma GetVariable_needs_fetched_mesh_witness :
  let to_mesh := λ ds : vtkDataSet, Z.of_N (ds_addr ds) in
  let pd0 := AddMeshDataCacheEntry_store
               (mkPrivateData (Scenario.adaptor Scenario.amr_rank1) ∅ 1 2)
               "mesh" [1; 2]%Z [1; 2]%Z in
  GetVariable_lookup pd0 2 "pressure" 7 = Some NullDataSet
  ∧ GetVariable_lookup (Libsim_GetMesh to_mesh pd0 2 "mesh").1 2 "pressure" 7
    = Some (InDataSet (mkDataSet ImageData 3) (mkArrayInfo "mesh" "pressure" 7)).
Proof.
  apply (GetVariable_needs_fetched_mesh (λ ds, Z.of_N (ds_addr ds))
           (mkPrivateData (Scenario.adaptor Scenario.amr_rank1) ∅ 1 2) "mesh" "pressure" 7
           (mkArrayInfo "mesh" "pressure" 7)
           Z.of_nat (OverlappingAMR Scenario.amr_rank1)
           [None; Scenario.grid 2; Scenario.grid 3] [1; 2]%Z 1
           (mkDataSet ImageData 3) 2).
  - reflexivity.
  - reflexivity.
  - reflexivity.
  - reflexivity.
  - unfold CInt.INT_MAX. cbn. lia.
  - cbn. apply NoDup_cons. split; [|apply NoDup_singleton].
    apply not_elem_of_cons. split; [lia|apply not_elem_of_nil].
  - reflexivity.
  - reflexivity.
Defined.

(** ** One nesting call for every patch *)

Lemma childData_concat amr allext (mines : list (list nat)) (cds : list (list Z)) :
  Forall2 (λ mine cd, childData amr allext mine = Some cd) mines cds →
  childData amr allext (concat mines) = Some (concat cds).
Proof.
  induction 1 as [|mine cd mines cds Hcd _ IH]; [done|].
  unfold childData in *. cbn [concat].
  destruct (mapM (child_block amr allext) mine) as [blocks|] eqn:Hb; [|done].
  destruct (mapM (child_block amr allext) (concat mines)) as [blocks'|] eqn:Hb'; [|done].
  cbn in Hcd, IH. injection Hcd as <-. injection IH as <-.
  apply mapM_Some in Hb, Hb'.
  rewrite (mapM_Some_2 _ _ (blocks ++ blocks')) by (by apply Forall2_app).
  cbn. by rewrite concat_app.
Qed.

Lemma work_offset_all ws size : 0 < size → work_offset ws size size = ws.
Proof.
  intros Hsize. unfold work_offset.
  rewrite take_ge by (by rewrite length_rankn). by apply sum_list_rankn.
Qed.

Lemma elem_le_sum_list (l : list nat) n : n ∈ l → n ≤ sum_list l.
Proof.
  induction l as [|x l IH]; intros Hin; [by apply elem_of_nil in Hin|].
  cbn. apply elem_of_cons in Hin as [->|Hin]; [lia|]. specialize (IH Hin). lia.
Qed.

(** The child lists of all ranks together are the child lists of the
    whole work list. *)
Lemma childData_all_ranks amr allext size (cds : list (list Z)) :
  0 < size →
  mapM (λ r, mine ← mywork (work_list amr) size r; childData amr allext mine)
       (seq 0 size) = Some cds →
  childData amr allext (work_list amr) = Some (concat cds).
Proof.
  intros Hsize Hall. apply mapM_Some in Hall.
  set (work := work_list amr) in *.
  set (block := λ rank, take (round_robin_count (length work) size rank)
                             (drop (work_offset (length work) size rank) work)).
  assert (Forall2 (λ mine cd, childData amr allext mine = Some cd)
            (map block (seq 0 size)) cds) as Hblocks.
  { apply Forall2_fmap_l. apply Forall2_same_length_lookup in Hall as [Hlen Hall].
    apply Forall2_same_length_lookup. split; [done|]. intros i r cd Hr Hcd.
    specialize (Hall i r cd Hr Hcd). apply lookup_seq in Hr as [-> Hi]. cbn in *.
    by rewrite (mywork_block work size i) in Hall by lia. }
  apply childData_concat in Hblocks.
  unfold block in Hblocks. rewrite concat_blocks in Hblocks by lia.
  by rewrite work_offset_all, firstn_all in Hblocks.
Qed.

(** X24. Every patch gets one nesting call. When the ranks of the
    communicator have computed the child lists of their shares of the work
    list and [cds] holds them in rank order (what the gather delivers), the
    last part of [GetDomainNesting] builds the nesting object on an extent
    table that has a row for every patch of a data set with at least one
    level: it makes one call for each patch of the data set, for the
    patches 0, 1, ... in this order, whatever the number of ranks is. *)
Theorem nesting_one_call_per_patch (amr : vtkOverlappingAMR) (allext : list Z)
    (size : nat) (td : Z) (cds : list (list Z)) :
  0 < size →
  0 < GetNumberOfLevels amr →
  mapM (λ r, mine ← mywork (work_list amr) size r; childData amr allext mine)
       (seq 0 size) = Some cds →
  6 * GetTotalNumberOfBlocks amr ≤ length allext →
  (Z.of_nat (length allext) ≤ CInt.INT_MAX)%Z →
  GetNumberOfLevels amr ≤ length (amr_refinementRatio amr) →
  ∃ dn,
    nesting_finish amr allext td (concat cds) = Some (Nesting dn)
    ∧ map pn_patch (dn_nesting dn) = seq 0 (GetTotalNumberOfBlocks amr)
    ∧ dn_numPatches dn = GetTotalNumberOfBlocks amr
    ∧ dn_topdim dn = td.
Proof.
  intros Hsize _ Hall Hrows Hfit Hratios.
  pose proof (childData_all_ranks amr allext size cds Hsize Hall) as Hcd.
  pose proof (work_list_leaves_seq amr) as Hcover.
  assert (∀ dom, dom < GetTotalNumberOfBlocks amr → 6 * dom + 6 ≤ length allext) as Hrow
    by (intros; lia).
  assert (Forall (λ dom, 6 * dom + 6 ≤ length allext) (work_list amr)) as Hwork.
  { apply Forall_forall. intros dom Hdom. apply Hrow.
    assert (dom ∈ seq 0 (GetTotalNumberOfBlocks amr)) as Hin
      by (rewrite <- Hcover; apply elem_of_app; by left).
    apply list_elem_of_In, in_seq in Hin. lia. }
  assert (Forall (λ n, (Z.of_nat n + 2 ≤ CInt.INT_MAX)%Z) (amr_blocksPerLevel amr)) as Hlv.
  { apply Forall_forall. intros n Hn. apply elem_le_sum_list in Hn.
    unfold GetTotalNumberOfBlocks, CInt.INT_MAX in *. lia. }
  destruct (consume_results_blocks amr allext (work_list amr) Hwork Hfit Hlv
              (concat cds) (S (length (concat cds))) Hcd) as (inner & Hinner & Hcalls);
    [lia|].
  assert (is_Some (leaf_patches amr allext)) as [leaves Hleaves].
  { apply mapM_is_Some_2, Forall_forall. intros i Hi. unfold compose.
    destruct (logical_extent_Some allext
                (6 * GetCompositeIndex amr (GetNumberOfLevels amr - 1) i)) as [le ->];
      [|by eexists].
    assert (GetCompositeIndex amr (GetNumberOfLevels amr - 1) i
            ∈ seq 0 (GetTotalNumberOfBlocks amr)) as Hin.
    { rewrite <- Hcover. apply elem_of_app. right. by apply list_elem_of_fmap_2. }
    apply list_elem_of_In, in_seq in Hin. lia. }
  assert (is_Some (level_refinements amr td)) as [refs Hrefs].
  { apply mapM_is_Some_2, Forall_forall. intros i Hi.
    apply list_elem_of_In, in_seq in Hi. unfold compose, GetRefinementRatio.
    destruct (lookup_lt_is_Some_2 (amr_refinementRatio amr) i) as [r ->]; [lia|].
    by eexists. }
  unfold nesting_finish. rewrite Hrefs, Hinner, Hleaves. cbn [mbind option_bind].
  eexists. split; [done|]. cbn [dn_nesting dn_numPatches dn_topdim].
  split; [|done]. rewrite map_app, (leaf_patches_indices amr allext leaves Hleaves).
  rewrite <- Hcover. f_equal.
  clear -Hcalls. induction Hcalls as [|dom pn mine calls (Hp & _) _ IH]; [done|].
  cbn. by rewrite Hp, IH.
Qed.

Lemma nesting_one_call_per_patch_witness :
  ∃ dn,
    nesting_finish Scenario.amr_rank0
      [0; 3; 0; 3; 0; 0; 0; 1; 0; 1; 0; 0; 2; 3; 2; 3; 0; 0]%Z 2
      (concat [[0; 2; 1; 2]%Z; []]) = Some (Nesting dn)
    ∧ map pn_patch (dn_nesting dn) = seq 0 (GetTotalNumberOfBlocks Scenario.amr_rank0)
    ∧ dn_numPatches dn = GetTotalNumberOfBlocks Scenario.amr_rank0
    ∧ dn_topdim dn = 2%Z.
Proof.
  apply (nesting_one_call_per_patch Scenario.amr_rank0
           [0; 3; 0; 3; 0; 0; 0; 1; 0; 1; 0; 0; 2; 3; 2; 3; 0; 0]%Z 2 2
           [[0; 2; 1; 2]%Z; []]).
  - lia.
  - vm_compute. lia.
  - vm_compute. reflexivity.
  - vm_compute. lia.
  - vm_compute. discriminate.
  - vm_compute. lia.
Defined.

(** ** Ranks that disagree on the early return *)

Lemma run_spmd_mixed {A} (ps : list (Proc A)) (a b : nat) (r : A) c k fuel :
  ps !! a = Some (Ret r) → ps !! b = Some (Coll c k) → run_spmd fuel ps = None.
Proof.
  intros Ha Hb.
  assert (all_returned ps = None) as Hret.
  { apply mapM_None_2, Exists_exists. exists (Coll c k).
    split; [by eapply list_elem_of_lookup_2|done]. }
  assert (all_stopped ps = None) as Hstop.
  { apply mapM_None_2, Exists_exists. exists (Ret r).
    split; [by eapply list_elem_of_lookup_2|done]. }
  destruct fuel; cbn [run_spmd]; rewrite Hret; [done|]. by rewrite Hstop.
Qed.

(** X25. The early return of [GetDomainNesting] must be taken by all ranks
    or by none. If one rank returns the invalid handle before the first
    reduction (no cache entry, ghost cells, no AMR data object) while
    another rank goes on, the collective calls of the ranks that went on
    are never matched: the callback does not return on all ranks, however
    long it runs. *)
Theorem GetDomainNesting_disagreement_blocks (world : list PrivateData) (name : string)
    (a b : nat) (pda pdb pdb1 : PrivateData) (amr : vtkOverlappingAMR) (fuel : nat) :
  world !! a = Some pda →
  world !! b = Some pdb →
  (GetDomainNesting_checks true pda name).2 = None →
  GetDomainNesting_checks true pdb name = (pdb1, Some amr) →
  run_spmd fuel (map (λ pd, GetDomainNesting true pd name) world) = None.
Proof.
  intros Ha Hb Hearly Hgo.
  destruct (GetDomainNesting_enters_reduction true pdb name pdb1 amr Hgo) as [k Hk].
  apply (run_spmd_mixed _ a b
           ((GetDomainNesting_checks true pda name).1, Some InvalidHandle)
           (MPI_Allreduce_MAX (fill_extents amr)) k).
  - rewrite list_lookup_fmap, Ha. cbn. unfold GetDomainNesting.
    destruct (GetDomainNesting_checks true pda name) as [pd1 [?|]]; [done|]. done.
  - rewrite list_lookup_fmap, Hb. cbn. by rewrite Hk.
Qed.

Lemma GetDomainNesting_disagreement_blocks_witness :
  run_spmd 5
    (map (λ pd, GetDomainNesting true pd "mesh")
       [ mkPrivateData (Scenario.adaptor Scenario.amr_rank0) ∅ 0 2; Scenario.rank1_fetched ])
  = None.
Proof.
  apply (GetDomainNesting_disagreement_blocks
           [ mkPrivateData (Scenario.adaptor Scenario.amr_rank0) ∅ 0 2;
             Scenario.rank1_fetched ]
           "mesh" 0 1
           (mkPrivateData (Scenario.adaptor Scenario.amr_rank0) ∅ 0 2)
           Scenario.rank1_fetched Scenario.rank1_fetched Scenario.amr_rank1 5).
  - reflexivity.
  - reflexivity.
  - reflexivity.
  - unfold GetDomainNesting_checks. rewrite scenario_rank1_lookup. reflexivity.
Defined.
